(** * mysqlx statement builders (lib/mysqlx/statement.py)

  A shallow embedding of the statement-construction layer of MySQL
  Connector/Python's X DevAPI: identifier quoting, the filterable
  statement builders with their execution contracts, SQL text generation
  for [SelectStatement], and the index-descriptor validator of
  [CreateCollectionIndexStatement].

  Python objects that are mutated in place and may be shared (the index
  description and its nested field entries) live in an explicit object
  store; builders whose state is owned by one statement are records
  threaded through a state-and-exception monad. *)

From Stdlib Require Import ZArith Strings.String Strings.Ascii List Bool Lia.
From Stdlib Require Import Numbers.DecimalString.
From stdpp Require Import gmap strings list fin_maps.

Import ListNotations.
Local Set Warnings "-register-all".
Local Open Scope string_scope.
Local Open Scope list_scope.

(** ** Python values, exceptions and outcomes *)

(** Addresses of mutable objects (dictionaries and lists) in the store. *)
Definition loc := nat.

(** A Python value: an immutable scalar or a reference to a mutable object. *)
Inductive val :=
| VNone
| VBool (b : bool)
| VInt (n : Z)
| VStr (s : string)
| VRef (l : loc).

#[global] Instance val_eq_dec : EqDecision val.
Proof. solve_decision. Defined.

(** An argument of [str.format]: error messages keep their template and the
  values substituted into it; a dictionary is kept as its items at the
  moment the message is built, and [FKeyError key] is the [KeyError] raised
  for [key], whose text is the key as [repr] writes it, between quotes. *)
Inductive fmt_arg :=
| FStr (s : string)
| FVal (v : val)
| FDict (m : gmap string val)
| FKeyError (key : string).

(** [StoreError] is not a Python exception: it marks the use of an address
  that holds no object, which a Python program cannot produce. *)
Inductive exn :=
| ProgrammingError (template : string) (args : list fmt_arg)
| NotSupportedError (msg : string)
| ValueError
| IndexError
| KeyError (key : string)
| AttributeError
| TypeError
| RecursionError
| StoreError.

Inductive outcome (A : Type) :=
| Return (a : A)
| Raise (e : exn).
Arguments Return {A} a.
Arguments Raise {A} e.

(** Computations over a mutable state [S] that may raise: the state reached
  is kept in both cases, as a Python object keeps the assignments made
  before an exception. *)
Definition M (S A : Type) : Type := S -> outcome A * S.

Definition retM {S A} (a : A) : M S A := fun s => (Return a, s).

Definition raiseM {S A} (e : exn) : M S A := fun s => (Raise e, s).

Definition bindM {S A B} (c : M S A) (k : A -> M S B) : M S B :=
  fun s =>
    match c s with
    | (Return a, s') => k a s'
    | (Raise e, s') => (Raise e, s')
    end.

Definition getM {S} : M S S := fun s => (Return s, s).

Definition modifyM {S} (f : S -> S) : M S unit := fun s => (Return tt, f s).

(** [try: c except exc: h]: [h] runs, on the state [c] reached, for the
  exceptions it is defined for. *)
Definition try_except {S A} (c : M S A) (h : exn -> option (M S A)) : M S A :=
  fun s =>
    match c s with
    | (Return a, s') => (Return a, s')
    | (Raise e, s') =>
        match h e with
        | Some k => k s'
        | None => (Raise e, s')
        end
    end.

(** An outcome computed without touching the state. *)
Definition liftO {S A} (o : outcome A) : M S A := fun s => (o, s).

(** A method inherited from a base class runs on the base part of the
  object. *)
Definition inherited {S T A} (base : T -> S) (set_base : S -> T -> T) (c : M S A)
  : M T A :=
  fun t => let '(r, s') := c (base t) in (r, set_base s' t).

(** A constructor call: the object [__init__] leaves, unless it raises. *)
Definition construct {S A} (init : M S A) (fresh : S) : outcome S :=
  match init fresh with
  | (Return _, self) => Return self
  | (Raise e, _) => Raise e
  end.

(** [for x in xs: body(x)]. *)
Fixpoint for_each {S A} (xs : list A) (body : A -> M S unit) : M S unit :=
  match xs with
  | [] => retM tt
  | x :: rest => bindM (body x) (fun _ => for_each rest body)
  end.

Notation "x <- c ;; k" := (bindM c (fun x => k))
  (at level 100, c at next level, right associativity).
Notation "c ;; k" := (bindM c (fun _ => k))
  (at level 100, right associativity).

(** ** Python [str] operations used by the module *)

(** [str.upper()] follows the case mapping of Unicode, which is not part
  of the module: [str_upper s] is what it returns for [s], whatever the
  characters of [s]. *)
Class CaseMapping := { str_upper : string -> string }.

Module PyStr.

(** [needle in hay] for strings. *)
Fixpoint contains (needle hay : string) : bool :=
  String.prefix needle hay ||
  match hay with
  | EmptyString => false
  | String _ hay' => contains needle hay'
  end.

(** [s[0]]; [None] stands for [IndexError]. *)
Definition first_char (s : string) : option ascii :=
  match s with
  | EmptyString => None
  | String c _ => Some c
  end.

(** [s[-1]]; [None] stands for [IndexError]. *)
Fixpoint last_char (s : string) : option ascii :=
  match s with
  | EmptyString => None
  | String c EmptyString => Some c
  | String _ s' => last_char s'
  end.

(** [s.replace(old, new)] for a pattern [old] of one character. *)
Fixpoint replace1 (old : ascii) (new : string) (s : string) : string :=
  match s with
  | EmptyString => EmptyString
  | String c s' =>
      if Ascii.eqb c old then new +:+ replace1 old new s'
      else String c (replace1 old new s')
  end.

Fixpoint drop (n : nat) (s : string) : string :=
  match n, s with
  | O, _ => s
  | S n', String _ s' => drop n' s'
  | S _, EmptyString => EmptyString
  end.

(** [s.split(delim, 1)] for a non-empty [delim]: [None] when [delim] does
    not occur (the result list has one element, [s]), otherwise the text
    before and after its first occurrence. *)
Fixpoint split_once (delim s : string) : option (string * string) :=
  if String.prefix delim s then Some (EmptyString, drop (String.length delim) s)
  else
    match s with
    | EmptyString => None
    | String c s' =>
        match split_once delim s' with
        | Some (l, r) => Some (String c l, r)
        | None => None
        end
    end.

Fixpoint lstrip (c : ascii) (s : string) : string :=
  match s with
  | EmptyString => EmptyString
  | String a s' => if Ascii.eqb a c then lstrip c s' else s
  end.

Fixpoint rstrip (c : ascii) (s : string) : string :=
  match s with
  | EmptyString => EmptyString
  | String a s' =>
      match rstrip c s' with
      | EmptyString => if Ascii.eqb a c then EmptyString else String a EmptyString
      | r => String a r
      end
  end.

(** [s.strip(chars)] where [chars] is one character. *)
Definition strip (c : ascii) (s : string) : string := rstrip c (lstrip c s).

Definition upper_char (c : ascii) : ascii :=
  let n := nat_of_ascii c in
  if (97 <=? n)%nat && (n <=? 122)%nat then ascii_of_nat (n - 32) else c.

(** What [s.upper()] is when the characters of [s] are ASCII: the letters
  a to z are replaced and nothing else. *)
Fixpoint ascii_upper (s : string) : string :=
  match s with
  | EmptyString => EmptyString
  | String c s' => String (upper_char c) (ascii_upper s')
  end.

(** [s.upper()]. *)
Definition upper `{!CaseMapping} (s : string) : string := str_upper s.

(** [s.startswith(p)]. *)
Definition startswith (s p : string) : bool := String.prefix p s.

(** [sep.join(parts)]. *)
Fixpoint join (sep : string) (parts : list string) : string :=
  match parts with
  | [] => EmptyString
  | [p] => p
  | p :: ps => p +:+ sep +:+ join sep ps
  end.

(** [str(n)] for an [int]. *)
Definition of_Z (n : Z) : string := NilZero.string_of_int (Z.to_int n).

(** [kwargs[name]] in a list of keyword arguments. *)
Fixpoint lookup_arg (name : string) (kwargs : list (string * string)) : option string :=
  match kwargs with
  | [] => None
  | (k, v) :: rest => if String.eqb k name then Some v else lookup_arg name rest
  end.

(** [str.format] with keyword arguments, for templates whose replacement fields are
  plain names ([{select}]) or positions ([{0}], passed under the names
  ["0"], ["1"], ...); [field] is the name being read inside braces. A name
  that is not passed raises [KeyError], an unmatched brace [ValueError].
  Doubled braces, conversions and format specifications are not used by the
  module. *)
Fixpoint format_from (template : string) (field : option string)
  (kwargs : list (string * string)) : outcome string :=
  match template with
  | EmptyString =>
      match field with
      | None => Return EmptyString
      | Some _ => Raise ValueError
      end
  | String c rest =>
      match field with
      | None =>
          if Ascii.eqb c "{" then format_from rest (Some EmptyString) kwargs
          else if Ascii.eqb c "}" then Raise ValueError
          else
            match format_from rest None kwargs with
            | Return s => Return (String c s)
            | Raise e => Raise e
            end
      | Some name =>
          if Ascii.eqb c "}" then
            match lookup_arg name kwargs with
            | None => Raise (KeyError name)
            | Some v =>
                match format_from rest None kwargs with
                | Return s => Return (v +:+ s)
                | Raise e => Raise e
                end
            end
          else format_from rest (Some (name +:+ String c EmptyString)) kwargs
      end
  end.

Definition format (template : string) (kwargs : list (string * string))
  : outcome string :=
  format_from template None kwargs.

End PyStr.


(** ** Identifier quoting *)

Module Quoting.

(** The double-quote character. *)
Definition dquote : ascii := ascii_of_nat 34.

Definition backtick : ascii := "`"%char.

(** ["ANSI_QUOTES" in sql_mode]. *)
Definition ansi_quotes (sql_mode : string) : bool :=
  PyStr.contains "ANSI_QUOTES" sql_mode.

(** [identifier[0] == q and identifier[-1] == q]; indexing an empty string
  raises [IndexError]. *)
Definition wrapped_in (q : ascii) (identifier : string) : outcome bool :=
  match PyStr.first_char identifier with
  | None => Raise IndexError
  | Some f =>
      if Ascii.eqb f q then
        match PyStr.last_char identifier with
        | None => Raise IndexError
        | Some l => Return (Ascii.eqb l q)
        end
      else Return false
  end.

Definition is_quoted_identifier (identifier sql_mode : string) : outcome bool :=
  if ansi_quotes sql_mode then
    match wrapped_in backtick identifier with
    | Return true => Return true
    | Return false => wrapped_in dquote identifier
    | Raise e => Raise e
    end
  else wrapped_in backtick identifier.

Definition quote_identifier (identifier sql_mode : string) : outcome string :=
  if (String.length identifier =? 0)%nat then Return "``"
  else
    match is_quoted_identifier identifier sql_mode with
    | Raise e => Raise e
    | Return true => Return identifier
    | Return false =>
        if ansi_quotes sql_mode then
          Return (String dquote
                    (PyStr.replace1 dquote (String dquote (String dquote "")) identifier
                     +:+ String dquote ""))
        else
          Return ("`" +:+ PyStr.replace1 backtick "``" identifier +:+ "`")
    end.

Fixpoint quote_all (identifiers : list string) (sql_mode : string)
  : outcome (list string) :=
  match identifiers with
  | [] => Return []
  | i :: rest =>
      match quote_identifier i sql_mode with
      | Raise e => Raise e
      | Return q =>
          match quote_all rest sql_mode with
          | Raise e => Raise e
          | Return qs => Return (q :: qs)
          end
      end
  end.

Definition quote_multipart_identifier (identifiers : list string) (sql_mode : string)
  : outcome string :=
  match quote_all identifiers sql_mode with
  | Raise e => Raise e
  | Return qs => Return (PyStr.join "." qs)
  end.

(** [len(temp) is 1] compares small integers, which CPython keeps unique, so
  it holds exactly when the split found no delimiter. *)
Definition parse_table_name (default_schema table_name sql_mode : string)
  : string * string :=
  let quote := if ansi_quotes sql_mode then dquote else backtick in
  let delimiter :=
    if PyStr.contains (String quote "") table_name then String "." (String quote "")
    else "." in
  match PyStr.split_once delimiter table_name with
  | None => (default_schema, PyStr.strip quote table_name)
  | Some (schema, table) => (PyStr.strip quote schema, PyStr.strip quote table)
  end.

End Quoting.

(** ** Collaborators and data *)

(** Values handed to [bind] and [add]: what [json.loads] returns, and
  documents ([DbDoc]). They are never mutated by the module. *)
Inductive pyobj :=
| PNone
| PBool (b : bool)
| PInt (n : Z)
| PStr (s : string)
| PList (items : list pyobj)
| PDict (items : list (string * pyobj))
| PDbDoc (items : list (string * pyobj)).

(** The expression parser ([mysqlx.expr.ExprParser]), the JSON decoder and
  the document class: every parsing entry point takes the text and the
  table-mode flag and answers [None] where the parser raises [ValueError].
  [expr] also gives the parser's [placeholder_name_to_position]. *)
Class Parser := {
  Expr : Type;
  expr : string -> bool -> option (Expr * gmap string nat);
  parse_expr_list : string -> bool -> option (list Expr);
  parse_order_spec : string -> bool -> option (list Expr);
  parse_table_select_projection : string -> bool -> option (list Expr);
  document_field : string -> option Expr;
  parse_table_update_field : string -> option Expr;
  Expr_str : Expr -> string;
  Expr_is_ident : Expr -> bool;
  json_loads : string -> option pyobj;
  DbDoc_str : list (string * pyobj) -> string;
  DbDoc_new : pyobj -> option (list (string * pyobj))
}.

Record Schema := { Schema_name : string }.

(** A collection or a table. *)
Record Target := { Target_name : string; Target_schema : Schema }.

Record Statement := { _target : option Target; _doc_based : bool }.

(** An entry of [_bindings]: the dictionary with keys [name] and [value]. *)
Record binding := { binding_name : pyobj; binding_value : pyobj }.

(** A positional argument of a variadic mutator: a string, or a list or
  tuple of strings. *)
Inductive param :=
| ArgStr (s : string)
| ArgSeq (items : list string).

Definition flexible_params (values : list param) : list param :=
  match values with
  | [ArgSeq items] => map ArgStr items
  | _ => values
  end.

(** [sep.join(fields)]: [TypeError] when an item is not a string. *)
Fixpoint strings_of (fields : list param) : outcome (list string) :=
  match fields with
  | [] => Return []
  | ArgStr s :: rest =>
      match strings_of rest with
      | Return ss => Return (s :: ss)
      | Raise e => Raise e
      end
  | ArgSeq _ :: _ => Raise TypeError
  end.

Definition join_params (sep : string) (fields : list param) : outcome string :=
  match strings_of fields with
  | Return ss => Return (PyStr.join sep ss)
  | Raise e => Raise e
  end.

Inductive UpdateType :=
| SET | ITEM_REMOVE | ITEM_SET | ITEM_REPLACE | ITEM_MERGE
| ARRAY_INSERT | ARRAY_APPEND | MERGE_PATCH.

Section Records.
Context `{Parser}.

Record UpdateSpec := {
  update_type : UpdateType;
  source : Expr;
  value : option pyobj
}.

(** The attributes [FilterableStatement.__init__] creates, with those of
  [Statement]; [_where] and [_where_expr] do not exist until [where] assigns
  them. *)
Record FilterableStatement := {
  statement : Statement;
  _binding_map : gmap string nat;
  _bindings : list binding;
  _having : option Expr;
  _grouping_str : string;
  _grouping : option (list Expr);
  _limit_offset : Z;
  _limit_row_count : Z;
  _projection_str : string;
  _projection_expr : option (list Expr);
  _sort_str : string;
  _sort_expr : option (list Expr);
  has_bindings : bool;
  has_limit : bool;
  has_group_by : bool;
  has_having : bool;
  has_projection : bool;
  has_sort : bool;
  has_where : bool;
  _where : option string;
  _where_expr : option Expr
}.

(** Attribute assignments [self.x = v]. *)
Definition set_binding_map (v : gmap string nat) (self : FilterableStatement)
  : FilterableStatement :=
  let 'Build_FilterableStatement st _ bs hv gs gr lo lr ps pe ss se hb hl hg hh hp hs hw w we := self in
  Build_FilterableStatement st v bs hv gs gr lo lr ps pe ss se hb hl hg hh hp hs hw w we.

Definition set_bindings (v : list binding) (self : FilterableStatement)
  : FilterableStatement :=
  let 'Build_FilterableStatement st bm _ hv gs gr lo lr ps pe ss se hb hl hg hh hp hs hw w we := self in
  Build_FilterableStatement st bm v hv gs gr lo lr ps pe ss se hb hl hg hh hp hs hw w we.

Definition set_having (v : option Expr) (self : FilterableStatement)
  : FilterableStatement :=
  let 'Build_FilterableStatement st bm bs _ gs gr lo lr ps pe ss se hb hl hg hh hp hs hw w we := self in
  Build_FilterableStatement st bm bs v gs gr lo lr ps pe ss se hb hl hg hh hp hs hw w we.

Definition set_grouping_str (v : string) (self : FilterableStatement)
  : FilterableStatement :=
  let 'Build_FilterableStatement st bm bs hv _ gr lo lr ps pe ss se hb hl hg hh hp hs hw w we := self in
  Build_FilterableStatement st bm bs hv v gr lo lr ps pe ss se hb hl hg hh hp hs hw w we.

Definition set_grouping (v : option (list Expr)) (self : FilterableStatement)
  : FilterableStatement :=
  let 'Build_FilterableStatement st bm bs hv gs _ lo lr ps pe ss se hb hl hg hh hp hs hw w we := self in
  Build_FilterableStatement st bm bs hv gs v lo lr ps pe ss se hb hl hg hh hp hs hw w we.

Definition set_limit_offset (v : Z) (self : FilterableStatement)
  : FilterableStatement :=
  let 'Build_FilterableStatement st bm bs hv gs gr _ lr ps pe ss se hb hl hg hh hp hs hw w we := self in
  Build_FilterableStatement st bm bs hv gs gr v lr ps pe ss se hb hl hg hh hp hs hw w we.

Definition set_limit_row_count (v : Z) (self : FilterableStatement)
  : FilterableStatement :=
  let 'Build_FilterableStatement st bm bs hv gs gr lo _ ps pe ss se hb hl hg hh hp hs hw w we := self in
  Build_FilterableStatement st bm bs hv gs gr lo v ps pe ss se hb hl hg hh hp hs hw w we.

Definition set_projection_str (v : string) (self : FilterableStatement)
  : FilterableStatement :=
  let 'Build_FilterableStatement st bm bs hv gs gr lo lr _ pe ss se hb hl hg hh hp hs hw w we := self in
  Build_FilterableStatement st bm bs hv gs gr lo lr v pe ss se hb hl hg hh hp hs hw w we.

Definition set_projection_expr (v : option (list Expr)) (self : FilterableStatement)
  : FilterableStatement :=
  let 'Build_FilterableStatement st bm bs hv gs gr lo lr ps _ ss se hb hl hg hh hp hs hw w we := self in
  Build_FilterableStatement st bm bs hv gs gr lo lr ps v ss se hb hl hg hh hp hs hw w we.

Definition set_sort_str (v : string) (self : FilterableStatement)
  : FilterableStatement :=
  let 'Build_FilterableStatement st bm bs hv gs gr lo lr ps pe _ se hb hl hg hh hp hs hw w we := self in
  Build_FilterableStatement st bm bs hv gs gr lo lr ps pe v se hb hl hg hh hp hs hw w we.

Definition set_sort_expr (v : option (list Expr)) (self : FilterableStatement)
  : FilterableStatement :=
  let 'Build_FilterableStatement st bm bs hv gs gr lo lr ps pe ss _ hb hl hg hh hp hs hw w we := self in
  Build_FilterableStatement st bm bs hv gs gr lo lr ps pe ss v hb hl hg hh hp hs hw w we.

Definition set_has_bindings (v : bool) (self : FilterableStatement)
  : FilterableStatement :=
  let 'Build_FilterableStatement st bm bs hv gs gr lo lr ps pe ss se _ hl hg hh hp hs hw w we := self in
  Build_FilterableStatement st bm bs hv gs gr lo lr ps pe ss se v hl hg hh hp hs hw w we.

Definition set_has_limit (v : bool) (self : FilterableStatement)
  : FilterableStatement :=
  let 'Build_FilterableStatement st bm bs hv gs gr lo lr ps pe ss se hb _ hg hh hp hs hw w we := self in
  Build_FilterableStatement st bm bs hv gs gr lo lr ps pe ss se hb v hg hh hp hs hw w we.

Definition set_has_group_by (v : bool) (self : FilterableStatement)
  : FilterableStatement :=
  let 'Build_FilterableStatement st bm bs hv gs gr lo lr ps pe ss se hb hl _ hh hp hs hw w we := self in
  Build_FilterableStatement st bm bs hv gs gr lo lr ps pe ss se hb hl v hh hp hs hw w we.

Definition set_has_having (v : bool) (self : FilterableStatement)
  : FilterableStatement :=
  let 'Build_FilterableStatement st bm bs hv gs gr lo lr ps pe ss se hb hl hg _ hp hs hw w we := self in
  Build_FilterableStatement st bm bs hv gs gr lo lr ps pe ss se hb hl hg v hp hs hw w we.

Definition set_has_projection (v : bool) (self : FilterableStatement)
  : FilterableStatement :=
  let 'Build_FilterableStatement st bm bs hv gs gr lo lr ps pe ss se hb hl hg hh _ hs hw w we := self in
  Build_FilterableStatement st bm bs hv gs gr lo lr ps pe ss se hb hl hg hh v hs hw w we.

Definition set_has_sort (v : bool) (self : FilterableStatement)
  : FilterableStatement :=
  let 'Build_FilterableStatement st bm bs hv gs gr lo lr ps pe ss se hb hl hg hh hp _ hw w we := self in
  Build_FilterableStatement st bm bs hv gs gr lo lr ps pe ss se hb hl hg hh hp v hw w we.

Definition set_has_where (v : bool) (self : FilterableStatement)
  : FilterableStatement :=
  let 'Build_FilterableStatement st bm bs hv gs gr lo lr ps pe ss se hb hl hg hh hp hs _ w we := self in
  Build_FilterableStatement st bm bs hv gs gr lo lr ps pe ss se hb hl hg hh hp hs v w we.

Definition set_where (v : option string) (self : FilterableStatement)
  : FilterableStatement :=
  let 'Build_FilterableStatement st bm bs hv gs gr lo lr ps pe ss se hb hl hg hh hp hs hw _ we := self in
  Build_FilterableStatement st bm bs hv gs gr lo lr ps pe ss se hb hl hg hh hp hs hw v we.

Definition set_where_expr (v : option Expr) (self : FilterableStatement)
  : FilterableStatement :=
  let 'Build_FilterableStatement st bm bs hv gs gr lo lr ps pe ss se hb hl hg hh hp hs hw w _ := self in
  Build_FilterableStatement st bm bs hv gs gr lo lr ps pe ss se hb hl hg hh hp hs hw w v.

Record ReadStatement := {
  read_filterable : FilterableStatement;
  _lock_exclusive : bool;
  _lock_shared : bool
}.

Record ModifyStatement := {
  modify_filterable : FilterableStatement;
  modify_update_ops : list UpdateSpec
}.

Record UpdateStatement := {
  update_filterable : FilterableStatement;
  update_update_ops : list UpdateSpec
}.

Record RemoveStatement := { remove_filterable : FilterableStatement }.

Record DeleteStatement := { delete_filterable : FilterableStatement }.

Record WriteStatement := {
  write_statement : Statement;
  _values : list pyobj;
  _upsert : bool
}.

Record AddStatement := { add_write : WriteStatement; ids : list pyobj }.

Record InsertStatement := { insert_write : WriteStatement; _fields : list param }.

(** The [args] dictionary of [create_collection_index]; each constraint is
  the dictionary built for one field entry. *)
Record IndexArgs := {
  args_name : string;
  args_collection : string;
  args_schema : string;
  args_type : val;
  args_unique : val;
  args_constraint : list (gmap string val)
}.

(** The statement object a transport operation receives. *)
Inductive any_statement :=
| StAdd (s : AddStatement)
| StInsert (s : InsertStatement)
| StModify (s : ModifyStatement)
| StUpdate (s : UpdateStatement)
| StRemove (s : RemoveStatement)
| StDelete (s : DeleteStatement)
| StRead (s : ReadStatement).

(** A call on the connection. *)
Inductive call :=
| call_send_sql (sql : string)
| call_send_insert (s : any_statement)
| call_update (s : any_statement)
| call_delete (s : any_statement)
| call_find (s : any_statement)
| call_execute_nonquery (namespace cmd : string) (raise_on_fail : bool) (args : IndexArgs).

(** The connection: what it answers to a call after the calls made so far.
  [Result_new] is [Result()], the empty result. *)
Class Connection := {
  Result : Type;
  Result_new : Result;
  respond : list call -> call -> outcome Result
}.

(** A call on the connection; the state is the log of the calls made. *)
Definition transport `{Connection} (c : call) : M (list call) Result :=
  fun log => (respond log c, log ++ [c]).

(** The connection object; the model has one. *)
Inductive connection_object := TargetConnection.

(** [self._connection]: [Statement.__init__] assigns it
  [target.get_connection() if target else None], and no statement modelled
  here assigns it again, so it is read off the target. *)
Definition _connection (self : Statement) : option connection_object :=
  match _target self with
  | Some _ => Some TargetConnection
  | None => None
  end.

(** A call of a method of [self._connection]: [None] has no method, and
  the call raises [AttributeError] on a statement without a target. *)
Definition connection_call `{Connection} (self : Statement) (c : call)
  : M (list call) Result :=
  match _connection self with
  | None => raiseM AttributeError
  | Some _ => transport c
  end.

End Records.

(** ** FilterableStatement *)

Module FilterableStatement.
Section Methods.
Context `{!Parser}.

(** The assignments of [__init__] before its call of [where]. *)
Definition fresh (target : option Target) (doc_based : bool) : FilterableStatement :=
  {| statement := {| _target := target; _doc_based := doc_based |};
     _binding_map := ∅; _bindings := []; _having := None;
     _grouping_str := ""; _grouping := None;
     _limit_offset := 0; _limit_row_count := 0;
     _projection_str := ""; _projection_expr := None;
     _sort_str := ""; _sort_expr := None;
     has_bindings := false; has_limit := false; has_group_by := false;
     has_having := false; has_projection := false; has_sort := false;
     has_where := false; _where := None; _where_expr := None |}.

Definition where_ (condition : string) : M FilterableStatement unit :=
  modifyM (set_has_where true) ;;
  modifyM (set_where (Some condition)) ;;
  self <- getM ;;
  positions <-
    try_except
      (match expr condition (negb (_doc_based (statement self))) with
       | None => raiseM ValueError
       | Some (e, positions) => modifyM (set_where_expr (Some e)) ;; retM positions
       end)
      (fun e =>
         match e with
         | ValueError => Some (raiseM (ProgrammingError "Invalid condition" []))
         | _ => None
         end) ;;
  modifyM (set_binding_map positions).

(** [__init__]: [if condition: self.where(condition)]. *)
Definition new (target : option Target) (doc_based : bool) (condition : option string)
  : outcome FilterableStatement :=
  construct
    (match condition with
     | None | Some EmptyString => retM tt
     | Some c => where_ c
     end)
    (fresh target doc_based).

Definition limit (row_count offset : Z) : M FilterableStatement unit :=
  modifyM (set_has_limit true) ;;
  modifyM (set_limit_row_count row_count) ;;
  modifyM (set_limit_offset offset).

Definition sort (sort_clauses : list param) : M FilterableStatement unit :=
  let sort_clauses := flexible_params sort_clauses in
  modifyM (set_has_sort true) ;;
  sort_str <- liftO (join_params "," sort_clauses) ;;
  modifyM (set_sort_str sort_str) ;;
  self <- getM ;;
  match parse_order_spec sort_str (negb (_doc_based (statement self))) with
  | None => raiseM ValueError
  | Some e => modifyM (set_sort_expr (Some e))
  end.

(** [res[key]] *)
Fixpoint getitem (key : string) (items : list (string * pyobj)) : outcome pyobj :=
  match items with
  | [] => Raise (KeyError key)
  | (k, v) :: rest => if String.eqb k key then Return v else getitem key rest
  end.

(** [_bind_single], calling back into [bind]. *)
Definition _bind_single (bind : list pyobj -> M FilterableStatement unit) (obj : pyobj)
  : M FilterableStatement unit :=
  match obj with
  | PDbDoc d => bind [PStr (DbDoc_str d)]
  | PStr s =>
      res <-
        match json_loads s with
        | Some (PDict res) => retM res
        | _ => raiseM (ProgrammingError "Invalid JSON string to bind" [])
        end ;;
      for_each (map fst res)
        (fun key => v <- liftO (getitem key res) ;; bind [PStr key; v])
  | _ => raiseM (ProgrammingError "Invalid JSON string or object to bind" [])
  end.

(** [bind], on the tuple of its arguments; [depth] is the number of nested calls the interpreter
  still allows, and [RecursionError] is raised when it is used up. *)
Fixpoint bind (depth : nat) (args : list pyobj) : M FilterableStatement unit :=
  match depth with
  | O => raiseM RecursionError
  | S depth' =>
      modifyM (set_has_bindings true) ;;
      let count := length args in
      if (count =? 1)%nat then
        match args with
        | obj :: _ => _bind_single (bind depth') obj
        | [] => raiseM IndexError
        end
      else if (2 <? count)%nat then
        raiseM (ProgrammingError "Invalid number of arguments to bind" [])
      else
        match args with
        | name :: value :: _ =>
            self <- getM ;;
            modifyM (set_bindings
                       (_bindings self ++
                        [{| binding_name := name; binding_value := value |}]))
        | _ => raiseM IndexError
        end
  end.

Definition _set_group_by (fields : list param) : M FilterableStatement unit :=
  let fields := flexible_params fields in
  modifyM (set_has_group_by true) ;;
  grouping_str <- liftO (join_params "," fields) ;;
  modifyM (set_grouping_str grouping_str) ;;
  self <- getM ;;
  match parse_expr_list grouping_str (negb (_doc_based (statement self))) with
  | None => raiseM ValueError
  | Some e => modifyM (set_grouping (Some e))
  end.

Definition _set_having (condition : string) : M FilterableStatement unit :=
  modifyM (set_has_having true) ;;
  self <- getM ;;
  match expr condition (negb (_doc_based (statement self))) with
  | None => raiseM ValueError
  | Some (e, _) => modifyM (set_having (Some e))
  end.

Definition _set_projection (fields : list param) : M FilterableStatement unit :=
  let fields := flexible_params fields in
  modifyM (set_has_projection true) ;;
  projection_str <- liftO (join_params "," fields) ;;
  modifyM (set_projection_str projection_str) ;;
  self <- getM ;;
  match parse_table_select_projection projection_str
          (negb (_doc_based (statement self))) with
  | None => raiseM ValueError
  | Some e => modifyM (set_projection_expr (Some e))
  end.

End Methods.
End FilterableStatement.

(** ** Read statements *)

Module ReadStatement.
Section Methods.
Context `{!Parser} `{!Connection}.

Definition set_filterable (v : FilterableStatement) (self : ReadStatement)
  : ReadStatement :=
  {| read_filterable := v;
     _lock_exclusive := _lock_exclusive self;
     _lock_shared := _lock_shared self |}.

Definition set_lock_exclusive (v : bool) (self : ReadStatement) : ReadStatement :=
  {| read_filterable := read_filterable self;
     _lock_exclusive := v;
     _lock_shared := _lock_shared self |}.

Definition set_lock_shared (v : bool) (self : ReadStatement) : ReadStatement :=
  {| read_filterable := read_filterable self;
     _lock_exclusive := _lock_exclusive self;
     _lock_shared := v |}.

(** A [FilterableStatement] method called on a read statement. *)
Definition super {A} (c : M FilterableStatement A) : M ReadStatement A :=
  inherited read_filterable set_filterable c.

Definition new (target : option Target) (doc_based : bool) (condition : option string)
  : outcome ReadStatement :=
  match FilterableStatement.new target doc_based condition with
  | Raise e => Raise e
  | Return base =>
      Return {| read_filterable := base;
                _lock_exclusive := false;
                _lock_shared := false |}
  end.

Definition is_lock_exclusive (self : ReadStatement) : bool := _lock_exclusive self.

Definition is_lock_shared (self : ReadStatement) : bool := _lock_shared self.

Definition lock_shared : M ReadStatement unit :=
  modifyM (set_lock_exclusive false) ;;
  modifyM (set_lock_shared true).

Definition lock_exclusive : M ReadStatement unit :=
  modifyM (set_lock_exclusive true) ;;
  modifyM (set_lock_shared false).

Definition group_by (fields : list param) : M ReadStatement unit :=
  super (FilterableStatement._set_group_by fields).

Definition having (condition : string) : M ReadStatement unit :=
  super (FilterableStatement._set_having condition).

Definition execute (self : ReadStatement) : M (list call) Result :=
  connection_call (statement (read_filterable self)) (call_find (StRead self)).

End Methods.
End ReadStatement.

Module FindStatement.
Section Methods.
Context `{!Parser}.

Definition new (collection : option Target) (condition : option string)
  : outcome ReadStatement :=
  ReadStatement.new collection true condition.

Definition fields (fields : list param) : M ReadStatement unit :=
  ReadStatement.super (FilterableStatement._set_projection fields).

End Methods.
End FindStatement.

Module SelectStatement.
Section Methods.
Context `{!Parser}.

Definition new (table : option Target) (fields : list param) : outcome ReadStatement :=
  match ReadStatement.new table false None with
  | Raise e => Raise e
  | Return self =>
      construct (ReadStatement.super (FilterableStatement._set_projection fields)) self
  end.

Definition order_by (clauses : list param) : M ReadStatement unit :=
  ReadStatement.super (FilterableStatement.sort clauses).

(** [self.schema.name] and [self.target.name]. *)
Definition target_names (self : Statement) : outcome (string * string) :=
  match _target self with
  | None => Raise AttributeError
  | Some t => Return (Schema_name (Target_schema t), Target_name t)
  end.

(** [str(self._having)]: the parsed expression, or [None]. *)
Definition having_str (h : option Expr) : string :=
  match h with
  | Some e => Expr_str e
  | None => "None"
  end.

Definition get_sql : M ReadStatement string :=
  this <- getM ;;
  let self := read_filterable this in
  where_ <-
    (if has_where self then
       match _where self with
       | None => raiseM AttributeError
       | Some condition => liftO (PyStr.format " WHERE {0}" [("0", condition)])
       end
     else retM "") ;;
  group_by <-
    (if has_group_by self then
       liftO (PyStr.format " GROUP BY {0}" [("0", _grouping_str self)])
     else retM "") ;;
  having <-
    (if has_having self then
       liftO (PyStr.format " HAVING {0}" [("0", having_str (_having self))])
     else retM "") ;;
  order_by <-
    (if has_sort self then
       liftO (PyStr.format " ORDER BY {0}" [("0", _sort_str self)])
     else retM "") ;;
  limit <-
    (if has_limit self then
       liftO (PyStr.format " LIMIT {0} OFFSET {1}"
                [("0", PyStr.of_Z (_limit_row_count self));
                 ("1", PyStr.of_Z (_limit_offset self))])
     else retM "") ;;
  names <- liftO (target_names (statement self)) ;;
  liftO (PyStr.format
           "SELECT {select} FROM {schema}.{table}{where}{group}{having}{order}{limit}"
           [("select", if String.eqb (_projection_str self) "" then "*"
                       else _projection_str self);
            ("schema", fst names); ("table", snd names); ("limit", limit);
            ("where", where_); ("group", group_by); ("having", having);
            ("order", order_by)]).

End Methods.
End SelectStatement.

(** ** Write statements *)

Module AddStatement.
Section Methods.
Context `{!Parser} `{!Connection}.

Definition new (collection : option Target) : AddStatement :=
  {| add_write := {| write_statement := {| _target := collection; _doc_based := true |};
                     _values := []; _upsert := false |};
     ids := [] |}.

Definition append_value (v : pyobj) (self : AddStatement) : AddStatement :=
  {| add_write := {| write_statement := write_statement (add_write self);
                     _values := _values (add_write self) ++ [v];
                     _upsert := _upsert (add_write self) |};
     ids := ids self |}.

(** [DbDoc(val)] raises [ValueError] for what is not a mapping or a JSON text. *)
Definition coerce (val : pyobj) : M AddStatement pyobj :=
  match val with
  | PDbDoc _ => retM val
  | _ =>
      match DbDoc_new val with
      | Some d => retM (PDbDoc d)
      | None => raiseM ValueError
      end
  end.

(** [add], on the items of [flexible_params(values)]. *)
Definition add (values : list pyobj) : M AddStatement unit :=
  let values :=
    match values with
    | [PList items] => items
    | _ => values
    end in
  for_each values (fun val => doc <- coerce val ;; modifyM (append_value doc)).

Definition execute (self : AddStatement) : M (list call) Result :=
  if (length (_values (add_write self)) =? 0)%nat then retM Result_new
  else connection_call (write_statement (add_write self)) (call_send_insert (StAdd self)).

End Methods.
End AddStatement.

Module InsertStatement.
Section Methods.
Context `{!Parser} `{!Connection}.

Definition new (table : option Target) (fields : list param) : InsertStatement :=
  {| insert_write := {| write_statement := {| _target := table; _doc_based := false |};
                        _values := []; _upsert := false |};
     _fields := flexible_params fields |}.

(** [self._values.append(row)]. *)
Definition append_row (row : pyobj) (self : InsertStatement) : InsertStatement :=
  {| insert_write := {| write_statement := write_statement (insert_write self);
                        _values := _values (insert_write self) ++ [row];
                        _upsert := _upsert (insert_write self) |};
     _fields := _fields self |}.

(** [values]: the arguments make one row, or the one list given is the
  row. *)
Definition values (values : list pyobj) : M InsertStatement unit :=
  let row :=
    match values with
    | [PList items] => items
    | _ => values
    end in
  modifyM (append_row (PList row)).

Definition execute (self : InsertStatement) : M (list call) Result :=
  connection_call (write_statement (insert_write self)) (call_send_insert (StInsert self)).

End Methods.
End InsertStatement.

(** ** Update operations *)

Module UpdateSpec.
Section Methods.
Context `{!Parser}.

(** [_table_set]: the source is read as a column of the table. *)
Definition _table_set (source : string) (value : option pyobj) : outcome UpdateSpec :=
  match parse_table_update_field source with
  | None => Raise ValueError
  | Some field => Return (Build_UpdateSpec SET field value)
  end.

(** [__init__]: for an update of a document, one leading [$] is taken off
  the source, and what is left is read as a document path. [value] is
  [None] where the caller gives none. *)
Definition new (update_type : UpdateType) (source : string) (value : option pyobj)
  : outcome UpdateSpec :=
  match update_type with
  | SET => _table_set source value
  | _ =>
      let source :=
        match source with
        | String "$" rest => rest
        | _ => source
        end in
      match document_field source with
      | None => Raise ValueError
      | Some identifier => Return (Build_UpdateSpec update_type identifier value)
      end
  end.

End Methods.
End UpdateSpec.

Module ModifyStatement.
Section Methods.
Context `{!Parser} `{!Connection}.

Definition new (collection : option Target) (condition : option string)
  : outcome ModifyStatement :=
  match FilterableStatement.new collection true condition with
  | Raise e => Raise e
  | Return base => Return {| modify_filterable := base; modify_update_ops := [] |}
  end.

Definition super {A} (c : M FilterableStatement A) : M ModifyStatement A :=
  inherited modify_filterable
    (fun v self => {| modify_filterable := v;
                      modify_update_ops := modify_update_ops self |}) c.

Definition execute (self : ModifyStatement) : M (list call) Result :=
  if negb (has_where (modify_filterable self)) then
    raiseM (ProgrammingError "No condition was found for modify" [])
  else connection_call (statement (modify_filterable self)) (call_update (StModify self)).

(** [self._update_ops.extend(specs)]. *)
Definition extend_ops (specs : list UpdateSpec) (self : ModifyStatement)
  : ModifyStatement :=
  {| modify_filterable := modify_filterable self;
     modify_update_ops := modify_update_ops self ++ specs |}.

(** [self._update_ops.append(UpdateSpec(update_type, source, value))]: the
  operation is made before the list is touched. *)
Definition append_op (update_type : UpdateType) (source : string) (value : option pyobj)
  : M ModifyStatement unit :=
  spec <- liftO (UpdateSpec.new update_type source value) ;;
  modifyM (extend_ops [spec]).

Definition set (doc_path : string) (value : pyobj) : M ModifyStatement unit :=
  append_op ITEM_SET doc_path (Some value).

Definition change (doc_path : string) (value : pyobj) : M ModifyStatement unit :=
  append_op ITEM_REPLACE doc_path (Some value).

(** The list [unset] builds before it extends [_update_ops]. *)
Fixpoint removals (doc_paths : list string) : outcome (list UpdateSpec) :=
  match doc_paths with
  | [] => Return []
  | item :: rest =>
      match UpdateSpec.new ITEM_REMOVE item None with
      | Raise e => Raise e
      | Return spec =>
          match removals rest with
          | Raise e => Raise e
          | Return specs => Return (spec :: specs)
          end
      end
  end.

(** [unset], on the paths that [flexible_params] yields: texts, given one
  by one or in one list. *)
Definition unset (doc_paths : list string) : M ModifyStatement unit :=
  specs <- liftO (removals doc_paths) ;;
  modifyM (extend_ops specs).

Definition array_insert (field : string) (value : pyobj) : M ModifyStatement unit :=
  append_op ARRAY_INSERT field (Some value).

Definition array_append (doc_path : string) (value : pyobj) : M ModifyStatement unit :=
  append_op ARRAY_APPEND doc_path (Some value).

(** [patch]: [None] stands for the empty text; a mapping, a document or a
  text is patched in under the empty path. *)
Definition patch (doc : pyobj) : M ModifyStatement unit :=
  let doc :=
    match doc with
    | PNone => PStr ""
    | _ => doc
    end in
  match doc with
  | PDict _ | PDbDoc _ | PStr _ => append_op MERGE_PATCH "" (Some doc)
  | _ =>
      raiseM (ProgrammingError
                "Invalid data for update operation on document collection table" [])
  end.

End Methods.
End ModifyStatement.

Module UpdateStatement.
Section Methods.
Context `{!Parser} `{!Connection}.

Definition new (table : option Target) : outcome UpdateStatement :=
  match FilterableStatement.new table false None with
  | Raise e => Raise e
  | Return base => Return {| update_filterable := base; update_update_ops := [] |}
  end.

Definition super {A} (c : M FilterableStatement A) : M UpdateStatement A :=
  inherited update_filterable
    (fun v self => {| update_filterable := v;
                      update_update_ops := update_update_ops self |}) c.

Definition execute (self : UpdateStatement) : M (list call) Result :=
  if negb (has_where (update_filterable self)) then
    raiseM (ProgrammingError "No condition was found for update" [])
  else connection_call (statement (update_filterable self)) (call_update (StUpdate self)).

Definition set (field : string) (value : pyobj) : M UpdateStatement unit :=
  spec <- liftO (UpdateSpec.new SET field (Some value)) ;;
  modifyM (fun self =>
             {| update_filterable := update_filterable self;
                update_update_ops := update_update_ops self ++ [spec] |}).

End Methods.
End UpdateStatement.

Module RemoveStatement.
Section Methods.
Context `{!Parser} `{!Connection}.

Definition new (collection : option Target) : outcome RemoveStatement :=
  match FilterableStatement.new collection true None with
  | Raise e => Raise e
  | Return base => Return {| remove_filterable := base |}
  end.

Definition super {A} (c : M FilterableStatement A) : M RemoveStatement A :=
  inherited remove_filterable (fun v _ => {| remove_filterable := v |}) c.

Definition execute (self : RemoveStatement) : M (list call) Result :=
  if negb (has_where (remove_filterable self)) then
    raiseM (ProgrammingError "No condition was found for remove" [])
  else connection_call (statement (remove_filterable self)) (call_delete (StRemove self)).

End Methods.
End RemoveStatement.

Module DeleteStatement.
Section Methods.
Context `{!Parser} `{!Connection}.

Definition new (table : option Target) (condition : option string)
  : outcome DeleteStatement :=
  match FilterableStatement.new table false condition with
  | Raise e => Raise e
  | Return base => Return {| delete_filterable := base |}
  end.

Definition super {A} (c : M FilterableStatement A) : M DeleteStatement A :=
  inherited delete_filterable (fun v _ => {| delete_filterable := v |}) c.

Definition execute (self : DeleteStatement) : M (list call) Result :=
  if negb (has_where (delete_filterable self)) then
    raiseM (ProgrammingError "No condition was found for delete" [])
  else connection_call (statement (delete_filterable self)) (call_delete (StDelete self)).

End Methods.
End DeleteStatement.

(** ** The object store *)

(** A mutable object: a dictionary with string keys, or a list. *)
Inductive obj :=
| ODict (m : gmap string val)
| OList (items : list val).

Module Py.

(** The store: the object at address [l] is [h !! l]; a new object takes
  the next address. *)
Abbreviation store := (list obj).

Definition alloc (o : obj) : M store loc :=
  fun h => (Return (length h), h ++ [o]).

Definition load (l : loc) : M store obj :=
  fun h =>
    match h !! l with
    | Some o => (Return o, h)
    | None => (Raise StoreError, h)
    end.

Definition write (l : loc) (o : obj) : M store unit :=
  fun h => (Return tt, <[l := o]> h).

(** [bool(v)]. *)
Definition truthy (v : val) : M store bool :=
  match v with
  | VNone => retM false
  | VBool b => retM b
  | VInt n => retM (negb (n =? 0)%Z)
  | VStr s => retM (negb (String.eqb s ""))
  | VRef l =>
      o <- load l ;;
      match o with
      | ODict m => retM (negb (bool_decide (m = ∅)))
      | OList items => retM (negb (bool_decide (items = [])))
      end
  end.

(** [isinstance(v, list)]. *)
Definition is_list (v : val) : M store bool :=
  match v with
  | VRef l =>
      o <- load l ;;
      match o with
      | OList _ => retM true
      | ODict _ => retM false
      end
  | _ => retM false
  end.

(** [d.pop(key)] and [d.pop(key, default)]: a scalar has no [pop], and a
  list does not take these arguments. *)
Definition pop (d : val) (key : string) (default : option val) : M store val :=
  match d with
  | VRef l =>
      o <- load l ;;
      match o with
      | ODict m =>
          match m !! key with
          | Some v => write l (ODict (delete key m)) ;; retM v
          | None =>
              match default with
              | Some v => retM v
              | None => raiseM (KeyError key)
              end
          end
      | OList _ => raiseM TypeError
      end
  | _ => raiseM AttributeError
  end.

(** [key in d]. *)
Definition contains (key : string) (d : val) : M store bool :=
  match d with
  | VRef l =>
      o <- load l ;;
      match o with
      | ODict m => retM (bool_decide (is_Some (m !! key)))
      | OList items => retM (bool_decide (VStr key ∈ items))
      end
  | VStr s => retM (PyStr.contains key s)
  | _ => raiseM TypeError
  end.

(** [v.upper()]. *)
Definition upper `{!CaseMapping} {S} (v : val) : M S string :=
  match v with
  | VStr s => retM (PyStr.upper s)
  | _ => raiseM AttributeError
  end.

(** [v == s] for a string [s]. *)
Definition eq_str (v : val) (s : string) : bool :=
  match v with
  | VStr s' => String.eqb s' s
  | _ => false
  end.

(** What [str.format] receives for [v]: the items of a dictionary, or the
  value itself. *)
Definition fmt (v : val) : M store fmt_arg :=
  match v with
  | VRef l =>
      o <- load l ;;
      match o with
      | ODict m => retM (FDict m)
      | OList _ => retM (FVal v)
      end
  | _ => retM (FVal v)
  end.

Definition memo_set (x y : loc) : M (store * gmap loc loc) unit :=
  modifyM (fun s => (fst s, <[x := y]> (snd s))).

Definition in_store {A} (c : M store A) : M (store * gmap loc loc) A :=
  inherited fst (fun h s => (h, snd s)) c.

(** [y.append(a)] on the list at [y]. *)
Definition append (y : loc) (a : val) : M store unit :=
  o <- load y ;;
  match o with
  | OList items => write y (OList (items ++ [a]))
  | ODict _ => raiseM AttributeError
  end.

(** [y[key] = v] on the dictionary at [y]. *)
Definition setitem (y : loc) (key : string) (v : val) : M store unit :=
  o <- load y ;;
  match o with
  | ODict m => write y (ODict (<[key := v]> m))
  | OList _ => raiseM TypeError
  end.

(** [copy.deepcopy(x, memo)] on scalars, lists and dictionaries: a scalar
  is returned as it is; a list or a dictionary already copied is answered
  from [memo]; otherwise the new, empty object is entered in [memo] and then
  filled with the copies of the items. The state is the store with [memo];
  [depth] is the number of nested calls the interpreter still allows. *)
Fixpoint deepcopy (depth : nat) (x : val) : M (store * gmap loc loc) val :=
  match depth with
  | O => raiseM RecursionError
  | S depth' =>
      match x with
      | VRef l =>
          s <- getM ;;
          match snd s !! l with
          | Some y => retM (VRef y)
          | None =>
              o <- in_store (load l) ;;
              match o with
              | OList items =>
                  y <- in_store (alloc (OList [])) ;;
                  memo_set l y ;;
                  for_each items
                    (fun a => a' <- deepcopy depth' a ;; in_store (append y a')) ;;
                  retM (VRef y)
              | ODict m =>
                  y <- in_store (alloc (ODict ∅)) ;;
                  memo_set l y ;;
                  for_each (map_to_list m)
                    (fun kv =>
                       v' <- deepcopy depth' (snd kv) ;;
                       in_store (setitem y (fst kv) v')) ;;
                  retM (VRef y)
              end
          end
      | _ => retM x
      end
  end.

(** [copy.deepcopy(x)], with a memo of its own. *)
Definition deepcopy_new (depth : nat) (x : val) : M store val :=
  fun h => let '(r, s) := deepcopy depth x (h, ∅) in (r, fst s).

End Py.

(** ** CreateCollectionIndexStatement *)

(** [_index_desc] is the statement's copy of the index description and
  [_fields_desc] what was popped from it under [fields]. *)
Record CreateCollectionIndexStatement := {
  index_statement : Statement;
  _index_desc : val;
  _index_name : option string;
  _fields_desc : val
}.

Module CreateCollectionIndexStatement.

(** A string holding one double quote. *)
Definition dq : string := String Quoting.dquote "".

Definition ERR_INVALID_INDEX_NAME : string :=
  "The given index name " +:+ dq +:+ "{}" +:+ dq +:+ " is not valid".

Definition ERR_FIELDS_NOT_FOUND : string :=
  "Required member " +:+ dq +:+ "fields" +:+ dq +:+
  " not found in the given index description: {}".

Definition ERR_FIELDS_NOT_LIST : string :=
  "Required member " +:+ dq +:+ "fields" +:+ dq +:+ " must contain a list.".

Definition ERR_UNIQUE : string := "Unique indexes are not supported.".

Definition ERR_UNIDENTIFIED : string := "Unidentified fields: {}".

Definition ERR_REQUIRED_SPATIAL : string :=
  "Field member " +:+ dq +:+ "required" +:+ dq +:+ " must be set to " +:+ dq +:+
  "True" +:+ dq +:+ " when index type is set to " +:+ dq +:+ "SPATIAL" +:+ dq.

Definition ERR_GEOJSON_INDEX : string :=
  "Index " +:+ dq +:+ "type" +:+ dq +:+ " must be set to " +:+ dq +:+ "SPATIAL" +:+ dq +:+
  " when field type is set to " +:+ dq +:+ "GEOJSON" +:+ dq.

Definition ERR_COLLATION : string :=
  "The " +:+ dq +:+ "collation" +:+ dq +:+
  " member can only be used when field  type is set to " +:+ dq +:+ "GEOJSON" +:+ dq.

Definition ERR_OPTIONS : string :=
  "The " +:+ dq +:+ "options" +:+ dq +:+
  " member can only be used when index type is set to " +:+ dq +:+ "GEOJSON" +:+ dq.

Definition ERR_SRID : string :=
  "The " +:+ dq +:+ "srid" +:+ dq +:+
  " member can only be used when index type is set to " +:+ dq +:+ "GEOJSON" +:+ dq.

Definition ERR_INNER_MEMBER : string :=
  "Required inner member {} not found in constraint: {}".

Definition ERR_UNIDENTIFIED_INNER : string := "Unidentified inner fields:{}".

Section Methods.
Context `{!Parser} `{!Connection} `{case_mapping : !CaseMapping}.

(** The store with the connection's log. *)
Definition world : Type := Py.store * list call.

Definition in_store {A} (c : M Py.store A) : M world A :=
  inherited fst (fun h w => (h, snd w)) c.

Definition on_connection {A} (c : M (list call) A) : M world A :=
  inherited snd (fun log w => (fst w, log)) c.

(** [__init__]; [depth] bounds the nesting [copy.deepcopy] may reach. *)
Definition new (depth : nat) (collection : option Target) (index_name : option string)
  (index_desc : val) : M Py.store CreateCollectionIndexStatement :=
  copy <- Py.deepcopy_new depth index_desc ;;
  empty <- Py.alloc (OList []) ;;
  fields <- Py.pop copy "fields" (Some (VRef empty)) ;;
  retM {| index_statement := {| _target := collection; _doc_based := true |};
          _index_desc := copy;
          _index_name := index_name;
          _fields_desc := fields |}.

Definition invalid_index_name (name : option string) : exn :=
  ProgrammingError ERR_INVALID_INDEX_NAME
    [match name with
     | Some n => FStr n
     | None => FVal VNone
     end].

(** The index name must parse to an identifier; the [ValueError] of the
  parser is turned into the same [ProgrammingError]. *)
Definition check_index_name {S} (index_name : option string) : M S unit :=
  match index_name with
  | None => raiseM (invalid_index_name None)
  | Some name =>
      match expr name false with
      | None => raiseM (invalid_index_name index_name)
      | Some (parsed_ident, _) =>
          if Expr_is_ident parsed_ident then retM tt
          else raiseM (invalid_index_name index_name)
      end
  end.

(** [raise ProgrammingError(template.format(v))]. *)
Definition raise_with {A} (template : string) (v : val) : M Py.store A :=
  d <- Py.fmt v ;;
  raiseM (ProgrammingError template [d]).

(** The items of [for field_desc in fields]. *)
Definition iter (fields : val) : M Py.store (list val) :=
  match fields with
  | VRef l =>
      o <- Py.load l ;;
      match o with
      | OList items => retM items
      | ODict m => retM (map (fun kv => VStr (fst kv)) (map_to_list m))
      end
  | _ => raiseM TypeError
  end.

(** One turn of the loop over the field entries: the constraint built for
  [field_desc]. A [KeyError] is caught around the loop and re-raised at
  once, so it is caught here, where [field_desc] is at hand. *)
Definition constraint_of (index_type : val) (field_desc : val)
  : M Py.store (gmap string val) :=
  try_except
    (member <- Py.pop field_desc "field" None ;;
     type <- Py.pop field_desc "type" None ;;
     required <- Py.pop field_desc "required" (Some (VBool false)) ;;
     let constraint : gmap string val :=
       <["required" := required]> (<["type" := type]> (<["member" := member]> ∅)) in
     index_upper <- Py.upper index_type ;;
     not_required <-
       (if String.eqb index_upper "SPATIAL" then
          r <- Py.truthy required ;; retM (negb r)
        else retM false) ;;
     (if not_required then raiseM (ProgrammingError ERR_REQUIRED_SPATIAL [])
      else retM tt) ;;
     index_upper <- Py.upper index_type ;;
     (if String.eqb index_upper "INDEX" && Py.eq_str type "GEOJSON" then
        raiseM (ProgrammingError ERR_GEOJSON_INDEX [])
      else retM tt) ;;
     has_collation <- Py.contains "collation" field_desc ;;
     constraint <-
       (if has_collation then
          type_upper <- Py.upper type ;;
          if negb (PyStr.startswith type_upper "TEXT") then
            raiseM (ProgrammingError ERR_COLLATION [])
          else
            collation <- Py.pop field_desc "collation" None ;;
            retM (<["collation" := collation]> constraint)
        else retM constraint) ;;
     has_options <- Py.contains "options" field_desc ;;
     constraint <-
       (if has_options then
          type_upper <- Py.upper type ;;
          if negb (String.eqb type_upper "GEOJSON") then
            raiseM (ProgrammingError ERR_OPTIONS [])
          else
            options <- Py.pop field_desc "options" None ;;
            retM (<["options" := options]> constraint)
        else retM constraint) ;;
     has_srid <- Py.contains "srid" field_desc ;;
     (if has_srid then
        type_upper <- Py.upper type ;;
        if negb (String.eqb type_upper "GEOJSON") then
          raiseM (ProgrammingError ERR_SRID [])
        else
          srid <- Py.pop field_desc "srid" None ;;
          retM (<["srid" := srid]> constraint)
      else retM constraint))
    (fun e =>
       match e with
       | KeyError key =>
           Some (d <- Py.fmt field_desc ;;
                 raiseM (ProgrammingError ERR_INNER_MEMBER [FKeyError key; d]))
       | _ => None
       end).

(** The first loop: [args["constraint"]], in the order of the entries. *)
Fixpoint constraints_of (index_type : val) (fields : list val)
  : M Py.store (list (gmap string val)) :=
  match fields with
  | [] => retM []
  | field_desc :: rest =>
      constraint <- constraint_of index_type field_desc ;;
      constraints <- constraints_of index_type rest ;;
      retM (constraint :: constraints)
  end.

(** The second loop: no entry may have a key left. *)
Definition no_inner_left (field_desc : val) : M Py.store unit :=
  left <- Py.truthy field_desc ;;
  if left then raise_with ERR_UNIDENTIFIED_INNER field_desc else retM tt.

(** [self._target.name] and [self._target.schema.name]. *)
Definition target_names {S} (self : Statement) : M S (string * string) :=
  match _target self with
  | None => raiseM AttributeError
  | Some t => retM (Target_name t, Schema_name (Target_schema t))
  end.

(** The checks of [execute] and the [args] dictionary they lead to; they
  use the store only. *)
Definition build_args (self : CreateCollectionIndexStatement) : M Py.store IndexArgs :=
  check_index_name (_index_name self) ;;
  has_fields <- Py.truthy (_fields_desc self) ;;
  (if negb has_fields then raise_with ERR_FIELDS_NOT_FOUND (_index_desc self)
   else retM tt) ;;
  fields_is_list <- Py.is_list (_fields_desc self) ;;
  (if negb fields_is_list then raiseM (ProgrammingError ERR_FIELDS_NOT_LIST [])
   else retM tt) ;;
  names <- target_names (index_statement self) ;;
  has_type <- Py.contains "type" (_index_desc self) ;;
  type <-
    (if has_type then Py.pop (_index_desc self) "type" None
     else retM (VStr "INDEX")) ;;
  unique <- Py.pop (_index_desc self) "unique" (Some (VBool false)) ;;
  is_unique <- Py.truthy unique ;;
  (if is_unique then raiseM (NotSupportedError ERR_UNIQUE) else retM tt) ;;
  unidentified <- Py.truthy (_index_desc self) ;;
  (if unidentified then raise_with ERR_UNIDENTIFIED (_index_desc self)
   else retM tt) ;;
  fields <- iter (_fields_desc self) ;;
  constraints <- constraints_of type fields ;;
  for_each fields no_inner_left ;;
  retM {| args_name := default "" (_index_name self);
          args_collection := fst names;
          args_schema := snd names;
          args_type := type;
          args_unique := unique;
          args_constraint := constraints |}.

(** [execute]: the checks, then the one call on the connection. *)
Definition execute (self : CreateCollectionIndexStatement) : M world Result :=
  args <- in_store (build_args self) ;;
  on_connection
    (connection_call (index_statement self)
       (call_execute_nonquery "mysqlx" "create_collection_index" true args)).

(** [execute] called [n] times on the same statement, each exception
  caught by the caller. *)
Fixpoint execute_times (n : nat) (self : CreateCollectionIndexStatement) (w : world)
  : world :=
  match n with
  | O => w
  | S n' => execute_times n' self (snd (execute self w))
  end.

End Methods.
End CreateCollectionIndexStatement.

(** ** Calls in sequence, and collaborators for closed examples *)

(** A call of one of the two lock mutators. *)
Inductive lock_call := LockShared | LockExclusive.

Definition lock `{!Parser} (c : lock_call) : M ReadStatement unit :=
  match c with
  | LockShared => ReadStatement.lock_shared
  | LockExclusive => ReadStatement.lock_exclusive
  end.

(** The case mapping for examples, whose texts are ASCII. *)
Definition ascii_case : CaseMapping := {| str_upper := PyStr.ascii_upper |}.

(** A parser for examples: the parsed form of a text is the text, a
  condition with an opening parenthesis and no closing one is refused, and
  the only JSON texts decoded are two small objects. *)
Definition toy_parser : Parser :=
  {| Expr := string;
     expr := fun s _ =>
       if PyStr.contains "(" s && negb (PyStr.contains ")" s) then None
       else Some (s, ∅);
     parse_expr_list := fun s _ => Some [s];
     parse_order_spec := fun s _ => Some [s];
     parse_table_select_projection := fun s _ => Some [s];
     document_field := fun s => Some s;
     parse_table_update_field := fun s => Some s;
     Expr_str := fun e => e;
     Expr_is_ident := fun e => negb (PyStr.contains " " e);
     json_loads := fun s =>
       if String.eqb s "{}" then Some (PDict [])
       else if String.eqb s "{a: 1, b: 2}" then Some (PDict [("a", PInt 1); ("b", PInt 2)])
       else if String.eqb s "[1]" then Some (PList [PInt 1])
       else None;
     DbDoc_str := fun items =>
       match items with
       | [] => "{}"
       | _ => "{a: 1, b: 2}"
       end;
     DbDoc_new := fun v =>
       match v with
       | PDict items => Some items
       | _ => None
       end |}.

(** A connection for examples: it answers every call with the number of
  calls made so far. *)
Definition toy_connection : @Connection toy_parser :=
  {| Result := nat;
     Result_new := 0;
     respond := fun log _ => Return (S (length log)) |}.

(** The statement of the SQL generation example: a select on table [t] of
  schema [s], to which [where], [order_by] and [limit] are applied before
  [get_sql]. *)
Definition select_example `{!Parser} : outcome string :=
  match SelectStatement.new
          (Some {| Target_name := "t"; Target_schema := {| Schema_name := "s" |} |}) []
  with
  | Raise e => Raise e
  | Return self =>
      fst ((ReadStatement.super (FilterableStatement.where_ "a>1") ;;
            SelectStatement.order_by [ArgStr "a"] ;;
            ReadStatement.super (FilterableStatement.limit 10 5) ;;
            SelectStatement.get_sql) self)
  end.

(** [having(condition)] on a fresh select on table [t] of schema [s]: what
  the call answers, and what [get_sql] answers on the statement the call
  leaves. *)
Definition having_example `{!Parser} (condition : string)
  : outcome unit * outcome string :=
  match SelectStatement.new
          (Some {| Target_name := "t"; Target_schema := {| Schema_name := "s" |} |}) []
  with
  | Raise e => (Raise e, Raise e)
  | Return self =>
      let r := ReadStatement.having condition self in
      (fst r, fst (SelectStatement.get_sql (snd r)))
  end.

(** An optional clause of the generated SQL: the keyword and the text when
  the flag is set, nothing otherwise. *)
Definition clause (present : bool) (keyword text : string) : string :=
  if present then " " +:+ keyword +:+ " " +:+ text else "".

(** The entry [bind] appends for a name and a value. *)
Definition bound (name value : pyobj) : binding :=
  {| binding_name := name; binding_value := value |}.

(** ** Ownership of the objects in the store *)

(** [c], run in a state where [I] holds, keeps [I], and what it returns
  satisfies [Q]. *)
Definition keeps {S A} (I : S -> Prop) (c : M S A) (Q : A -> Prop) : Prop :=
  forall s, I s -> I (snd (c s)) /\ forall a, fst (c s) = Return a -> Q a.

(** A value that does not refer to an object below address [n]. *)
Definition private (n : nat) (v : val) : Prop :=
  match v with
  | VRef l => n <= l
  | _ => True
  end.

Definition obj_private (n : nat) (o : obj) : Prop :=
  match o with
  | ODict m => map_Forall (fun _ v => private n v) m
  | OList items => Forall (private n) items
  end.

(** The store [h] has grown from [h0]: the objects of [h0] are as they
  were, and the objects added since refer to added objects only. *)
Definition grown_from (h0 h : Py.store) : Prop :=
  (forall l, l < length h0 -> h !! l = h0 !! l)
  /\ length h0 <= length h
  /\ forall l o, length h0 <= l -> h !! l = Some o -> obj_private (length h0) o.

(** The store with the memo of [deepcopy]: the copies the memo knows are
  objects added to [h0]. *)
Definition copying (h0 : Py.store) (s : Py.store * gmap loc loc) : Prop :=
  grown_from h0 (fst s) /\ map_Forall (fun _ y => length h0 <= y) (snd s).

(** The statement refers to objects added to [h0] only. *)
Definition owned (h0 : Py.store) (self : CreateCollectionIndexStatement) : Prop :=
  private (length h0) (_index_desc self) /\ private (length h0) (_fields_desc self).

(** A caller's store for examples: an index description at address 2, its
  list of fields at address 1 and the one field entry at address 0. *)
Definition caller_store : Py.store :=
  [ ODict (<["field" := VStr "$.a"]> (<["type" := VStr "TEXT(10)"]> ∅));
    OList [VRef 0];
    ODict (<["fields" := VRef 1]> (<["type" := VStr "INDEX"]> ∅)) ].

Definition a_collection : Target :=
  {| Target_name := "c"; Target_schema := {| Schema_name := "s" |} |}.

(** ** The index description as [execute] finds it *)

(** [c] raises when run in state [s]. *)
Definition raises {S A} (c : M S A) (s : S) : Prop := exists e, fst (c s) = Raise e.

(** [bool(v)] is false and [v] is not an object of the store. *)
Definition falsy (v : val) : bool :=
  match v with
  | VNone => true
  | VBool b => negb b
  | VInt n => (n =? 0)%Z
  | VStr s => String.eqb s ""
  | VRef _ => false
  end.

(** A field entry whose [required] member is absent or false. *)
Definition not_required (fm : gmap string val) : Prop :=
  match fm !! "required" with
  | None => True
  | Some v => falsy v = true
  end.

(** A field entry whose [type] does not start with TEXT, in upper case. *)
Definition not_text `{!CaseMapping} (fm : gmap string val) : Prop :=
  match fm !! "type" with
  | Some (VStr s) => PyStr.startswith (PyStr.upper s) "TEXT" = false
  | _ => True
  end.

(** What [execute] finds in the store [h]: the items [top] of the
  statement's description, without its [fields], and the field entries
  [fields]. *)
Definition describes (h : Py.store) (self : CreateCollectionIndexStatement)
  (top : gmap string val) (fields : list val) : Prop :=
  exists d lf,
    _index_desc self = VRef d /\ h !! d = Some (ODict top)
    /\ _fields_desc self = VRef lf /\ h !! lf = Some (OList fields).

(** [fm] holds the items of one of the field entries. *)
Definition has_entry (h : Py.store) (fields : list val) (fm : gmap string val) : Prop :=
  exists l, VRef l ∈ fields /\ h !! l = Some (ODict fm).

(** The type of the index: the [type] member, or INDEX. *)
Definition index_type (top : gmap string val) : val :=
  default (VStr "INDEX") (top !! "type").

(** [v] is a string that reads [name] in upper case. *)
Definition type_named `{!CaseMapping} (v : val) (name : string) : Prop :=
  exists s, v = VStr s /\ PyStr.upper s = name.

(** [execute] raises and makes no call on the connection. *)
Definition rejected `{!Parser} `{!Connection} `{!CaseMapping}
  (self : CreateCollectionIndexStatement) (h : Py.store) (log : list call) : Prop :=
  exists e h', CreateCollectionIndexStatement.execute self (h, log) = (Raise e, (h', log)).

(** [c], run in [s], ends in an outcome and a state that satisfy [post]. *)
Definition wp {S A} (c : M S A) (s : S) (post : outcome A -> S -> Prop) : Prop :=
  post (fst (c s)) (snd (c s)).

(** The errors raised for malformed input. *)
Definition validation_error (e : exn) : Prop :=
  exists template args, e = ProgrammingError template args.

Definition scalar (v : val) : Prop :=
  match v with
  | VRef _ => False
  | _ => True
  end.

(** An entry whose [type], when it has one, is a text and whose
  [required], when it has one, is a scalar. *)
Definition typed_entry (fm : gmap string val) : Prop :=
  match fm !! "type" with
  | Some (VStr _) | None => True
  | Some _ => False
  end
  /\ match fm !! "required" with
     | Some v => scalar v
     | None => True
     end.

Definition typed_entries (h : Py.store) (fields : list val) : Prop :=
  Forall (fun v => exists l fm, v = VRef l /\ h !! l = Some (ODict fm) /\ typed_entry fm)
         fields.

(** The index name is a text the parser reads as an identifier. *)
Definition valid_name `{!Parser} (self : CreateCollectionIndexStatement) : Prop :=
  exists name parsed placeholders,
    _index_name self = Some name
    /\ expr name false = Some (parsed, placeholders)
    /\ Expr_is_ident parsed = true.

(** What [execute] reads under [unique]. *)
Definition unique_of (top : gmap string val) : val :=
  default (VBool false) (top !! "unique").

(** The keys of the description left after [type] and [unique]. *)
Definition unconsumed (top : gmap string val) : gmap string val :=
  delete "unique" (delete "type" top).

(** An entry of a spatial index: a member path, the type GEOJSON in any
  case of letters, [required] set to [True], and no key other than these
  and [options] and [srid]. *)
Definition geojson_entry `{!CaseMapping} (fm : gmap string val) : Prop :=
  is_Some (fm !! "field")
  /\ (exists t, fm !! "type" = Some (VStr t) /\ PyStr.upper t = "GEOJSON")
  /\ fm !! "required" = Some (VBool true)
  /\ forall key, is_Some (fm !! key) ->
                 key ∈ ["field"; "type"; "required"; "options"; "srid"].

(** [c] with the member [key] of the entry, when the entry has one. *)
Definition with_member (key : string) (fm c : gmap string val) : gmap string val :=
  match fm !! key with
  | Some v => <[key := v]> c
  | None => c
  end.

(** The constraint the loop builds for an entry it accepts. *)
Definition constraint_for (fm : gmap string val) : gmap string val :=
  with_member "srid" fm
    (with_member "options" fm
       (with_member "collation" fm
          (<["required" := default (VBool false) (fm !! "required")]>
             (<["type" := default VNone (fm !! "type")]>
                (<["member" := default VNone (fm !! "field")]> ∅))))).

(** The value [v] of the list of entries is the entry [fm] in [h]. *)
Definition entry_at (h : Py.store) (v : val) (fm : gmap string val) : Prop :=
  exists l, v = VRef l /\ h !! l = Some (ODict fm).

Definition has_target (self : CreateCollectionIndexStatement) : Prop :=
  is_Some (_target (index_statement self)).

(** [unique] is absent from the description, or false. *)
Definition unique_unset (top : gmap string val) : Prop := falsy (unique_of top) = true.

(** The store [h] has shrunk from [h0]: the lists are as they were, and a
  dictionary has lost keys at most. *)
Definition shrunk (h0 h : Py.store) : Prop :=
  forall l : loc,
    match h0 !! l with
    | Some (OList items) => h !! l = Some (OList items)
    | Some (ODict m) => exists m', h !! l = Some (ODict m') /\ m' ⊆ m
    | None => True
    end.

(** What an [execute] that reached the connection leaves of the statement:
  the description and the first of its entries are empty. *)
Definition consumed `{!Parser} (self : CreateCollectionIndexStatement) (h : Py.store)
  : Prop :=
  exists l rest,
    describes h self ∅ (VRef l :: rest) /\ h !! l = Some (ODict ∅)
    /\ valid_name self /\ has_target self.

(** [execute] raises an exception of [E] before it calls the connection. *)
Definition rejected_as `{!Parser} `{!Connection} `{!CaseMapping} (E : exn -> Prop)
  (self : CreateCollectionIndexStatement) (h : Py.store) (log : list call) : Prop :=
  exists e h',
    CreateCollectionIndexStatement.execute self (h, log) = (Raise e, (h', log)) /\ E e.

(** The value [v] of the list of entries is an entry of a spatial index. *)
Definition accepted_entry `{!CaseMapping} (h : Py.store) (v : val) (fm : gmap string val)
  : Prop :=
  entry_at h v fm /\ geojson_entry fm.

(** The call [execute] makes for [args]. *)
Definition create_index_call `{!Parser} (args : IndexArgs) : call :=
  call_execute_nonquery "mysqlx" "create_collection_index" true args.

(** Index descriptions for examples, as a caller builds them: the entries
  first, then their list, then the description at address 2. The first is
  a spatial index over one entry; the second has, besides an entry that is
  not required, [unique] set and a key that is not known. *)
Definition spatial_description : Py.store :=
  [ ODict (<["field" := VStr "$.geo"]> (<["type" := VStr "GEOJSON"]>
            (<["required" := VBool true]> (<["srid" := VInt 4326]> ∅))));
    OList [VRef 0];
    ODict (<["fields" := VRef 1]> (<["type" := VStr "SPATIAL"]> ∅)) ].

Definition unique_description : Py.store :=
  [ ODict (<["field" := VStr "$.geo"]> (<["type" := VStr "GEOJSON"]>
            (<["required" := VBool false]> ∅)));
    OList [VRef 0];
    ODict (<["fields" := VRef 1]> (<["type" := VStr "SPATIAL"]>
            (<["unique" := VBool true]> (<["extra" := VInt 1]> ∅)))) ].

(** The same description without [unique]. *)
Definition extra_description : Py.store :=
  [ ODict (<["field" := VStr "$.geo"]> (<["type" := VStr "GEOJSON"]>
            (<["required" := VBool false]> ∅)));
    OList [VRef 0];
    ODict (<["fields" := VRef 1]> (<["type" := VStr "SPATIAL"]>
            (<["extra" := VInt 1]> ∅))) ].

(** The statement the constructor makes of a description at address 2 in
  a store of three objects: the copies are at the addresses after them. *)
Definition index_example : CreateCollectionIndexStatement :=
  {| index_statement := {| _target := Some a_collection; _doc_based := true |};
     _index_desc := VRef 3;
     _index_name := Some "idx";
     _fields_desc := VRef 4 |}.

(** The entry and the description of [spatial_description] as [execute]
  finds them, the entry of the other two, and what is left of the
  description of [extra_description]. *)
Definition spatial_entry : gmap string val :=
  <["field" := VStr "$.geo"]> (<["type" := VStr "GEOJSON"]>
    (<["required" := VBool true]> (<["srid" := VInt 4326]> ∅))).

Definition optional_entry : gmap string val :=
  <["field" := VStr "$.geo"]> (<["type" := VStr "GEOJSON"]>
    (<["required" := VBool false]> ∅)).

Definition spatial_top : gmap string val := <["type" := VStr "SPATIAL"]> ∅.

Definition extra_top : gmap string val :=
  <["type" := VStr "SPATIAL"]> (<["extra" := VInt 1]> ∅).

(** ** Further examples and predicates *)

(** More descriptions for examples: an entry of type GEOJSON under an
  index with no [type] of its own, an entry with a [collation] and a type
  that is not a text, an entry with no [type], and a description with no
  [fields]. *)
Definition geojson_index_description : Py.store :=
  [ ODict (<["field" := VStr "$.geo"]> (<["type" := VStr "GEOJSON"]> ∅));
    OList [VRef 0];
    ODict (<["fields" := VRef 1]> ∅) ].

Definition collation_description : Py.store :=
  [ ODict (<["field" := VStr "$.n"]> (<["type" := VStr "INT"]>
            (<["collation" := VStr "utf8_bin"]> ∅)));
    OList [VRef 0];
    ODict (<["fields" := VRef 1]> (<["type" := VStr "INDEX"]> ∅)) ].

Definition untyped_description : Py.store :=
  [ ODict (<["field" := VStr "$.n"]> ∅);
    OList [VRef 0];
    ODict (<["fields" := VRef 1]> ∅) ].

Definition optional_description : Py.store :=
  [ ODict optional_entry;
    OList [VRef 0];
    ODict (<["fields" := VRef 1]> (<["type" := VStr "Spatial"]> ∅)) ].

Definition fieldless_description : Py.store :=
  [ ODict (<["type" := VStr "INDEX"]> ∅) ].

(** The statement the constructor makes of [fieldless_description]: the
  copy of the description, then the empty list put in the place of its
  entries. *)
Definition fieldless_example : CreateCollectionIndexStatement :=
  {| index_statement := {| _target := Some a_collection; _doc_based := true |};
     _index_desc := VRef 1;
     _index_name := Some "idx";
     _fields_desc := VRef 2 |}.

(** A statement with no index name. *)
Definition nameless_example : CreateCollectionIndexStatement :=
  {| index_statement := {| _target := Some a_collection; _doc_based := true |};
     _index_desc := VRef 3;
     _index_name := None;
     _fields_desc := VRef 4 |}.

(** An entry that lacks [field] or [type]. *)
Definition incomplete_entry (fm : gmap string val) : Prop :=
  fm !! "field" = None \/ fm !! "type" = None.

(** The constructor on a description at address 2 of a store of three
  objects, as in the examples. *)
Definition index_example_store (description : Py.store) : Py.store :=
  snd (CreateCollectionIndexStatement.new 10 (Some a_collection) (Some "idx") (VRef 2)
         description).

(** [bind(name, value)] for each pair of [pairs], one call after the
  other. *)
Definition bind_pairs `{!Parser} (depth : nat) (pairs : list (pyobj * pyobj))
  : M FilterableStatement unit :=
  for_each pairs (fun p => FilterableStatement.bind depth [fst p; snd p]).

(** The documents [add] makes of [values]: a document is kept, anything
  else goes through [DbDoc]; [None] where [DbDoc] refuses one of them. *)
Definition as_document `{!Parser} (val : pyobj) : option pyobj :=
  match val with
  | PDbDoc _ => Some val
  | _ => PDbDoc <$> DbDoc_new val
  end.

(** [self] with [docs] appended to its values. *)
Definition with_values (docs : list pyobj) (self : AddStatement) : AddStatement :=
  {| add_write := {| write_statement := write_statement (add_write self);
                     _values := _values (add_write self) ++ docs;
                     _upsert := _upsert (add_write self) |};
     ids := ids self |}.

(** The values [add] goes through: the items of the one list given, or
  the arguments. *)
Definition documents_given (values : list pyobj) : list pyobj :=
  match values with
  | [PList items] => items
  | _ => values
  end.

(** A document path without its leading [$]. *)
Definition without_dollar (source : string) : string :=
  match source with
  | String "$" rest => rest
  | _ => source
  end.

(** The update of a document that [update_type] names: any type but the
  one of table columns. *)
Definition document_update (update_type : UpdateType) : Prop :=
  match update_type with
  | SET => False
  | _ => True
  end.

(** A parser for examples that refuses the empty text as an order, as a
  document path and as a column, and is [toy_parser] otherwise. *)
Definition strict_parser : Parser :=
  {| Expr := string;
     expr := @expr toy_parser;
     parse_expr_list := @parse_expr_list toy_parser;
     parse_order_spec := fun s _ => if String.eqb s "" then None else Some [s];
     parse_table_select_projection := @parse_table_select_projection toy_parser;
     document_field := fun s => if String.eqb s "" then None else Some s;
     parse_table_update_field := fun s => if String.eqb s "" then None else Some s;
     Expr_str := @Expr_str toy_parser;
     Expr_is_ident := @Expr_is_ident toy_parser;
     json_loads := @json_loads toy_parser;
     DbDoc_str := @DbDoc_str toy_parser;
     DbDoc_new := @DbDoc_new toy_parser |}.

Definition strict_connection : @Connection strict_parser :=
  {| Result := nat;
     Result_new := 0;
     respond := fun log _ => Return (S (length log)) |}.

(** [values] called with each tuple of arguments of [calls], one call
  after the other. *)
Definition insert_rows `{!Parser} (calls : list (list pyobj)) : M InsertStatement unit :=
  for_each calls InsertStatement.values.

(** An entry whose [type] does not read GEOJSON. *)
Definition not_geojson `{!CaseMapping} (fm : gmap string val) : Prop :=
  match fm !! "type" with
  | Some (VStr t) => PyStr.upper t <> "GEOJSON"
  | _ => True
  end.

(** An entry with a member that only an entry of type GEOJSON may have. *)
Definition has_geojson_member (fm : gmap string val) : Prop :=
  is_Some (fm !! "options") \/ is_Some (fm !! "srid").

Definition srid_description : Py.store :=
  [ ODict (<["field" := VStr "$.n"]> (<["type" := VStr "INT"]>
            (<["srid" := VInt 4326]> ∅)));
    OList [VRef 0];
    ODict (<["fields" := VRef 1]> (<["type" := VStr "INDEX"]> ∅)) ].

(** * Properties *)

(** ** Identifier quoting *)

Section QuotingFacts.
Import Quoting.

Lemma last_char_snoc (s : string) (q : ascii) :
  PyStr.last_char (s +:+ String q "") = Some q.
Proof.
  induction s as [|c s IH]; [reflexivity|].
  change (String c s +:+ String q "") with (String c (s +:+ String q "")).
  destruct (s +:+ String q "") as [|c' s'] eqn:E; [destruct s; discriminate|].
  exact IH.
Qed.

Lemma wrapped_in_wrap (q : ascii) (s : string) :
  wrapped_in q (String q (s +:+ String q "")) = Return true.
Proof.
  unfold wrapped_in. cbn [PyStr.first_char]. rewrite Ascii.eqb_refl.
  change (String q (s +:+ String q "")) with (String q s +:+ String q "").
  rewrite last_char_snoc, Ascii.eqb_refl. reflexivity.
Qed.

Lemma wrapped_in_other (q q' : ascii) (s : string) :
  q <> q' -> wrapped_in q' (String q s) = Return false.
Proof.
  intros Hne. unfold wrapped_in. cbn [PyStr.first_char].
  destruct (Ascii.eqb_spec q q'); [contradiction|reflexivity].
Qed.

Lemma is_quoted_wrap (sql_mode s : string) :
  is_quoted_identifier
    (String (if ansi_quotes sql_mode then dquote else backtick)
       (s +:+ String (if ansi_quotes sql_mode then dquote else backtick) ""))
    sql_mode = Return true.
Proof.
  unfold is_quoted_identifier. destruct (ansi_quotes sql_mode).
  - rewrite wrapped_in_other by discriminate. apply wrapped_in_wrap.
  - apply wrapped_in_wrap.
Qed.

Lemma is_quoted_nonempty (identifier sql_mode : string) (b : bool) :
  is_quoted_identifier identifier sql_mode = Return b -> identifier <> "".
Proof.
  intros H ->. unfold is_quoted_identifier, wrapped_in in H. cbn in H.
  destruct (ansi_quotes sql_mode); discriminate.
Qed.

Lemma is_quoted_total (identifier sql_mode : string) :
  identifier <> "" -> exists b, is_quoted_identifier identifier sql_mode = Return b.
Proof.
  intros Hne. destruct identifier as [|c s]; [contradiction|].
  assert (Hl : exists l, PyStr.last_char (String c s) = Some l).
  { clear Hne. revert c. induction s as [|c' s IH]; intros c; [by eexists|].
    destruct (IH c') as [l Hl]. exists l. exact Hl. }
  destruct Hl as [l Hl].
  unfold is_quoted_identifier, wrapped_in. cbn [PyStr.first_char]. rewrite Hl.
  destruct (ansi_quotes sql_mode), (Ascii.eqb c backtick), (Ascii.eqb l backtick),
    (Ascii.eqb c dquote); eauto.
Qed.

Lemma quote_quoted (identifier sql_mode : string) :
  is_quoted_identifier identifier sql_mode = Return true ->
  quote_identifier identifier sql_mode = Return identifier.
Proof.
  intros H. unfold quote_identifier. rewrite H.
  destruct identifier; [|reflexivity].
  by apply is_quoted_nonempty in H.
Qed.

Lemma replace1_doubles (q : ascii) (s : string) :
  list_ascii_of_string (PyStr.replace1 q (String q (String q "")) s)
  = flat_map (fun c => if Ascii.eqb c q then [q; q] else [c]) (list_ascii_of_string s).
Proof.
  induction s as [|c s IH]; [reflexivity|].
  cbn [PyStr.replace1 list_ascii_of_string flat_map].
  destruct (Ascii.eqb c q).
  - change (list_ascii_of_string
              (String q (String q (PyStr.replace1 q (String q (String q "")) s)))
            = [q; q] ++ flat_map (fun c => if Ascii.eqb c q then [q; q] else [c])
                          (list_ascii_of_string s)).
    cbn [list_ascii_of_string app]. by rewrite IH.
  - cbn [list_ascii_of_string app]. by rewrite IH.
Qed.

Lemma list_ascii_app (s t : string) :
  list_ascii_of_string (s +:+ t) = list_ascii_of_string s ++ list_ascii_of_string t.
Proof.
  induction s as [|c s IH]; [reflexivity|].
  change (list_ascii_of_string (String c (s +:+ t))
          = c :: (list_ascii_of_string s ++ list_ascii_of_string t)).
  cbn [list_ascii_of_string]. by rewrite IH.
Qed.

(** C7. For every SQL mode: quoting the empty identifier gives two
  backticks; an identifier that is already quoted is returned unchanged;
  an identifier that is not quoted is wrapped in the quote character of the
  mode with every embedded quote character doubled; and the result of
  quoting is always a quoted identifier, so quoting it again changes
  nothing. *)
Theorem quote_identifier_spec (identifier sql_mode : string) :
  let q := if ansi_quotes sql_mode then dquote else backtick in
  quote_identifier "" sql_mode = Return "``"
  /\ (is_quoted_identifier identifier sql_mode = Return true ->
      quote_identifier identifier sql_mode = Return identifier)
  /\ (is_quoted_identifier identifier sql_mode = Return false ->
      exists quoted,
        quote_identifier identifier sql_mode = Return quoted
        /\ list_ascii_of_string quoted
           = [q] ++ flat_map (fun c => if Ascii.eqb c q then [q; q] else [c])
                      (list_ascii_of_string identifier) ++ [q])
  /\ (exists quoted,
        quote_identifier identifier sql_mode = Return quoted
        /\ is_quoted_identifier quoted sql_mode = Return true
        /\ quote_identifier quoted sql_mode = Return quoted).
Proof.
  intros q. split; [reflexivity|]. split; [apply quote_quoted|].
  assert (Hfresh : is_quoted_identifier identifier sql_mode = Return false ->
            quote_identifier identifier sql_mode
            = Return (String q (PyStr.replace1 q (String q (String q "")) identifier
                                +:+ String q ""))).
  { intros H. unfold quote_identifier. rewrite H.
    destruct identifier; [by apply is_quoted_nonempty in H|].
    cbn [String.length Nat.eqb]. subst q. destruct (ansi_quotes sql_mode); reflexivity. }
  split.
  - intros H. eexists. split; [by apply Hfresh|].
    cbn [list_ascii_of_string]. rewrite list_ascii_app, replace1_doubles. reflexivity.
  - destruct (decide (identifier = "")) as [->|Hne].
    { exists "``". split; [reflexivity|].
      assert (Hq : is_quoted_identifier "``" sql_mode = Return true).
      { unfold is_quoted_identifier. destruct (ansi_quotes sql_mode); reflexivity. }
      split; [exact Hq|by apply quote_quoted]. }
    destruct (is_quoted_total identifier sql_mode Hne) as [[|] Hb].
    + exists identifier. split; [by apply quote_quoted|]. split; [exact Hb|].
      by apply quote_quoted.
    + eexists. split; [by apply Hfresh|].
      pose proof (is_quoted_wrap sql_mode
                    (PyStr.replace1 q (String q (String q "")) identifier)) as Hw.
      fold q in Hw. split; [exact Hw|by apply quote_quoted].
Qed.

(** The quoting of a name with an embedded backtick, in both modes, and of
  a name that is quoted already. *)
Lemma quote_identifier_spec_witness :
  quote_identifier "`x`" "" = Return "`x`"
  /\ exists quoted,
       quote_identifier "a`b" "" = Return quoted
       /\ list_ascii_of_string quoted = list_ascii_of_string "`a``b`".
Proof.
  split.
  - exact (proj1 (proj2 (quote_identifier_spec "`x`" "")) eq_refl).
  - exact (proj1 (proj2 (proj2 (quote_identifier_spec "a`b" ""))) eq_refl).
Defined.

(** C9. A name without separator keeps the default schema; a quoted,
  schema-qualified name is split once into its schema and table, both
  without their quotes. *)
Theorem parse_table_name_spec :
  parse_table_name "s" "t" "" = ("s", "t")
  /\ parse_table_name "s" "`db`.`tbl`" "" = ("db", "tbl")
  /\ (forall default_schema table_name sql_mode,
        let quote := if ansi_quotes sql_mode then dquote else backtick in
        let delimiter :=
          if PyStr.contains (String quote "") table_name
          then String "." (String quote "") else "." in
        match PyStr.split_once delimiter table_name with
        | None =>
            parse_table_name default_schema table_name sql_mode
            = (default_schema, PyStr.strip quote table_name)
        | Some (schema, table) =>
            parse_table_name default_schema table_name sql_mode
            = (PyStr.strip quote schema, PyStr.strip quote table)
        end).
Proof.
  split; [reflexivity|]. split; [reflexivity|].
  intros default_schema table_name sql_mode quote delimiter.
  unfold parse_table_name. fold quote. fold delimiter.
  destruct (PyStr.split_once delimiter table_name) as [[schema table]|]; reflexivity.
Qed.

End QuotingFacts.

(** ** Execution contracts of the filterable statements *)

Section ExecuteFacts.
Context `{!Parser} `{!Connection}.

(** C1. On a modify, update, remove or delete statement whose [has_where]
  flag is unset, [execute] raises the missing-condition error of its kind
  and leaves the log of the connection as it was: no call is made. *)
Theorem execute_without_where :
  (forall (self : ModifyStatement) (log : list call),
      has_where (modify_filterable self) = false ->
      ModifyStatement.execute self log
      = (Raise (ProgrammingError "No condition was found for modify" []), log))
  /\ (forall (self : UpdateStatement) (log : list call),
        has_where (update_filterable self) = false ->
        UpdateStatement.execute self log
        = (Raise (ProgrammingError "No condition was found for update" []), log))
  /\ (forall (self : RemoveStatement) (log : list call),
        has_where (remove_filterable self) = false ->
        RemoveStatement.execute self log
        = (Raise (ProgrammingError "No condition was found for remove" []), log))
  /\ (forall (self : DeleteStatement) (log : list call),
        has_where (delete_filterable self) = false ->
        DeleteStatement.execute self log
        = (Raise (ProgrammingError "No condition was found for delete" []), log)).
Proof.
  repeat split; intros self log Hflag.
  - unfold ModifyStatement.execute. by rewrite Hflag.
  - unfold UpdateStatement.execute. by rewrite Hflag.
  - unfold RemoveStatement.execute. by rewrite Hflag.
  - unfold DeleteStatement.execute. by rewrite Hflag.
Qed.

(** A statement built without a condition has the flag unset. *)
Lemma fresh_has_no_where (target : option Target) (doc_based : bool) :
  FilterableStatement.new target doc_based None
  = Return (FilterableStatement.fresh target doc_based)
  /\ has_where (FilterableStatement.fresh target doc_based) = false.
Proof. split; reflexivity. Qed.

(** A call on the connection of a statement that has a target reaches the
  connection; on a statement without one it raises [AttributeError]. *)
Lemma connection_call_target (self : Statement) (c : call) (log : list call) :
  is_Some (_target self) ->
  connection_call self c log = (respond log c, log ++ [c]).
Proof. intros [t Ht]. unfold connection_call, _connection. by rewrite Ht. Qed.

Lemma connection_call_no_target (self : Statement) (c : call) (log : list call) :
  _target self = None ->
  connection_call self c log = (Raise AttributeError, log).
Proof. intros Ht. unfold connection_call, _connection. by rewrite Ht. Qed.

(** With the flag set, [execute] on a statement that has a target hands the
  statement to the connection. *)
Lemma execute_with_where :
  (forall (self : ModifyStatement) (log : list call),
      has_where (modify_filterable self) = true ->
      is_Some (_target (statement (modify_filterable self))) ->
      ModifyStatement.execute self log
      = (respond log (call_update (StModify self)), log ++ [call_update (StModify self)]))
  /\ (forall (self : UpdateStatement) (log : list call),
        has_where (update_filterable self) = true ->
        is_Some (_target (statement (update_filterable self))) ->
        UpdateStatement.execute self log
        = (respond log (call_update (StUpdate self)),
           log ++ [call_update (StUpdate self)]))
  /\ (forall (self : RemoveStatement) (log : list call),
        has_where (remove_filterable self) = true ->
        is_Some (_target (statement (remove_filterable self))) ->
        RemoveStatement.execute self log
        = (respond log (call_delete (StRemove self)),
           log ++ [call_delete (StRemove self)]))
  /\ (forall (self : DeleteStatement) (log : list call),
        has_where (delete_filterable self) = true ->
        is_Some (_target (statement (delete_filterable self))) ->
        DeleteStatement.execute self log
        = (respond log (call_delete (StDelete self)),
           log ++ [call_delete (StDelete self)])).
Proof.
  repeat split; intros self log Hflag Htarget.
  - unfold ModifyStatement.execute. rewrite Hflag. by apply connection_call_target.
  - unfold UpdateStatement.execute. rewrite Hflag. by apply connection_call_target.
  - unfold RemoveStatement.execute. rewrite Hflag. by apply connection_call_target.
  - unfold DeleteStatement.execute. rewrite Hflag. by apply connection_call_target.
Qed.

(** With the flag set, [execute] on a statement built without a target
  raises [AttributeError]: its [_connection] is [None]. *)
Lemma execute_without_target :
  (forall (self : ModifyStatement) (log : list call),
      has_where (modify_filterable self) = true ->
      _target (statement (modify_filterable self)) = None ->
      ModifyStatement.execute self log = (Raise AttributeError, log))
  /\ (forall (self : UpdateStatement) (log : list call),
        has_where (update_filterable self) = true ->
        _target (statement (update_filterable self)) = None ->
        UpdateStatement.execute self log = (Raise AttributeError, log))
  /\ (forall (self : RemoveStatement) (log : list call),
        has_where (remove_filterable self) = true ->
        _target (statement (remove_filterable self)) = None ->
        RemoveStatement.execute self log = (Raise AttributeError, log))
  /\ (forall (self : DeleteStatement) (log : list call),
        has_where (delete_filterable self) = true ->
        _target (statement (delete_filterable self)) = None ->
        DeleteStatement.execute self log = (Raise AttributeError, log)).
Proof.
  repeat split; intros self log Hflag Htarget.
  - unfold ModifyStatement.execute. rewrite Hflag. by apply connection_call_no_target.
  - unfold UpdateStatement.execute. rewrite Hflag. by apply connection_call_no_target.
  - unfold RemoveStatement.execute. rewrite Hflag. by apply connection_call_no_target.
  - unfold DeleteStatement.execute. rewrite Hflag. by apply connection_call_no_target.
Qed.

(** What [where] does when the parser refuses the condition. *)
Lemma where_refused (condition : string) (self : FilterableStatement) :
  expr condition (negb (_doc_based (statement self))) = None ->
  FilterableStatement.where_ condition self
  = (Raise (ProgrammingError "Invalid condition" []),
     set_where (Some condition) (set_has_where true self)).
Proof.
  intros Hparse. unfold FilterableStatement.where_, bindM, modifyM, getM, try_except.
  destruct self as [[target doc_based] ?]. cbn in *. by rewrite Hparse.
Qed.

(** What [where] does when the parser accepts the condition. *)
Lemma where_accepted (condition : string) (self : FilterableStatement)
  (e : Expr) (positions : gmap string nat) :
  expr condition (negb (_doc_based (statement self))) = Some (e, positions) ->
  FilterableStatement.where_ condition self
  = (Return tt,
     set_binding_map positions
       (set_where_expr (Some e) (set_where (Some condition) (set_has_where true self)))).
Proof.
  intros Hparse. unfold FilterableStatement.where_, bindM, modifyM, getM, try_except.
  destruct self as [[target doc_based] ?]. cbn in *. by rewrite Hparse.
Qed.

(** C3, as the code has it. When the parser refuses the condition, [where]
  raises the invalid-condition error; the call leaves the [has_where] flag
  set and the refused text stored, and the parsed condition, the placeholder
  map and the target as they were. [execute] on a modify, update, remove or
  delete statement in that state does not raise the missing-condition
  error: on a statement that has a target it hands the statement to the
  connection, and on one built without a target it raises
  [AttributeError]. *)
Theorem where_refused_keeps_flag (condition : string) (self : FilterableStatement)
  (ops : list UpdateSpec) (log : list call) :
  expr condition (negb (_doc_based (statement self))) = None ->
  let r := FilterableStatement.where_ condition self in
  let self' := snd r in
  let m := {| modify_filterable := self'; modify_update_ops := ops |} in
  let u := {| update_filterable := self'; update_update_ops := ops |} in
  let d := {| remove_filterable := self' |} in
  let e := {| delete_filterable := self' |} in
  fst r = Raise (ProgrammingError "Invalid condition" [])
  /\ has_where self' = true
  /\ _where self' = Some condition
  /\ _where_expr self' = _where_expr self
  /\ _binding_map self' = _binding_map self
  /\ statement self' = statement self
  /\ (is_Some (_target (statement self)) ->
      ModifyStatement.execute m log
      = (respond log (call_update (StModify m)), log ++ [call_update (StModify m)])
      /\ UpdateStatement.execute u log
         = (respond log (call_update (StUpdate u)), log ++ [call_update (StUpdate u)])
      /\ RemoveStatement.execute d log
         = (respond log (call_delete (StRemove d)), log ++ [call_delete (StRemove d)])
      /\ DeleteStatement.execute e log
         = (respond log (call_delete (StDelete e)), log ++ [call_delete (StDelete e)]))
  /\ (_target (statement self) = None ->
      ModifyStatement.execute m log = (Raise AttributeError, log)
      /\ UpdateStatement.execute u log = (Raise AttributeError, log)
      /\ RemoveStatement.execute d log = (Raise AttributeError, log)
      /\ DeleteStatement.execute e log = (Raise AttributeError, log)).
Proof.
  intros Hparse r self' m u d e. subst m u d e self' r.
  rewrite (where_refused _ _ Hparse).
  destruct self as [st ? ? ? ? ? ? ? ? ? ?]. cbn [fst snd].
  do 6 (split; [reflexivity|]).
  split; intros Htarget.
  - destruct execute_with_where as (Hm & Hu & Hd & He).
    repeat split; [apply Hm|apply Hu|apply Hd|apply He]; done.
  - destruct execute_without_target as (Hm & Hu & Hd & He).
    repeat split; [apply Hm|apply Hu|apply Hd|apply He]; done.
Qed.

(** C8. With no document accumulated, [execute] on an add statement
  returns the empty result and leaves the log of the connection as it was,
  whether the statement has a target or not; with one document or more it
  is the connection's [send_insert] on the statement when the statement has
  a target, and [AttributeError] when it was built without one. *)
Theorem add_execute_spec (self : AddStatement) (log : list call) :
  (_values (add_write self) = [] ->
   AddStatement.execute self log = (Return Result_new, log))
  /\ (_values (add_write self) <> [] ->
      is_Some (_target (write_statement (add_write self))) ->
      AddStatement.execute self log
      = (respond log (call_send_insert (StAdd self)),
         log ++ [call_send_insert (StAdd self)]))
  /\ (_values (add_write self) <> [] ->
      _target (write_statement (add_write self)) = None ->
      AddStatement.execute self log = (Raise AttributeError, log)).
Proof.
  unfold AddStatement.execute.
  destruct (_values (add_write self)); repeat split; try done; intros _ Htarget;
    cbn [length Nat.eqb].
  - by apply connection_call_target.
  - by apply connection_call_no_target.
Qed.

End ExecuteFacts.

(** Fresh statements, run against the example connection. *)
Lemma execute_without_where_witness :
  let m := @Build_ModifyStatement toy_parser (FilterableStatement.fresh None true) [] in
  let d := @Build_DeleteStatement toy_parser (FilterableStatement.fresh None false) in
  @ModifyStatement.execute toy_parser toy_connection m []
  = (Raise (ProgrammingError "No condition was found for modify" []), [])
  /\ @DeleteStatement.execute toy_parser toy_connection d []
     = (Raise (ProgrammingError "No condition was found for delete" []), []).
Proof.
  intros m d. split.
  - exact (proj1 (@execute_without_where toy_parser toy_connection) m [] eq_refl).
  - exact (proj2 (proj2 (proj2 (@execute_without_where toy_parser toy_connection)))
             d [] eq_refl).
Defined.

(** The example parser refuses the condition below; the statement, built
  on the example collection, is then executed against the example
  connection. *)
Lemma where_refused_keeps_flag_witness :
  let self := @FilterableStatement.fresh toy_parser (Some a_collection) true in
  let self' := snd (@FilterableStatement.where_ toy_parser "(a > 1" self) in
  let m := @Build_ModifyStatement toy_parser self' [] in
  has_where self' = true
  /\ @ModifyStatement.execute toy_parser toy_connection m []
     = (Return 1, [call_update (StModify m)]).
Proof.
  intros self self' m.
  pose proof (@where_refused_keeps_flag toy_parser toy_connection
                "(a > 1" self [] [] eq_refl) as H.
  cbv zeta in H. destruct H as (_ & Hflag & _ & _ & _ & _ & Hexecute & _).
  split; [exact Hflag|].
  exact (proj1 (Hexecute (ex_intro _ a_collection eq_refl))).
Defined.

(** C3 fails as stated: after a refused [where] on a fresh modify statement
  of the example collection the flag is set, and [execute] reaches the
  connection instead of raising the missing-condition error. *)
Lemma where_refused_counterexample :
  let self := @FilterableStatement.fresh toy_parser (Some a_collection) true in
  let r := @FilterableStatement.where_ toy_parser "(a > 1" self in
  let m := @Build_ModifyStatement toy_parser (snd r) [] in
  _connection (statement (snd r)) = Some TargetConnection
  /\ fst r = Raise (ProgrammingError "Invalid condition" [])
  /\ has_where (snd r) <> false
  /\ (forall log',
        @ModifyStatement.execute toy_parser toy_connection m []
        <> (Raise (ProgrammingError "No condition was found for modify" []), log'))
  /\ @ModifyStatement.execute toy_parser toy_connection m []
     = (Return 1, [call_update (StModify m)]).
Proof.
  cbv zeta. split; [reflexivity|]. split; [reflexivity|]. split; [discriminate|].
  split; [intros log' H; discriminate H|reflexivity].
Qed.

(** An add statement of the example collection, empty and with one
  document, run against the example connection. *)
Lemma add_execute_spec_witness :
  let empty := AddStatement.new (Some a_collection) in
  let one := AddStatement.append_value (PDbDoc []) empty in
  @AddStatement.execute toy_parser toy_connection empty [] = (Return 0, [])
  /\ @AddStatement.execute toy_parser toy_connection one []
     = (Return 1, [call_send_insert (StAdd one)]).
Proof.
  intros empty one. split.
  - exact (proj1 (@add_execute_spec toy_parser toy_connection empty []) eq_refl).
  - refine (proj1 (proj2 (@add_execute_spec toy_parser toy_connection one [])) _ _).
    + discriminate.
    + by exists a_collection.
Defined.

(** ** Locks *)

Section LockFacts.
Context `{!Parser}.

Lemma lock_exclusive_or_shared (c : lock_call) (self : ReadStatement) :
  let self' := snd (lock c self) in
  _lock_exclusive self' && _lock_shared self' = false.
Proof. destruct c; reflexivity. Qed.

Lemma locks_invariant (calls : list lock_call) (self : ReadStatement) :
  _lock_exclusive self && _lock_shared self = false ->
  let self' := snd (for_each calls lock self) in
  _lock_exclusive self' && _lock_shared self' = false.
Proof.
  revert self. induction calls as [|c calls IH]; intros self Hinv; [exact Hinv|].
  cbn [for_each]. unfold bindM.
  pose proof (lock_exclusive_or_shared c self) as Hstep.
  destruct c; cbn in *; apply IH; exact Hstep.
Qed.

(** C5. On a read statement as its constructor leaves it, after any
  sequence of calls of [lock_shared] and [lock_exclusive] at most one of
  the two lock flags is set; the last call decides which: after
  [lock_shared] then [lock_exclusive] exactly the exclusive flag is set,
  and after [lock_exclusive] then [lock_shared] exactly the shared one.
  The points considered are those between calls. *)
Theorem lock_flags_exclusive :
  (forall target doc_based condition (self : ReadStatement) (calls : list lock_call),
      ReadStatement.new target doc_based condition = Return self ->
      let r := for_each calls lock self in
      fst r = Return tt
      /\ _lock_exclusive (snd r) && _lock_shared (snd r) = false)
  /\ (forall self : ReadStatement,
        let self' := snd ((ReadStatement.lock_shared ;; ReadStatement.lock_exclusive) self) in
        _lock_exclusive self' = true /\ _lock_shared self' = false)
  /\ (forall self : ReadStatement,
        let self' := snd ((ReadStatement.lock_exclusive ;; ReadStatement.lock_shared) self) in
        _lock_exclusive self' = false /\ _lock_shared self' = true).
Proof.
  split; [|split; intros self; split; reflexivity].
  intros target doc_based condition self calls Hnew r. subst r. split.
  - clear Hnew. revert self. induction calls as [|c calls IH]; intros self; [reflexivity|].
    cbn [for_each]. unfold bindM. destruct c; cbn; apply IH.
  - apply locks_invariant. unfold ReadStatement.new in Hnew.
    destruct (FilterableStatement.new target doc_based condition); [|discriminate].
    injection Hnew as <-. reflexivity.
Qed.

End LockFacts.

Lemma lock_flags_exclusive_witness :
  let self := @Build_ReadStatement toy_parser
                (@FilterableStatement.fresh toy_parser None true) false false in
  let r := for_each [LockShared; LockExclusive; LockExclusive; LockShared]
             (@lock toy_parser) self in
  _lock_exclusive (snd r) && _lock_shared (snd r) = false.
Proof.
  intros self r.
  exact (proj2 (proj1 (@lock_flags_exclusive toy_parser) None true None self
                  [LockShared; LockExclusive; LockExclusive; LockShared] eq_refl)).
Defined.

(** ** SQL generation *)

Section SqlFacts.
Context `{!Parser}.

Lemma append_empty (s : string) : s +:+ "" = s.
Proof.
  induction s as [|c s IH]; [reflexivity|].
  change (String c (s +:+ "") = String c s). by rewrite IH.
Qed.

(** [format] is run on the template; the text it leaves after the last
  field is empty. *)
Ltac format_by shape :=
  transitivity (Return (A := string) shape);
  [reflexivity | by rewrite append_empty].

Lemma format_where (w : string) :
  PyStr.format " WHERE {0}" [("0", w)] = Return (" WHERE " +:+ w).
Proof. format_by (" WHERE " +:+ w +:+ ""). Qed.

Lemma format_group_by (g : string) :
  PyStr.format " GROUP BY {0}" [("0", g)] = Return (" GROUP BY " +:+ g).
Proof. format_by (" GROUP BY " +:+ g +:+ ""). Qed.

Lemma format_having (h : string) :
  PyStr.format " HAVING {0}" [("0", h)] = Return (" HAVING " +:+ h).
Proof. format_by (" HAVING " +:+ h +:+ ""). Qed.

Lemma format_order_by (o : string) :
  PyStr.format " ORDER BY {0}" [("0", o)] = Return (" ORDER BY " +:+ o).
Proof. format_by (" ORDER BY " +:+ o +:+ ""). Qed.

Lemma format_limit (n o : string) :
  PyStr.format " LIMIT {0} OFFSET {1}" [("0", n); ("1", o)]
  = Return (" LIMIT " +:+ n +:+ " OFFSET " +:+ o).
Proof. format_by (" LIMIT " +:+ n +:+ " OFFSET " +:+ o +:+ ""). Qed.

Lemma format_select (select schema table limit where_ group having order : string) :
  PyStr.format "SELECT {select} FROM {schema}.{table}{where}{group}{having}{order}{limit}"
    [("select", select); ("schema", schema); ("table", table); ("limit", limit);
     ("where", where_); ("group", group); ("having", having); ("order", order)]
  = Return ("SELECT " +:+ select +:+ " FROM " +:+ schema +:+ "." +:+ table +:+ where_
            +:+ group +:+ having +:+ order +:+ limit).
Proof.
  format_by ("SELECT " +:+ select +:+ " FROM " +:+ schema +:+ "." +:+ table +:+ where_
             +:+ group +:+ having +:+ order +:+ limit +:+ "").
Qed.

(** The clauses of [get_sql], each under its flag and in the order of the
  template; the statement is left as it was. *)
Lemma get_sql_clauses (self : ReadStatement) (table schema : string) :
  let f := read_filterable self in
  _target (statement f)
  = Some {| Target_name := table; Target_schema := {| Schema_name := schema |} |} ->
  (has_where f = true -> is_Some (_where f)) ->
  SelectStatement.get_sql self
  = (Return
       ("SELECT "
        +:+ (if String.eqb (_projection_str f) "" then "*" else _projection_str f)
        +:+ " FROM " +:+ schema +:+ "." +:+ table
        +:+ clause (has_where f) "WHERE" (default "" (_where f))
        +:+ clause (has_group_by f) "GROUP BY" (_grouping_str f)
        +:+ clause (has_having f) "HAVING" (SelectStatement.having_str (_having f))
        +:+ clause (has_sort f) "ORDER BY" (_sort_str f)
        +:+ (if has_limit f then
               " LIMIT " +:+ PyStr.of_Z (_limit_row_count f)
               +:+ " OFFSET " +:+ PyStr.of_Z (_limit_offset f)
             else "")),
     self).
Proof.
  intros f Ht Hw. subst f. destruct self as [f ex sh].
  cbn [read_filterable] in *.
  unfold SelectStatement.get_sql, SelectStatement.target_names, bindM, getM, liftO,
    retM, raiseM, clause.
  cbn [read_filterable]. rewrite Ht.
  destruct (has_where f).
  - destruct Hw as [w Hw]; [done|]. rewrite Hw.
    destruct (has_group_by f), (has_having f), (has_sort f), (has_limit f);
      rewrite ?format_where, ?format_group_by, ?format_having, ?format_order_by,
        ?format_limit; cbn [fst snd]; rewrite format_select; reflexivity.
  - destruct (has_group_by f), (has_having f), (has_sort f), (has_limit f);
      rewrite ?format_where, ?format_group_by, ?format_having, ?format_order_by,
        ?format_limit; cbn [fst snd]; rewrite format_select; reflexivity.
Qed.

(** What [having] leaves on a read statement: the flag set, and the parsed
  condition when the parser accepts the text. No attribute keeps the
  text. *)
Lemma having_stores_parsed (condition : string) (self : ReadStatement) :
  ReadStatement.having condition self
  = match expr condition (negb (_doc_based (statement (read_filterable self)))) with
    | Some (e, _) =>
        (Return tt,
         ReadStatement.set_filterable
           (set_having (Some e) (set_has_having true (read_filterable self))) self)
    | None =>
        (Raise ValueError,
         ReadStatement.set_filterable (set_has_having true (read_filterable self)) self)
    end.
Proof.
  unfold ReadStatement.having, ReadStatement.super, inherited,
    FilterableStatement._set_having, bindM, modifyM, getM.
  destruct self as [[[target doc_based] ?] ? ?]. cbn.
  by destruct (expr condition (negb doc_based)) as [[e positions]|].
Qed.

(** C4, as the code has it. On a select statement with a target, whose
  condition text is stored whenever [has_where] is set, [get_sql] returns
  the text made of the projection (or a star), the schema and the table,
  followed by the WHERE, GROUP BY, HAVING, ORDER BY and LIMIT/OFFSET clauses
  in that order, each present exactly when its flag is set, and leaves the
  statement as it was. The WHERE, GROUP BY and ORDER BY clauses carry the
  texts the statement keeps; the HAVING clause carries no having text, for
  none is kept: it carries [str] of the parsed condition, and [None] when
  the flag is set and no condition was parsed. So [having] on a fresh select
  yields HAVING followed by what the parser's expression prints as, and by
  [None] when the parser refused the text. The example statement of the
  claim, which has no HAVING clause, yields the expected query for every
  parser that accepts its three texts. *)
Theorem get_sql_having_parsed :
  (forall (self : ReadStatement) (table schema : string),
      let f := read_filterable self in
      _target (statement f)
      = Some {| Target_name := table; Target_schema := {| Schema_name := schema |} |} ->
      (has_where f = true -> is_Some (_where f)) ->
      SelectStatement.get_sql self
      = (Return
           ("SELECT "
            +:+ (if String.eqb (_projection_str f) "" then "*" else _projection_str f)
            +:+ " FROM " +:+ schema +:+ "." +:+ table
            +:+ (if has_where f then " WHERE " +:+ default "" (_where f) else "")
            +:+ (if has_group_by f then " GROUP BY " +:+ _grouping_str f else "")
            +:+ (if has_having f then
                   " HAVING " +:+ match _having f with
                                  | Some e => Expr_str e
                                  | None => "None"
                                  end
                 else "")
            +:+ (if has_sort f then " ORDER BY " +:+ _sort_str f else "")
            +:+ (if has_limit f then
                   " LIMIT " +:+ PyStr.of_Z (_limit_row_count f)
                   +:+ " OFFSET " +:+ PyStr.of_Z (_limit_offset f)
                 else "")),
         self))
  /\ (forall (condition : string) (self : ReadStatement),
        let r := ReadStatement.having condition self in
        has_having (read_filterable (snd r)) = true
        /\ _where (read_filterable (snd r)) = _where (read_filterable self)
        /\ _grouping_str (read_filterable (snd r)) = _grouping_str (read_filterable self)
        /\ _sort_str (read_filterable (snd r)) = _sort_str (read_filterable self)
        /\ match expr condition (negb (_doc_based (statement (read_filterable self)))) with
           | Some (e, _) =>
               fst r = Return tt /\ _having (read_filterable (snd r)) = Some e
           | None =>
               fst r = Raise ValueError
               /\ _having (read_filterable (snd r)) = _having (read_filterable self)
           end)
  /\ (forall (condition : string) (p : list Expr) (e : Expr)
             (positions : gmap string nat),
        parse_table_select_projection "" true = Some p ->
        expr condition true = Some (e, positions) ->
        having_example condition
        = (Return tt, Return ("SELECT * FROM s.t HAVING " +:+ Expr_str e)))
  /\ (forall (condition : string) (p : list Expr),
        parse_table_select_projection "" true = Some p ->
        expr condition true = None ->
        having_example condition
        = (Raise ValueError, Return "SELECT * FROM s.t HAVING None"))
  /\ (forall (p o : list Expr) (e : Expr) (positions : gmap string nat),
        parse_table_select_projection "" true = Some p ->
        expr "a>1" true = Some (e, positions) ->
        parse_order_spec "a" true = Some o ->
        select_example
        = Return "SELECT * FROM s.t WHERE a>1 ORDER BY a LIMIT 10 OFFSET 5").
Proof.
  split; [|split; [|split; [|split]]].
  - intros self table schema f Ht Hw.
    rewrite (get_sql_clauses self table schema Ht Hw). unfold clause. subst f.
    by destruct (_having (read_filterable self)).
  - intros condition self r. subst r. rewrite having_stores_parsed.
    destruct self as [[[target doc_based] ?] ? ?]. cbn.
    by destruct (expr condition (negb doc_based)) as [[e positions]|].
  - intros condition p e positions Hproj Hexpr.
    unfold having_example, SelectStatement.new, ReadStatement.new,
      FilterableStatement.new, construct, ReadStatement.super, inherited,
      FilterableStatement._set_projection, FilterableStatement.fresh,
      bindM, modifyM, getM, liftO, retM, raiseM.
    cbn -[SelectStatement.get_sql ReadStatement.having]. rewrite Hproj.
    cbn -[SelectStatement.get_sql ReadStatement.having]. rewrite having_stores_parsed.
    cbn -[SelectStatement.get_sql]. rewrite Hexpr. cbn [fst snd]. f_equal.
    erewrite get_sql_clauses; [|reflexivity|discriminate].
    cbn. by rewrite append_empty.
  - intros condition p Hproj Hexpr.
    unfold having_example, SelectStatement.new, ReadStatement.new,
      FilterableStatement.new, construct, ReadStatement.super, inherited,
      FilterableStatement._set_projection, FilterableStatement.fresh,
      bindM, modifyM, getM, liftO, retM, raiseM.
    cbn -[SelectStatement.get_sql ReadStatement.having]. rewrite Hproj.
    cbn -[SelectStatement.get_sql ReadStatement.having]. rewrite having_stores_parsed.
    cbn -[SelectStatement.get_sql]. rewrite Hexpr. cbn [fst snd].
    erewrite get_sql_clauses; [|reflexivity|discriminate].
    reflexivity.
  - intros p o e positions Hproj Hexpr Hord.
    unfold select_example, SelectStatement.new, ReadStatement.new,
      FilterableStatement.new, construct, ReadStatement.super, inherited,
      FilterableStatement._set_projection, FilterableStatement.fresh,
      bindM, modifyM, getM, liftO, retM, raiseM.
    cbn. rewrite Hproj. cbn.
    unfold SelectStatement.order_by, ReadStatement.super, inherited,
      FilterableStatement.where_, FilterableStatement.sort, FilterableStatement.limit,
      try_except, bindM, modifyM, getM, liftO, retM, raiseM.
    cbn. rewrite Hexpr. cbn. rewrite Hord. reflexivity.
Qed.

End SqlFacts.

(** A select on table [t] of schema [s] to which [where], [group_by],
  [having] and [limit] were applied, with the example parser; and [having]
  on a text the example parser refuses. *)
Lemma get_sql_having_parsed_witness :
  let fresh :=
    @Build_ReadStatement toy_parser
      (@FilterableStatement.fresh toy_parser
         (Some {| Target_name := "t"; Target_schema := {| Schema_name := "s" |} |}) false)
      false false in
  let self :=
    snd ((ReadStatement.super (FilterableStatement.where_ "a>1") ;;
          ReadStatement.group_by [ArgStr "b"] ;;
          ReadStatement.having "c>2" ;;
          ReadStatement.super (FilterableStatement.limit 10 5)) fresh) in
  fst (@SelectStatement.get_sql toy_parser self)
  = Return "SELECT * FROM s.t WHERE a>1 GROUP BY b HAVING c>2 LIMIT 10 OFFSET 5"
  /\ @having_example toy_parser "(a"
     = (Raise ValueError, Return "SELECT * FROM s.t HAVING None")
  /\ @select_example toy_parser
     = Return "SELECT * FROM s.t WHERE a>1 ORDER BY a LIMIT 10 OFFSET 5".
Proof.
  intros fresh self.
  destruct (@get_sql_having_parsed toy_parser) as (Hsql & _ & _ & Hrefused & Hexample).
  split; [|split].
  - refine (eq_trans (f_equal fst (Hsql self "t" "s" eq_refl _)) _).
    + intros _. by exists "a>1".
    + vm_compute. reflexivity.
  - exact (Hrefused "(a" [""] eq_refl eq_refl).
  - exact (Hexample [""] ["a"] "a>1" ∅ eq_refl eq_refl eq_refl).
Defined.

(** ** Bindings *)

Section BindFacts.
Context `{!Parser}.

Lemma bind_two (depth : nat) (name value : pyobj) (self : FilterableStatement) :
  FilterableStatement.bind (S depth) [name; value] self
  = (Return tt,
     set_bindings (_bindings self ++ [bound name value]) (set_has_bindings true self)).
Proof. destruct self. reflexivity. Qed.

Lemma bind_three_or_more (depth : nat) (args : list pyobj) (self : FilterableStatement) :
  2 < length args ->
  FilterableStatement.bind (S depth) args self
  = (Raise (ProgrammingError "Invalid number of arguments to bind" []),
     set_has_bindings true self).
Proof.
  intros Hlen. destruct args as [|a [|b [|c rest]]]; cbn in Hlen; try lia.
  destruct self. reflexivity.
Qed.

Lemma bind_text_not_mapping (depth : nat) (s : string) (self : FilterableStatement) :
  (forall items, json_loads s <> Some (PDict items)) ->
  FilterableStatement.bind (S (S depth)) [PStr s] self
  = (Raise (ProgrammingError "Invalid JSON string to bind" []),
     set_has_bindings true self).
Proof.
  intros Hnot. destruct self.
  cbn [FilterableStatement.bind length Nat.eqb].
  unfold FilterableStatement._bind_single, bindM, modifyM, retM, raiseM.
  cbn [set_has_bindings].
  destruct (json_loads s) as [[| | | | |items|]|]; try reflexivity.
  by destruct (Hnot items).
Qed.

Lemma bind_other_object (depth : nat) (obj : pyobj) (self : FilterableStatement) :
  match obj with
  | PStr _ | PDbDoc _ => False
  | _ => True
  end ->
  FilterableStatement.bind (S depth) [obj] self
  = (Raise (ProgrammingError "Invalid JSON string or object to bind" []),
     set_has_bindings true self).
Proof. intros Hobj. destruct self, obj; try contradiction; reflexivity. Qed.

Lemma getitem_in (res : list (string * pyobj)) (key : string) (value : pyobj) :
  NoDup (map fst res) -> (key, value) ∈ res ->
  FilterableStatement.getitem key res = Return value.
Proof.
  induction res as [|[k v] res IH]; intros Hnd Hin; [by apply elem_of_nil in Hin|].
  cbn [FilterableStatement.getitem]. apply NoDup_cons in Hnd as [Hk Hnd].
  apply elem_of_cons in Hin as [Heq|Hin].
  - injection Heq as -> ->. by rewrite String.eqb_refl.
  - destruct (String.eqb_spec k key) as [->|Hne]; [|by apply IH].
    exfalso. apply Hk. apply list_elem_of_fmap. by exists (key, value).
Qed.

Lemma bind_each (depth : nat) (res items : list (string * pyobj))
  (self : FilterableStatement) :
  NoDup (map fst res) -> items ⊆ res -> has_bindings self = true ->
  for_each (map fst items)
    (fun key =>
       v <- liftO (FilterableStatement.getitem key res) ;;
       FilterableStatement.bind (S depth) [PStr key; v]) self
  = (Return tt,
     set_bindings
       (_bindings self ++ map (fun kv => bound (PStr (fst kv)) (snd kv)) items) self).
Proof.
  intros Hnd. revert self. induction items as [|[k v] items IH]; intros self Hsub Hflag.
  - cbn. rewrite app_nil_r. by destruct self.
  - cbn [map fst for_each]. unfold bindM at 1. unfold bindM at 1, liftO.
    rewrite (getitem_in res k v Hnd) by (apply Hsub; left).
    rewrite bind_two. rewrite IH.
    + destruct self; cbn in *; subst. by rewrite <- app_assoc.
    + intros x Hx. apply Hsub. by right.
    + by destruct self.
Qed.

Lemma bind_text_mapping (depth : nat) (s : string) (res : list (string * pyobj))
  (self : FilterableStatement) :
  json_loads s = Some (PDict res) -> NoDup (map fst res) ->
  FilterableStatement.bind (S (S depth)) [PStr s] self
  = (Return tt,
     set_bindings
       (_bindings self ++ map (fun kv => bound (PStr (fst kv)) (snd kv)) res)
       (set_has_bindings true self)).
Proof.
  intros Hjson Hnd.
  cbn [FilterableStatement.bind length Nat.eqb].
  unfold FilterableStatement._bind_single. unfold bindM at 1, modifyM.
  rewrite Hjson. unfold bindM at 1, retM.
  rewrite (bind_each depth res res); [|done|done|by destruct self].
  by destruct self.
Qed.

Lemma bind_document (depth : nat) (d : list (string * pyobj)) (self : FilterableStatement) :
  FilterableStatement.bind (S (S (S depth))) [PDbDoc d] self
  = FilterableStatement.bind (S (S depth)) [PStr (DbDoc_str d)] (set_has_bindings true self).
Proof. reflexivity. Qed.

(** C6, at the input on which the code departs from it: [bind] called
  with no argument sets [has_bindings] and then raises [IndexError], from
  the index into the empty tuple of arguments, and not the
  [ProgrammingError] raised for three arguments or more. *)
Theorem bind_no_argument (depth : nat) (self : FilterableStatement) :
  FilterableStatement.bind (S depth) [] self
  = (Raise IndexError, set_has_bindings true self)
  /\ fst (FilterableStatement.bind (S depth) [] self)
     <> Raise (ProgrammingError "Invalid number of arguments to bind" []).
Proof. destruct self. split; [reflexivity|discriminate]. Qed.

End BindFacts.

(** ** The index description of the caller is not mutated *)

Section KeepsRules.
Context {S : Type} (I : S -> Prop).

Lemma keeps_ret {A} (a : A) (Q : A -> Prop) : Q a -> keeps I (retM a) Q.
Proof. intros HQ s Hs. split; [exact Hs|]. cbn. by intros ? [= <-]. Qed.

Lemma keeps_raise {A} (e : exn) (Q : A -> Prop) : keeps I (raiseM e) Q.
Proof. intros s Hs. split; [exact Hs|]. cbn. discriminate. Qed.

Lemma keeps_bind {A B} (c : M S A) (k : A -> M S B) (Q : A -> Prop) (R : B -> Prop) :
  keeps I c Q -> (forall a, Q a -> keeps I (k a) R) -> keeps I (bindM c k) R.
Proof.
  intros Hc Hk s Hs. unfold bindM. destruct (Hc s Hs) as [Hs' HQ].
  destruct (c s) as [[a|e] s']; cbn in *.
  - apply Hk; [by apply HQ|exact Hs'].
  - split; [exact Hs'|discriminate].
Qed.

Lemma keeps_weaken {A} (c : M S A) (Q R : A -> Prop) :
  keeps I c Q -> (forall a, Q a -> R a) -> keeps I c R.
Proof. intros Hc HQR s Hs. destruct (Hc s Hs) as [Hs' HQ]. split; [done|]. eauto. Qed.

Lemma keeps_any {A} (c : M S A) (Q : A -> Prop) :
  keeps I c Q -> keeps I c (fun _ => True).
Proof. intros Hc. by eapply keeps_weaken. Qed.

Lemma keeps_then {A B} (c : M S A) (k : A -> M S B) (R : B -> Prop) :
  keeps I c (fun _ => True) -> (forall a, keeps I (k a) R) -> keeps I (bindM c k) R.
Proof. intros Hc Hk. eapply keeps_bind; [exact Hc|]. intros a _. apply Hk. Qed.

Lemma keeps_get {A} (k : S -> M S A) (Q : A -> Prop) :
  (forall s0, I s0 -> keeps I (k s0) Q) -> keeps I (bindM getM k) Q.
Proof. intros Hk s Hs. exact (Hk s Hs s Hs). Qed.

Lemma keeps_try {A} (c : M S A) (h : exn -> option (M S A)) (Q : A -> Prop) :
  keeps I c Q -> (forall e k, h e = Some k -> keeps I k Q) -> keeps I (try_except c h) Q.
Proof.
  intros Hc Hh s Hs. unfold try_except. destruct (Hc s Hs) as [Hs' HQ].
  destruct (c s) as [[a|e] s']; cbn in *; [done|].
  destruct (h e) as [k|] eqn:He; [by eapply Hh|]. split; [done|discriminate].
Qed.

Lemma keeps_for_each {A} (xs : list A) (body : A -> M S unit) (P : A -> Prop) :
  Forall P xs -> (forall x, P x -> keeps I (body x) (fun _ => True)) ->
  keeps I (for_each xs body) (fun _ => True).
Proof.
  intros Hxs Hbody. induction Hxs as [|x xs Hx Hxs IH]; [by apply keeps_ret|].
  cbn [for_each]. eapply keeps_bind; [by apply Hbody|]. intros _ _. exact IH.
Qed.

Lemma keeps_if {A} (b : bool) (c1 c2 : M S A) (Q : A -> Prop) :
  keeps I c1 Q -> keeps I c2 Q -> keeps I (if b then c1 else c2) Q.
Proof. by destruct b. Qed.

(** A computation that leaves the state as it is keeps every invariant. *)
Lemma keeps_readonly {A} (c : M S A) :
  (forall s, snd (c s) = s) -> keeps I c (fun _ => True).
Proof. intros Hc s Hs. by rewrite Hc. Qed.

End KeepsRules.

Lemma keeps_inherited {S T A} (I : S -> Prop) (J : T -> Prop) (base : T -> S)
  (set_base : S -> T -> T) (c : M S A) (Q : A -> Prop) :
  (forall t, J t -> I (base t)) ->
  (forall s t, J t -> I s -> J (set_base s t)) ->
  keeps I c Q -> keeps J (inherited base set_base c) Q.
Proof.
  intros Hget Hset Hc t Ht. unfold inherited.
  destruct (Hc (base t) (Hget t Ht)) as [Hs HQ].
  destruct (c (base t)) as [r s]. cbn in *. split; [by apply Hset|exact HQ].
Qed.

Section ReadOnly.
Context `{case_mapping : !CaseMapping}.

Lemma load_readonly (l : loc) (h : Py.store) : snd (Py.load l h) = h.
Proof. unfold Py.load. by destruct (h !! l). Qed.

Lemma truthy_readonly (v : val) (h : Py.store) : snd (Py.truthy v h) = h.
Proof.
  destruct v; try reflexivity. cbn. unfold bindM, Py.load.
  destruct (h !! l) as [[m|items]|]; reflexivity.
Qed.

Lemma is_list_readonly (v : val) (h : Py.store) : snd (Py.is_list v h) = h.
Proof.
  destruct v; try reflexivity. cbn. unfold bindM, Py.load.
  destruct (h !! l) as [[m|items]|]; reflexivity.
Qed.

Lemma contains_readonly (key : string) (v : val) (h : Py.store) :
  snd (Py.contains key v h) = h.
Proof.
  destruct v; try reflexivity. cbn. unfold bindM, Py.load.
  destruct (h !! l) as [[m|items]|]; reflexivity.
Qed.

Lemma fmt_readonly (v : val) (h : Py.store) : snd (Py.fmt v h) = h.
Proof.
  destruct v; try reflexivity. cbn. unfold bindM, Py.load.
  destruct (h !! l) as [[m|items]|]; reflexivity.
Qed.

Lemma upper_readonly {S} (v : val) (s : S) : snd (Py.upper v s) = s.
Proof. by destruct v. Qed.

End ReadOnly.

Section StoreRules.
Context (h0 : Py.store).
Local Abbreviation n := (length h0).
Local Abbreviation I := (grown_from h0).

Lemma grown_refl : I h0.
Proof.
  split; [done|]. split; [done|]. intros l o Hl Ho. apply lookup_lt_Some in Ho. lia.
Qed.

Lemma grown_frame (h : Py.store) (l : loc) (o : obj) :
  I h -> h0 !! l = Some o -> h !! l = Some o.
Proof. intros (Hold & _) Ho. rewrite Hold; [done|]. by eapply lookup_lt_Some. Qed.

Lemma keeps_alloc (o : obj) :
  obj_private n o -> keeps I (Py.alloc o) (fun l => n <= l).
Proof.
  intros Ho h (Hold & Hlen & Hnew). unfold Py.alloc. cbn. split.
  - split; [|split].
    + intros l Hl. rewrite lookup_app_l by lia. by apply Hold.
    + rewrite length_app. lia.
    + intros l o' Hl Hlook. destruct (decide (l < length h)) as [Hlt|Hge].
      * rewrite lookup_app_l in Hlook by done. by eapply Hnew.
      * rewrite lookup_app_r in Hlook by lia.
        destruct (l - length h) as [|k]; cbn in Hlook; [|done]. by injection Hlook as <-.
  - intros l [= <-]. exact Hlen.
Qed.

Lemma keeps_load (l : loc) : keeps I (Py.load l) (fun o => n <= l -> obj_private n o).
Proof.
  intros h Hh. unfold Py.load. destruct (h !! l) as [o|] eqn:Ho; cbn; (split; [done|]).
  - intros o' [= <-] Hl. destruct Hh as (_ & _ & Hnew). by eapply Hnew.
  - discriminate.
Qed.

Lemma keeps_write (l : loc) (o : obj) :
  n <= l -> obj_private n o -> keeps I (Py.write l o) (fun _ => True).
Proof.
  intros Hl Ho h (Hold & Hlen & Hnew). unfold Py.write. cbn. split; [|done].
  split; [|split].
  - intros l' Hl'. rewrite list_lookup_insert_ne by lia. by apply Hold.
  - by rewrite length_insert.
  - intros l' o' Hl' Hlook. destruct (decide (l = l')) as [<-|Hne].
    + apply list_lookup_insert_Some in Hlook as [(_ & <- & _)|(? & _)]; [done|lia].
    + rewrite list_lookup_insert_ne in Hlook by done. by eapply Hnew.
Qed.

Lemma keeps_pop (d : val) (key : string) (default : option val) :
  private n d -> from_option (private n) True default ->
  keeps I (Py.pop d key default) (private n).
Proof.
  intros Hd Hdef. destruct d; try apply keeps_raise. cbn in Hd. unfold Py.pop.
  eapply keeps_bind; [apply keeps_load|]. intros [m|items] Ho; [|apply keeps_raise].
  specialize (Ho Hd). cbn in Ho.
  destruct (m !! key) as [v|] eqn:Hv.
  - eapply keeps_bind.
    + apply keeps_write; [done|]. cbn. by apply map_Forall_delete.
    + intros _ _. apply keeps_ret. by eapply Ho.
  - destruct default; [by apply keeps_ret|apply keeps_raise].
Qed.

Lemma keeps_append (y : loc) (a : val) :
  n <= y -> private n a -> keeps I (Py.append y a) (fun _ => True).
Proof.
  intros Hy Ha. unfold Py.append.
  eapply keeps_bind; [apply keeps_load|]. intros [m|items] Ho; [apply keeps_raise|].
  apply keeps_write; [done|]. cbn. apply Forall_app. split; [by apply Ho|by constructor].
Qed.

Lemma keeps_setitem (y : loc) (key : string) (v : val) :
  n <= y -> private n v -> keeps I (Py.setitem y key v) (fun _ => True).
Proof.
  intros Hy Hv. unfold Py.setitem.
  eapply keeps_bind; [apply keeps_load|]. intros [m|items] Ho; [|apply keeps_raise].
  apply keeps_write; [done|]. cbn. apply map_Forall_insert_2; [done|by apply Ho].
Qed.

Lemma keeps_in_store {A} (c : M Py.store A) (Q : A -> Prop) :
  keeps I c Q -> keeps (copying h0) (Py.in_store c) Q.
Proof.
  apply keeps_inherited.
  - by intros s [Hs _].
  - intros h s [_ Hm] Hh. by split.
Qed.

Lemma keeps_memo_set (l y : loc) :
  n <= y -> keeps (copying h0) (Py.memo_set l y) (fun _ => True).
Proof.
  intros Hy s [Hh Hm]. unfold Py.memo_set, modifyM. cbn. split; [|done].
  split; [done|]. cbn. by apply map_Forall_insert_2.
Qed.

(** Whatever [deepcopy] is given, it writes to objects it has added, and
  what it returns refers to such an object. *)
Lemma keeps_deepcopy (depth : nat) (x : val) :
  keeps (copying h0) (Py.deepcopy depth x) (private n).
Proof.
  revert x. induction depth as [|depth IH]; intros x; [apply keeps_raise|].
  cbn [Py.deepcopy]. destruct x; try by apply keeps_ret.
  apply keeps_get. intros s0 [_ Hm0].
  destruct (snd s0 !! l) as [y|] eqn:Hmemo.
  { apply keeps_ret. cbn. by eapply Hm0. }
  eapply keeps_bind; [apply keeps_in_store, keeps_load|]. intros o _.
  destruct o as [m|items].
  - eapply keeps_bind; [apply keeps_in_store, keeps_alloc; cbn; apply map_Forall_empty|].
    intros y Hy. apply keeps_then; [by apply keeps_memo_set|]. intros _.
    apply keeps_then; [|intros _; by apply keeps_ret].
    apply (keeps_for_each _ _ _ (fun _ => True)); [by apply Forall_true|].
    intros kv _. eapply keeps_bind; [apply IH|]. intros v' Hv'.
    by apply keeps_in_store, keeps_setitem.
  - eapply keeps_bind; [apply keeps_in_store, keeps_alloc; cbn; constructor|].
    intros y Hy. apply keeps_then; [by apply keeps_memo_set|]. intros _.
    apply keeps_then; [|intros _; by apply keeps_ret].
    apply (keeps_for_each _ _ _ (fun _ => True)); [by apply Forall_true|].
    intros a _. eapply keeps_bind; [apply IH|]. intros a' Ha'.
    by apply keeps_in_store, keeps_append.
Qed.

Lemma keeps_deepcopy_new (depth : nat) (x : val) :
  keeps I (Py.deepcopy_new depth x) (private n).
Proof.
  intros h Hh. unfold Py.deepcopy_new.
  destruct (keeps_deepcopy depth x (h, ∅)) as [[Hh' _] HQ].
  { split; [done|]. cbn. apply map_Forall_empty. }
  destruct (Py.deepcopy depth x (h, ∅)) as [r s]. by split.
Qed.

End StoreRules.

Section IndexFrame.
Context `{!Parser} `{!Connection} `{case_mapping : !CaseMapping}.
Context (h0 : Py.store).
Local Abbreviation n := (length h0).
Local Abbreviation I := (grown_from h0).
Import CreateCollectionIndexStatement.

Ltac keeps_step :=
  lazymatch goal with
  | |- keeps _ (bindM _ _) _ => apply keeps_then; [|intros ?]
  | |- keeps _ (retM _) _ => by apply keeps_ret
  | |- keeps _ (raiseM _) _ => apply keeps_raise
  | |- keeps _ (if _ then _ else _) _ => apply keeps_if
  | |- keeps _ (Py.pop _ _ _) _ => eapply keeps_any, keeps_pop; [by eauto|done]
  | |- keeps _ (Py.truthy _) _ => apply keeps_readonly, truthy_readonly
  | |- keeps _ (Py.is_list _) _ => apply keeps_readonly, is_list_readonly
  | |- keeps _ (Py.contains _ _) _ => apply keeps_readonly, contains_readonly
  | |- keeps _ (Py.fmt _) _ => apply keeps_readonly, fmt_readonly
  | |- keeps _ (Py.upper _) _ => apply keeps_readonly, upper_readonly
  end.

Lemma keeps_raise_with {A} (template : string) (v : val) :
  keeps I (raise_with (A := A) template v) (fun _ => True).
Proof. unfold raise_with. repeat keeps_step. Qed.

Lemma keeps_check_index_name {S} (J : S -> Prop) (index_name : option string) :
  keeps J (check_index_name index_name) (fun _ => True).
Proof.
  unfold check_index_name. destruct index_name as [name|]; [|apply keeps_raise].
  destruct (expr name false) as [[e ?]|]; [|apply keeps_raise].
  destruct (Expr_is_ident e); [by apply keeps_ret|apply keeps_raise].
Qed.

Lemma keeps_target_names {S} (J : S -> Prop) (self : Statement) :
  keeps J (target_names self) (fun _ => True).
Proof.
  unfold target_names. destruct (_target self); [by apply keeps_ret|apply keeps_raise].
Qed.

Lemma keeps_new (depth : nat) (collection : option Target) (index_name : option string)
  (index_desc : val) :
  keeps I (new depth collection index_name index_desc) (owned h0).
Proof.
  unfold new. eapply keeps_bind; [apply keeps_deepcopy_new|]. intros copy Hcopy.
  eapply keeps_bind; [apply keeps_alloc; constructor|]. intros empty Hempty.
  eapply keeps_bind; [by apply keeps_pop|]. intros fields Hfields.
  by apply keeps_ret.
Qed.

Lemma keeps_constraint_of (index_type field_desc : val) :
  private n field_desc ->
  keeps I (constraint_of index_type field_desc) (fun _ => True).
Proof.
  intros Hfd. unfold constraint_of. apply keeps_try.
  - repeat keeps_step.
  - intros e k Hk. destruct e; try discriminate. injection Hk as <-. repeat keeps_step.
Qed.

Lemma keeps_constraints_of (index_type : val) (fields : list val) :
  Forall (private n) fields ->
  keeps I (constraints_of index_type fields) (fun _ => True).
Proof.
  induction 1 as [|fd fields Hfd Hfields IH]; [by apply keeps_ret|].
  cbn [constraints_of]. apply keeps_then; [by apply keeps_constraint_of|]. intros c.
  apply keeps_then; [exact IH|]. intros cs. by apply keeps_ret.
Qed.

Lemma keeps_iter (fields : val) :
  private n fields -> keeps I (iter fields) (Forall (private n)).
Proof.
  intros Hf. destruct fields; try apply keeps_raise. unfold iter.
  eapply keeps_bind; [apply keeps_load|]. intros [m|items] Ho; apply keeps_ret.
  - induction (map_to_list m); by constructor.
  - by apply Ho.
Qed.

Lemma keeps_no_inner_left (field_desc : val) :
  keeps I (no_inner_left field_desc) (fun _ => True).
Proof.
  unfold no_inner_left. apply keeps_then; [keeps_step|]. intros b.
  apply keeps_if; [apply keeps_raise_with|by apply keeps_ret].
Qed.

Lemma keeps_build_args (self : CreateCollectionIndexStatement) :
  owned h0 self -> keeps I (build_args self) (fun _ => True).
Proof.
  intros [Hdesc Hfields]. unfold build_args.
  apply keeps_then; [apply keeps_check_index_name|]. intros _.
  do 2 (apply keeps_then; [repeat keeps_step; apply keeps_raise_with|]; intros ?).
  do 2 (apply keeps_then; [repeat keeps_step|]; intros ?).
  apply keeps_then; [apply keeps_target_names|]. intros names.
  do 6 (apply keeps_then; [repeat keeps_step|]; intros ?).
  apply keeps_then; [repeat keeps_step; apply keeps_raise_with|]. intros _.
  eapply keeps_bind; [by apply keeps_iter|]. intros fields Hf.
  apply keeps_then; [by apply keeps_constraints_of|]. intros constraints.
  apply keeps_then; [|intros _; by apply keeps_ret].
  eapply keeps_for_each; [exact Hf|]. intros fd _. apply keeps_no_inner_left.
Qed.

Lemma keeps_execute (self : CreateCollectionIndexStatement) :
  owned h0 self -> keeps (fun w : world => I (fst w)) (execute self) (fun _ => True).
Proof.
  intros Hself. unfold execute. apply keeps_then.
  - unfold in_store. eapply keeps_inherited; [| |by apply keeps_build_args]; [done|].
    by intros h w _ Hh.
  - intros args w Hw. unfold on_connection, inherited, connection_call.
    destruct (_connection (index_statement self)); [|done].
    by destruct (transport _ (snd w)).
Qed.

Lemma grown_execute_times (k : nat) (self : CreateCollectionIndexStatement) (w : world) :
  owned h0 self -> I (fst w) -> I (fst (execute_times k self w)).
Proof.
  intros Hself. revert w. induction k as [|k IH]; intros w Hw; [exact Hw|].
  cbn [execute_times]. apply IH. by apply (keeps_execute self Hself w).
Qed.

End IndexFrame.

Section IndexFrameTheorem.
Context `{!Parser} `{!Connection} `{case_mapping : !CaseMapping}.
Import CreateCollectionIndexStatement.

(** C10. Let [h] be the store of the caller, with the index description
  anywhere in it. After the constructor, and after any number of calls of
  [execute] on the statement it returns, every object of [h] is as it was
  in [h]: the constructor copies, and the keys popped are popped from the
  copies. *)
Theorem index_description_not_mutated (depth : nat) (collection : option Target)
  (index_name : option string) (index_desc : val) (h : Py.store) (log : list call)
  (k : nat) :
  let r := new depth collection index_name index_desc h in
  (forall l o, h !! l = Some o -> snd r !! l = Some o)
  /\ (forall self, fst r = Return self ->
        forall l o, h !! l = Some o ->
                    fst (execute_times k self (snd r, log)) !! l = Some o).
Proof.
  intros r. subst r.
  destruct (keeps_new h depth collection index_name index_desc h (grown_refl h))
    as [Hgrown Hself].
  split.
  - intros l o. by apply grown_frame.
  - intros self Hret l o. apply grown_frame.
    apply grown_execute_times; [by apply Hself|done].
Qed.

End IndexFrameTheorem.

(** The description of [caller_store] goes through the constructor and
  [execute]: the call reaches the connection, the three objects of the
  caller are as they were, and the copies, at the addresses after them,
  have lost the keys that were popped. *)
Example index_description_copied :
  let r := CreateCollectionIndexStatement.new 10 (Some a_collection) (Some "idx") (VRef 2)
             caller_store in
  exists self,
    fst r = Return self
    /\ let r' := @CreateCollectionIndexStatement.execute toy_parser toy_connection ascii_case self
                   (snd r, []) in
       fst r' = Return 1
       /\ take 3 (fst (snd r')) = caller_store
       /\ drop 3 (fst (snd r')) = [ODict ∅; OList [VRef 5]; ODict ∅; OList []].
Proof. eexists. split; [reflexivity|]. vm_compute. repeat split. Qed.

(** ** Validation of the index description *)

Section Run.
Context {S : Type}.

Lemma bind_return {A B} (c : M S A) (k : A -> M S B) (s s' : S) (a : A) :
  c s = (Return a, s') -> bindM c k s = k a s'.
Proof. intros Hc. unfold bindM. by rewrite Hc. Qed.

Lemma bind_raise {A B} (c : M S A) (k : A -> M S B) (s s' : S) (e : exn) :
  c s = (Raise e, s') -> bindM c k s = (Raise e, s').
Proof. intros Hc. unfold bindM. by rewrite Hc. Qed.

Lemma raises_bind {A B} (c : M S A) (k : A -> M S B) (s : S) :
  (forall a s', c s = (Return a, s') -> raises (k a) s') -> raises (bindM c k) s.
Proof.
  intros Hk. unfold raises, bindM. destruct (c s) as [[a|e] s'] eqn:Hc.
  - by apply Hk.
  - by exists e.
Qed.

Lemma raises_raise {A} (e : exn) (s : S) : raises (raiseM (A := A) e) s.
Proof. by exists e. Qed.

Lemma raises_try {A} (c : M S A) (h : exn -> option (M S A)) (s : S) :
  raises c s ->
  (forall e k s', h e = Some k -> raises k s') ->
  raises (try_except c h) s.
Proof.
  intros [e He] Hh. unfold raises, try_except. destruct (c s) as [[a|e'] s']; cbn in He; [done|].
  destruct (h e') as [k|] eqn:Hk; [by eapply Hh|]. by exists e'.
Qed.

(** What can be said when a computation returned: both parts of a sequence
  did, a guard did not fire, and a computation that only reads left the
  state as it was. *)
Lemma bind_returned {A B} (c : M S A) (k : A -> M S B) (s s' : S) (b : B) :
  bindM c k s = (Return b, s') ->
  exists a s1, c s = (Return a, s1) /\ k a s1 = (Return b, s').
Proof.
  unfold bindM. destruct (c s) as [[a|e] s1]; [|discriminate]. intros Hk. by exists a, s1.
Qed.

Lemma guard_returned (b : bool) (c : M S unit) (s s' : S) (u : unit) :
  (forall r s1, c s = (r, s1) -> exists e, r = Raise e) ->
  (if b then c else retM tt) s = (Return u, s') -> b = false /\ s' = s.
Proof.
  intros Hc. destruct b; [|by intros [= _ ->]].
  intros Hr. by destruct (Hc _ _ Hr).
Qed.

Lemma state_readonly {A} (c : M S A) (s s' : S) (r : outcome A) :
  snd (c s) = s -> c s = (r, s') -> s' = s.
Proof. intros Hro Hc. rewrite Hc in Hro. by cbn in Hro. Qed.

End Run.

Section StoreEq.
Implicit Types (h : Py.store) (l : loc) (m : gmap string val).

Lemma load_eq h l o : h !! l = Some o -> Py.load l h = (Return o, h).
Proof. intros Ho. unfold Py.load. by rewrite Ho. Qed.

Lemma pop_dict h l m key default :
  h !! l = Some (ODict m) ->
  Py.pop (VRef l) key default h
  = match m !! key with
    | Some v => (Return v, <[l := ODict (delete key m)]> h)
    | None =>
        match default with
        | Some v => (Return v, h)
        | None => (Raise (KeyError key), h)
        end
    end.
Proof.
  intros Ho. unfold Py.pop. rewrite (bind_return _ _ _ _ _ (load_eq _ _ _ Ho)).
  destruct (m !! key); [reflexivity|]. by destruct default.
Qed.

Lemma contains_dict h l m key :
  h !! l = Some (ODict m) ->
  Py.contains key (VRef l) h = (Return (bool_decide (is_Some (m !! key))), h).
Proof. intros Ho. unfold Py.contains. by rewrite (bind_return _ _ _ _ _ (load_eq _ _ _ Ho)). Qed.

Lemma truthy_dict h l m :
  h !! l = Some (ODict m) ->
  Py.truthy (VRef l) h = (Return (negb (bool_decide (m = ∅))), h).
Proof. intros Ho. unfold Py.truthy. by rewrite (bind_return _ _ _ _ _ (load_eq _ _ _ Ho)). Qed.

Lemma truthy_list h l items :
  h !! l = Some (OList items) ->
  Py.truthy (VRef l) h = (Return (negb (bool_decide (items = []))), h).
Proof. intros Ho. unfold Py.truthy. by rewrite (bind_return _ _ _ _ _ (load_eq _ _ _ Ho)). Qed.

Lemma is_list_list h l items :
  h !! l = Some (OList items) -> Py.is_list (VRef l) h = (Return true, h).
Proof. intros Ho. unfold Py.is_list. by rewrite (bind_return _ _ _ _ _ (load_eq _ _ _ Ho)). Qed.

Lemma fmt_dict h l m :
  h !! l = Some (ODict m) -> Py.fmt (VRef l) h = (Return (FDict m), h).
Proof. intros Ho. unfold Py.fmt. by rewrite (bind_return _ _ _ _ _ (load_eq _ _ _ Ho)). Qed.

Lemma lookup_written h l o o' : h !! l = Some o -> <[l := o']> h !! l = Some o'.
Proof. intros Ho. apply list_lookup_insert_eq. by eapply lookup_lt_Some. Qed.

Lemma truthy_cases v h :
  (exists b, Py.truthy v h = (Return b, h)) \/ (exists e, Py.truthy v h = (Raise e, h)).
Proof.
  pose proof (truthy_readonly v h) as Hro.
  destruct (Py.truthy v h) as [[b|e] h']; cbn in Hro; subst; eauto.
Qed.

Lemma pop_cases d key default h :
  (exists e, Py.pop d key default h = (Raise e, h))
  \/ (exists v, Py.pop d key default h = (Return v, h)
                /\ forall l m, d = VRef l -> h !! l = Some (ODict m) -> m !! key = None)
  \/ (exists l m v, d = VRef l /\ h !! l = Some (ODict m) /\ m !! key = Some v
                    /\ Py.pop d key default h = (Return v, <[l := ODict (delete key m)]> h)).
Proof.
  destruct d; try (left; by eexists).
  destruct (h !! l) as [[m|items]|] eqn:Ho.
  - rewrite (pop_dict _ _ _ _ _ Ho). destruct (m !! key) as [v|] eqn:Hv.
    + right; right. by exists l, m, v.
    + destruct default as [v|]; [|left; by eexists].
      right; left. exists v. split; [done|]. intros l' m' [= <-] Hm'. congruence.
  - left. unfold Py.pop. rewrite (bind_return _ _ _ _ _ (load_eq _ _ _ Ho)). by eexists.
  - left. unfold Py.pop, bindM, Py.load. rewrite Ho. by eexists.
Qed.

End StoreEq.

Section Visit.
Context `{!Parser} `{case_mapping : !CaseMapping}.
Import CreateCollectionIndexStatement.
Implicit Types (h : Py.store) (l : loc) (m fm : gmap string val).

Lemma raises_pop h l m key default {B} (k : val -> M Py.store B) :
  h !! l = Some (ODict m) ->
  (forall v h',
      h' !! l = Some (ODict (delete key m)) ->
      m !! key = Some v \/ (m !! key = None /\ default = Some v) ->
      raises (k v) h') ->
  raises (bindM (Py.pop (VRef l) key default) k) h.
Proof.
  intros Ho Hk. apply raises_bind. intros v h'. rewrite (pop_dict _ _ _ _ _ Ho).
  destruct (m !! key) as [v'|] eqn:Hv.
  - intros [= <- <-]. apply Hk; [by eapply lookup_written|by left].
  - destruct default as [v'|]; [|done]. intros [= <- <-].
    apply Hk; [by rewrite delete_id|by right].
Qed.

Lemma raises_contains h l m key {B} (k : bool -> M Py.store B) :
  h !! l = Some (ODict m) ->
  raises (k (bool_decide (is_Some (m !! key)))) h ->
  raises (bindM (Py.contains key (VRef l)) k) h.
Proof.
  intros Ho Hk. apply raises_bind. intros b h'. rewrite (contains_dict _ _ _ _ Ho).
  by intros [= <- <-].
Qed.

Lemma raises_truthy v h {B} (k : bool -> M Py.store B) :
  (forall b, raises (k b) h) -> raises (bindM (Py.truthy v) k) h.
Proof.
  intros Hk. apply raises_bind. intros b h' Hb.
  destruct (truthy_cases v h) as [[b' Hb']|[e He]]; rewrite Hb in *; [|done].
  injection Hb' as <- <-. apply Hk.
Qed.

Lemma raises_upper ty h {B} (k : string -> M Py.store B) :
  (forall s, ty = VStr s -> raises (k (PyStr.upper s)) h) ->
  raises (bindM (Py.upper ty) k) h.
Proof.
  intros Hk. apply raises_bind. intros u h'. destruct ty; try done.
  intros [= <- <-]. by apply Hk.
Qed.

Lemma raises_ret {A B} (a : A) h (k : A -> M Py.store B) :
  raises (k a) h -> raises (bindM (retM a) k) h.
Proof. intros Hk. apply raises_bind. by intros a' h' [= <- <-]. Qed.

Lemma truthy_falsy v h : falsy v = true -> Py.truthy v h = (Return false, h).
Proof.
  destruct v; cbn; try done.
  - by intros ->%negb_true_iff.
  - by intros ->.
  - by intros ->.
Qed.

Lemma raises_handler (field_desc : val) e k h :
  match e with
  | KeyError key =>
      Some (d <- Py.fmt field_desc ;;
            raiseM (A := gmap string val) (ProgrammingError ERR_INNER_MEMBER [FKeyError key; d]))
  | _ => None
  end = Some k ->
  raises k h.
Proof.
  destruct e; try done. intros [= <-]. apply raises_bind. intros; apply raises_raise.
Qed.

Lemma popped_required fm (v : val) :
  not_required fm ->
  delete "type" (delete "field" fm) !! "required" = Some v
  \/ (delete "type" (delete "field" fm) !! "required" = None /\ Some (VBool false) = Some v) ->
  falsy v = true.
Proof.
  unfold not_required. intros Hnr [Hv|[_ [= <-]]]; [|done].
  rewrite !lookup_delete_ne in Hv by done. by rewrite Hv in Hnr.
Qed.

(** A visit to an entry without [required], under an index of type
  SPATIAL, raises. *)
Lemma visit_not_required_raises h l fm (s : string) :
  h !! l = Some (ODict fm) -> not_required fm -> PyStr.upper s = "SPATIAL" ->
  raises (constraint_of (VStr s) (VRef l)) h.
Proof.
  intros Ho Hnr Hs. unfold constraint_of.
  apply raises_try; [|intros e k h'; apply raises_handler].
  eapply raises_pop; [exact Ho|]. intros member h1 H1 _.
  eapply raises_pop; [exact H1|]. intros type h2 H2 _.
  eapply raises_pop; [exact H2|]. intros required h3 H3 Hreq.
  apply (popped_required _ _ Hnr) in Hreq.
  apply raises_upper. intros s' [= <-]. rewrite Hs. cbn [String.eqb Ascii.eqb Bool.eqb].
  apply raises_bind. intros b h4 Hb. unfold bindM in Hb.
  rewrite (truthy_falsy _ _ Hreq) in Hb. injection Hb as <- <-.
  apply raises_bind. intros; done.
Qed.

(** A visit to an entry of type GEOJSON (or one whose type was popped
  already), under an index of type INDEX, raises. *)
Lemma visit_geojson_raises h l fm (s : string) :
  h !! l = Some (ODict fm) ->
  fm !! "type" = None \/ fm !! "type" = Some (VStr "GEOJSON") ->
  PyStr.upper s = "INDEX" ->
  raises (constraint_of (VStr s) (VRef l)) h.
Proof.
  intros Ho Hty Hs. unfold constraint_of.
  apply raises_try; [|intros e k h'; apply raises_handler].
  eapply raises_pop; [exact Ho|]. intros member h1 H1 _.
  eapply raises_pop; [exact H1|]. intros type h2 H2 Htype.
  destruct Htype as [Htype|[_ [=]]]. rewrite lookup_delete_ne in Htype by done.
  destruct Hty as [Hty|Hty]; rewrite Hty in Htype; [done|]. injection Htype as <-.
  eapply raises_pop; [exact H2|]. intros required h3 H3 _.
  apply raises_upper. intros s' [= <-]. rewrite Hs. cbn [String.eqb Ascii.eqb Bool.eqb].
  apply raises_ret. apply raises_ret.
  apply raises_upper. intros s' [= <-]. rewrite Hs.
  apply raises_bind. intros; done.
Qed.

(** A visit to an entry with a [collation] whose type does not start with
  TEXT raises, whatever the type of the index. *)
Lemma visit_collation_raises h l fm (index_type : val) :
  h !! l = Some (ODict fm) -> is_Some (fm !! "collation") -> not_text fm ->
  raises (constraint_of index_type (VRef l)) h.
Proof.
  intros Ho Hcoll Hnt. unfold constraint_of.
  apply raises_try; [|intros e k h'; apply raises_handler].
  eapply raises_pop; [exact Ho|]. intros member h1 H1 _.
  eapply raises_pop; [exact H1|]. intros type h2 H2 Htype.
  destruct Htype as [Htype|[_ [=]]]. rewrite lookup_delete_ne in Htype by done.
  eapply raises_pop; [exact H2|]. intros required h3 H3 _.
  apply raises_upper. intros s _.
  apply raises_bind. intros nr h4 Hnr.
  assert (h4 = h3) as ->.
  { destruct (String.eqb (PyStr.upper s) "SPATIAL"); [|by injection Hnr as <- <-].
    unfold bindM in Hnr. destruct (truthy_cases required h3) as [[b Hb]|[e He]].
    - rewrite Hb in Hnr. by injection Hnr.
    - by rewrite He in Hnr. }
  apply raises_bind. intros [] h5 Hif.
  assert (h5 = h3) as ->. { destruct nr; [done|by injection Hif]. }
  apply raises_upper. intros s' _.
  apply raises_bind. intros [] h6 Hif'.
  assert (h6 = h3) as ->. { destruct (_ && _); [done|by injection Hif']. }
  eapply raises_contains; [exact H3|].
  rewrite bool_decide_eq_true_2 by (by rewrite !lookup_delete_ne).
  apply raises_bind. intros c h7 Hc. exfalso. revert Hc.
  unfold not_text in Hnt. rewrite Htype in Hnt.
  destruct type; try done. cbn. unfold bindM, retM. cbn. by rewrite Hnt.
Qed.
End Visit.

Section Loop.
Context `{!Parser} `{case_mapping : !CaseMapping}.
Import CreateCollectionIndexStatement.
Implicit Types (h : Py.store) (l : loc) (m fm : gmap string val).

Lemma keeps_pop_elsewhere l (o : option obj) (d : val) key default :
  d <> VRef l ->
  keeps (fun h => h !! l = o) (Py.pop d key default) (fun _ => True).
Proof.
  intros Hd. destruct d as [| | | |l']; try apply keeps_raise. unfold Py.pop.
  apply keeps_then; [apply keeps_readonly, load_readonly|]. intros [m|items]; [|apply keeps_raise].
  destruct (m !! key); [|destruct default; [by apply keeps_ret|apply keeps_raise]].
  apply keeps_then; [|intros _; by apply keeps_ret].
  intros h Hh. split; [|done]. unfold Py.write. cbn.
  rewrite list_lookup_insert_ne; [done|congruence].
Qed.

Ltac keeps_step :=
  lazymatch goal with
  | |- keeps _ (bindM _ _) _ => apply keeps_then; [|intros ?]
  | |- keeps _ (retM _) _ => by apply keeps_ret
  | |- keeps _ (raiseM _) _ => apply keeps_raise
  | |- keeps _ (if _ then _ else _) _ => apply keeps_if
  | |- keeps _ (Py.pop _ _ _) _ => by apply keeps_pop_elsewhere
  | |- keeps _ (Py.truthy _) _ => apply keeps_readonly, truthy_readonly
  | |- keeps _ (Py.is_list _) _ => apply keeps_readonly, is_list_readonly
  | |- keeps _ (Py.contains _ _) _ => apply keeps_readonly, contains_readonly
  | |- keeps _ (Py.fmt _) _ => apply keeps_readonly, fmt_readonly
  | |- keeps _ (Py.upper _) _ => apply keeps_readonly, upper_readonly
  end.

(** A visit writes to the entry it visits only. *)
Lemma visit_frame (index_type field_desc : val) h l :
  field_desc <> VRef l ->
  snd (constraint_of index_type field_desc h) !! l = h !! l.
Proof.
  intros Hfd.
  assert (Hk : keeps (fun h' => h' !! l = h !! l) (constraint_of index_type field_desc)
                 (fun _ => True)).
  { unfold constraint_of. apply keeps_try.
    - repeat keeps_step.
    - intros e k Hk. destruct e; try discriminate. injection Hk as <-. repeat keeps_step. }
  by apply Hk.
Qed.

(** The loop raises when a visit to one of its entries does, in the store
  as the loop finds it. *)
Lemma loop_raises (index_type : val) (fields : list val) h l (P : gmap string val -> Prop) :
  (forall h' fm, h' !! l = Some (ODict fm) -> P fm ->
                 raises (constraint_of index_type (VRef l)) h') ->
  VRef l ∈ fields ->
  (exists fm, h !! l = Some (ODict fm) /\ P fm) ->
  raises (constraints_of index_type fields) h.
Proof.
  intros Hvisit Hin. revert h.
  induction fields as [|fd fields IH]; intros h Hl; [by apply elem_of_nil in Hin|].
  cbn [constraints_of]. apply raises_bind. intros c h' Hc.
  destruct (decide (fd = VRef l)) as [->|Hne].
  - destruct Hl as (fm & Hfm & HP). destruct (Hvisit h fm Hfm HP) as [e He].
    by rewrite Hc in He.
  - apply elem_of_cons in Hin as [Heq|Hin]; [congruence|].
    apply raises_bind. intros cs h'' Hcs. exfalso.
    destruct (IH Hin h') as [e He].
    + pose proof (visit_frame index_type fd h l Hne) as Hfr. rewrite Hc in Hfr. cbn in Hfr.
      by rewrite Hfr.
    + by rewrite Hcs in He.
Qed.

End Loop.

Section Build.
Context `{!Parser} `{!Connection} `{case_mapping : !CaseMapping}.
Import CreateCollectionIndexStatement.
Implicit Types (h : Py.store) (l : loc) (m fm top : gmap string val).

Lemma raises_step {S A B} (c : M S A) (k : A -> M S B) (s s' : S) (a : A) :
  c s = (Return a, s') -> raises (k a) s' -> raises (bindM c k) s.
Proof. intros Hc Hk. unfold raises. by rewrite (bind_return _ _ _ _ _ Hc). Qed.

Lemma raises_pop_framed h l m key default {B} (k : val -> M Py.store B) :
  h !! l = Some (ODict m) ->
  (forall v h',
      h' !! l = Some (ODict (delete key m)) ->
      (forall l', l' <> l -> h' !! l' = h !! l') ->
      m !! key = Some v \/ (m !! key = None /\ default = Some v) ->
      raises (k v) h') ->
  raises (bindM (Py.pop (VRef l) key default) k) h.
Proof.
  intros Ho Hk. apply raises_bind. intros v h'. rewrite (pop_dict _ _ _ _ _ Ho).
  destruct (m !! key) as [v'|] eqn:Hv.
  - intros [= <- <-]. apply Hk; [by eapply lookup_written| |by left].
    intros l' Hl'. by rewrite list_lookup_insert_ne.
  - destruct default as [v'|]; [|done]. intros [= <- <-].
    apply Hk; [by rewrite delete_id|done|by right].
Qed.

Lemma check_index_name_state {S} (index_name : option string) (s : S) :
  snd (check_index_name index_name s) = s.
Proof.
  unfold check_index_name. destruct index_name as [name|]; [|done].
  destruct (expr name false) as [[e ?]|]; [|done]. by destruct (Expr_is_ident e).
Qed.

Lemma target_names_state {S} (self : Statement) (s : S) :
  snd (target_names self s) = s.
Proof. unfold target_names. by destruct (_target self). Qed.

Lemma raises_readonly {S A B} (c : M S A) (k : A -> M S B) (s : S) :
  snd (c s) = s -> (forall a, raises (k a) s) -> raises (bindM c k) s.
Proof.
  intros Hro Hk. apply raises_bind. intros a s' Hc. rewrite Hc in Hro. cbn in Hro.
  subst. apply Hk.
Qed.

Lemma iter_list h l items :
  h !! l = Some (OList items) -> iter (VRef l) h = (Return items, h).
Proof. intros Ho. unfold iter. by rewrite (bind_return _ _ _ _ _ (load_eq _ _ _ Ho)). Qed.

Lemma raises_raise_with {A B} template v h (k : A -> M Py.store B) :
  raises (bindM (raise_with template v) k) h.
Proof.
  apply raises_bind. intros a h' Hc. exfalso. revert Hc. unfold raise_with, bindM.
  pose proof (fmt_readonly v h). by destruct (Py.fmt v h) as [[]].
Qed.

(** The checks before the loop either raise or, when there are entries and
  no key is left in the description, leave the loop a store [h'] as below;
  so [build_args] raises when the loop does. *)
Lemma build_args_raises h self top fields :
  describes h self top fields ->
  (fields <> [] -> delete "unique" (delete "type" top) = ∅ ->
   forall h',
     (forall l, _index_desc self <> VRef l -> h' !! l = h !! l) ->
     (forall l, _index_desc self = VRef l -> h' !! l = Some (ODict ∅)) ->
     raises (constraints_of (index_type top) fields) h') ->
  raises (build_args self) h.
Proof.
  intros (d & lf & Hd & Hdo & Hlf & Hlfo) Hloop. unfold build_args.
  rewrite Hd, Hlf.
  apply raises_readonly; [apply check_index_name_state|]. intros _.
  eapply raises_step; [by apply truthy_list|].
  destruct (decide (fields = [])) as [Hempty|Hne].
  { rewrite bool_decide_eq_true_2 by done. cbn [negb]. apply raises_raise_with. }
  rewrite bool_decide_eq_false_2 by done. cbn [negb]. apply raises_ret.
  eapply raises_step; [by eapply is_list_list|]. cbn [negb]. apply raises_ret.
  apply raises_readonly; [apply target_names_state|]. intros names.
  eapply raises_step; [by apply contains_dict|].
  assert (Hlfd : lf <> d) by congruence.
  apply raises_bind. intros type h1 Htype.
  assert (type = index_type top /\ h1 !! d = Some (ODict (delete "type" top))
          /\ forall l', l' <> d -> h1 !! l' = h !! l') as (-> & Hd1 & Hfr1).
  { unfold index_type. destruct (top !! "type") as [v|] eqn:Hv.
    - rewrite bool_decide_eq_true_2 in Htype by done.
      rewrite (pop_dict _ _ _ _ _ Hdo), Hv in Htype. injection Htype as <- <-.
      split; [done|]. split; [by eapply lookup_written|].
      intros l' Hl'. by rewrite list_lookup_insert_ne.
    - rewrite bool_decide_eq_false_2 in Htype by (by intros [? ?]).
      injection Htype as <- <-. by rewrite delete_id. }
  clear Htype.
  eapply raises_pop_framed; [exact Hd1|]. intros unique h2 Hd2 Hfr2 _.
  apply raises_truthy. intros is_unique. destruct is_unique.
  { apply raises_bind. intros; done. }
  apply raises_ret.
  eapply raises_step; [by apply truthy_dict|].
  destruct (decide (delete "unique" (delete "type" top) = ∅)) as [Hrest|Hrest].
  2:{ rewrite bool_decide_eq_false_2 by done. cbn [negb]. apply raises_raise_with. }
  rewrite bool_decide_eq_true_2 by done. cbn [negb]. apply raises_ret.
  eapply raises_step.
  { apply iter_list. rewrite Hfr2, Hfr1 by done. exact Hlfo. }
  apply raises_bind. intros cs h3 Hcs. exfalso.
  destruct (Hloop Hne Hrest h2) as [e He].
  - intros l Hl. rewrite Hfr2, Hfr1; [done| |]; congruence.
  - intros l Hl. rewrite Hd in Hl. injection Hl as <-. by rewrite <- Hrest.
  - by rewrite Hcs in He.
Qed.

Lemma execute_rejected self h log :
  raises (build_args self) h -> rejected self h log.
Proof.
  intros [e He]. unfold rejected, execute, bindM, in_store, inherited. cbn [fst snd].
  destruct (build_args self h) as [[a|e'] h']; cbn in He; [done|]. by exists e', h'.
Qed.


(** The loop obligation of [build_args_raises], for a property of entries
  that makes a visit raise and that an emptied entry has as well. *)
Lemma rejected_at_entry (P : gmap string val -> Prop) self h log top fields fm :
  describes h self top fields -> has_entry h fields fm -> P fm -> P ∅ ->
  (forall h' l fm', h' !! l = Some (ODict fm') -> P fm' ->
                    raises (constraint_of (index_type top) (VRef l)) h') ->
  rejected self h log.
Proof.
  intros Hdesc (l & Hin & Hl) HP Hempty Hvisit.
  apply execute_rejected. eapply build_args_raises; [exact Hdesc|].
  intros _ _ h' Hfr Hd'. apply (loop_raises _ _ _ l P); [intros h'' fm' ? ?; by eapply Hvisit|done|].
  destruct (decide (_index_desc self = VRef l)) as [Heq|Hne].
  - exists ∅. split; [by apply Hd'|done].
  - exists fm. split; [by rewrite Hfr|done].
Qed.

Lemma spatial_not_required_rejected self h log top fields fm :
  describes h self top fields -> type_named (index_type top) "SPATIAL" ->
  has_entry h fields fm -> not_required fm ->
  rejected self h log.
Proof.
  intros Hdesc (s & Hty & Hs) Hentry Hnr.
  apply (rejected_at_entry not_required self h log top fields fm); try done.
  intros h' l fm' Hl HP. rewrite Hty. by eapply visit_not_required_raises.
Qed.

Lemma index_geojson_rejected self h log top fields fm :
  describes h self top fields -> type_named (index_type top) "INDEX" ->
  has_entry h fields fm -> fm !! "type" = Some (VStr "GEOJSON") ->
  rejected self h log.
Proof.
  intros Hdesc (s & Hty & Hs) Hentry Hgeo.
  apply (rejected_at_entry
           (fun fm => fm !! "type" = None \/ fm !! "type" = Some (VStr "GEOJSON"))
           self h log top fields fm); try done; [by right|by left|].
  intros h' l fm' Hl HP. rewrite Hty. by eapply visit_geojson_raises.
Qed.

Lemma collation_not_text_rejected self h log top fields fm :
  describes h self top fields ->
  has_entry h fields fm -> is_Some (fm !! "collation") -> not_text fm ->
  rejected self h log.
Proof.
  intros Hdesc (l & Hin & Hl) Hcoll Hnt.
  apply execute_rejected. eapply build_args_raises; [exact Hdesc|].
  intros _ Hrest h' Hfr Hd'.
  apply (loop_raises _ _ _ l (fun fm => is_Some (fm !! "collation") /\ not_text fm)).
  - intros h'' fm' Hl' [? ?]. by eapply visit_collation_raises.
  - done.
  - exists fm. split; [|done]. rewrite Hfr; [done|]. intros Heq.
    destruct Hdesc as (d & lf & Hd & Hdo & _). rewrite Hd in Heq. injection Heq as <-.
    rewrite Hdo in Hl. injection Hl as <-.
    destruct Hcoll as [c Hc].
    assert (delete "unique" (delete "type" top) !! "collation" = Some c) as Hc'
      by (by rewrite !lookup_delete_ne).
    by rewrite Hrest in Hc'.
Qed.

Lemma unidentified_rejected self h log top fields key (v : val) :
  describes h self top fields ->
  top !! key = Some v -> key <> "type" -> key <> "unique" ->
  rejected self h log.
Proof.
  intros Hdesc Hkey Hty Hun.
  apply execute_rejected. eapply build_args_raises; [exact Hdesc|].
  intros _ Hrest. exfalso.
  assert (delete "unique" (delete "type" top) !! key = Some v) as Hk
    by (by rewrite !lookup_delete_ne).
  by rewrite Hrest in Hk.
Qed.
End Build.

Section Wp.
Context {S : Type}.

Lemma wp_eq {A} (c : M S A) (s s' : S) (r : outcome A) post :
  c s = (r, s') -> post r s' -> wp c s post.
Proof. intros Hc Hp. unfold wp. by rewrite Hc. Qed.

Lemma wp_ret {A} (a : A) (s : S) post : post (Return a) s -> wp (retM a) s post.
Proof. done. Qed.

Lemma wp_raise {A} (e : exn) (s : S) (post : outcome A -> S -> Prop) :
  post (Raise e) s -> wp (raiseM e) s post.
Proof. done. Qed.

Lemma wp_bind {A B} (c : M S A) (k : A -> M S B) (s : S) post :
  wp c s (fun r s' =>
            match r with
            | Return a => wp (k a) s' post
            | Raise e => post (Raise e) s'
            end) ->
  wp (bindM c k) s post.
Proof. unfold wp, bindM. by destruct (c s) as [[a|e] s']. Qed.

Lemma wp_try {A} (c : M S A) (handler : exn -> option (M S A)) (s : S) post :
  wp c s (fun r s' =>
            match r with
            | Return a => post (Return a) s'
            | Raise e =>
                match handler e with
                | Some k => wp k s' post
                | None => post (Raise e) s'
                end
            end) ->
  wp (try_except c handler) s post.
Proof.
  unfold wp, try_except. destruct (c s) as [[a|e] s']; [done|]. cbn.
  by destruct (handler e).
Qed.

Lemma wp_mono {A} (c : M S A) (s : S) (post post' : outcome A -> S -> Prop) :
  wp c s post -> (forall r s', post r s' -> post' r s') -> wp c s post'.
Proof. unfold wp. auto. Qed.

End Wp.

Section WpStore.
Context `{case_mapping : !CaseMapping}.
Implicit Types (h : Py.store) (l : loc) (m : gmap string val).

Lemma wp_pop h l m key default post :
  h !! l = Some (ODict m) ->
  (forall h', h' !! l = Some (ODict (delete key m)) ->
     match m !! key, default with
     | Some v, _ => post (Return v) h'
     | None, Some v => post (Return v) h'
     | None, None => post (Raise (KeyError key)) h'
     end) ->
  wp (Py.pop (VRef l) key default) h post.
Proof.
  intros Ho Hp. unfold wp. rewrite (pop_dict _ _ _ _ _ Ho).
  specialize (Hp (<[l := ODict (delete key m)]> h) (lookup_written _ _ _ _ Ho)) as Hw.
  specialize (Hp h).
  destruct (m !! key) as [v|] eqn:Hv; [done|].
  rewrite delete_id in Hp by done. specialize (Hp Ho). by destruct default.
Qed.

Lemma truthy_scalar v h : scalar v -> Py.truthy v h = (Return (negb (falsy v)), h).
Proof. destruct v; try done. cbn. intros _. by rewrite negb_involutive. Qed.

(** The three optional members of an entry are handled alike. *)
Lemma wp_member h l m key (guard : string -> bool) (err : exn) (t : string)
    (c : gmap string val) post :
  h !! l = Some (ODict m) ->
  (m !! key = None -> post (Return c) h) ->
  (is_Some (m !! key) -> guard (PyStr.upper t) = false -> post (Raise err) h) ->
  (forall v h', m !! key = Some v -> guard (PyStr.upper t) = true ->
                h' !! l = Some (ODict (delete key m)) ->
                post (Return (<[key := v]> c)) h') ->
  wp (has <- Py.contains key (VRef l) ;;
      if has then
        type_upper <- Py.upper (VStr t) ;;
        if negb (guard type_upper) then raiseM err
        else v <- Py.pop (VRef l) key None ;; retM (<[key := v]> c)
      else retM c) h post.
Proof.
  intros Ho Habsent Hbad Hgood. apply wp_bind.
  eapply wp_eq; [by apply contains_dict|].
  destruct (m !! key) as [v|] eqn:Hv.
  - rewrite bool_decide_eq_true_2 by done. apply wp_bind, wp_ret.
    destruct (guard (PyStr.upper t)) eqn:Hg; cbn [negb].
    + apply wp_bind. eapply wp_pop; [exact Ho|]. intros h' Hh'. rewrite Hv.
      apply wp_ret. by apply Hgood.
    + apply wp_raise. by apply Hbad.
  - rewrite bool_decide_eq_false_2 by (by intros [? ?]). apply wp_ret. by apply Habsent.
Qed.

Lemma wp_member_then h l m key (guard : string -> bool) (err : exn) (t : string)
    (c : gmap string val) {B} (k : gmap string val -> M Py.store B) post :
  h !! l = Some (ODict m) ->
  (m !! key = None -> wp (k c) h post) ->
  (is_Some (m !! key) -> guard (PyStr.upper t) = false -> post (Raise err) h) ->
  (forall v h', m !! key = Some v -> guard (PyStr.upper t) = true ->
                h' !! l = Some (ODict (delete key m)) ->
                wp (k (<[key := v]> c)) h' post) ->
  wp (has <- Py.contains key (VRef l) ;;
      c' <- (if has then
               type_upper <- Py.upper (VStr t) ;;
               if negb (guard type_upper) then raiseM err
               else v <- Py.pop (VRef l) key None ;; retM (<[key := v]> c)
             else retM c) ;;
      k c') h post.
Proof.
  intros Ho Habsent Hbad Hgood. apply wp_bind.
  eapply wp_eq; [by apply contains_dict|].
  destruct (m !! key) as [v|] eqn:Hv.
  - rewrite bool_decide_eq_true_2 by done. apply wp_bind, wp_bind, wp_ret.
    destruct (guard (PyStr.upper t)) eqn:Hg; cbn [negb].
    + apply wp_bind. eapply wp_pop; [exact Ho|]. intros h' Hh'. rewrite Hv.
      apply wp_ret. by apply Hgood.
    + apply wp_raise. by apply Hbad.
  - rewrite bool_decide_eq_false_2 by (by intros [? ?]). apply wp_bind, wp_ret.
    by apply Habsent.
Qed.

End WpStore.

Section VisitWp.
Context `{!Parser} `{case_mapping : !CaseMapping}.
Import CreateCollectionIndexStatement.
Implicit Types (h : Py.store) (l : loc) (m fm : gmap string val).

Ltac sub_entry :=
  eexists; split; [eassumption|]; repeat (etrans; [apply delete_subseteq|]); done.

Ltac raise_entry := apply wp_raise; split; [sub_entry|by do 2 eexists].

Lemma typed_entry_sub fm fm' : typed_entry fm -> fm' ⊆ fm -> typed_entry fm'.
Proof.
  intros [Hty Hreq] Hsub. split.
  - destruct (fm' !! "type") as [v|] eqn:Hv; [|done].
    by rewrite (lookup_weaken _ _ _ _ Hv Hsub) in Hty.
  - destruct (fm' !! "required") as [v|] eqn:Hv; [|done].
    by rewrite (lookup_weaken _ _ _ _ Hv Hsub) in Hreq.
Qed.

(** A visit to a typed entry leaves an entry with some of its keys, and
  raises validation errors only. *)
Lemma visit_validation h l fm (s : string) :
  h !! l = Some (ODict fm) -> typed_entry fm ->
  wp (constraint_of (VStr s) (VRef l)) h
     (fun r h' =>
        (exists fm', h' !! l = Some (ODict fm') /\ fm' ⊆ fm)
        /\ match r with
           | Raise e => validation_error e
           | Return _ => True
           end).
Proof.
  intros Ho [Hty Hreq]. unfold constraint_of. apply wp_try.
  eapply (wp_mono _ _
            (fun r h' =>
               (exists fm', h' !! l = Some (ODict fm') /\ fm' ⊆ fm)
               /\ match r with
                  | Raise (KeyError _) | Return _ => True
                  | Raise e => validation_error e
                  end)).
  2:{ intros [c|e] h' [(fm' & Hfm' & Hsub) He]; [by eauto|].
      destruct e; try (split; [by eauto|done]).
      apply wp_bind. eapply wp_eq; [by apply fmt_dict|].
      apply wp_raise. split; [by eauto|]. by do 2 eexists. }
  apply wp_bind. eapply wp_pop; [exact Ho|]. intros h1 H1.
  destruct (fm !! "field") as [member|] eqn:Hfield; [|split; [sub_entry|done]].
  apply wp_bind. eapply wp_pop; [exact H1|]. intros h2 H2.
  rewrite lookup_delete_ne by done.
  destruct (fm !! "type") as [type|] eqn:Htype; [|split; [sub_entry|done]].
  destruct type as [| | |t|]; try done.
  apply wp_bind. eapply wp_pop; [exact H2|]. intros h3 H3.
  rewrite !lookup_delete_ne by done.
  assert (exists required, scalar required /\
            ((fm !! "required" = None /\ required = VBool false)
             \/ fm !! "required" = Some required)) as (required & Hsc & Hrq).
  { destruct (fm !! "required") as [v|]; [exists v|exists (VBool false)]; eauto. }
  destruct Hrq as [[-> ->]| ->].
  all: apply wp_bind, wp_ret; apply wp_bind.
  all: eapply (wp_eq _ _ h3
                 (Return (String.eqb (PyStr.upper s) "SPATIAL" && falsy _)));
    [destruct (String.eqb (PyStr.upper s) "SPATIAL"); [|done];
     unfold bindM; rewrite (truthy_scalar _ _ Hsc); by rewrite negb_involutive|].
  all: apply wp_bind.
  all: destruct (String.eqb (PyStr.upper s) "SPATIAL" && falsy _); [raise_entry|].
  all: apply wp_ret; apply wp_bind, wp_ret; apply wp_bind.
  all: destruct (String.eqb (PyStr.upper s) "INDEX" && Py.eq_str _ "GEOJSON");
    [raise_entry|].
  all: apply wp_ret.
  all: eapply wp_member_then; [exact H3| | |].
  all: try (intros _ _; split; [sub_entry|by do 2 eexists]).
  all: intros; (eapply wp_member_then; [eassumption| | |]).
  all: try (intros _ _; split; [sub_entry|by do 2 eexists]).
  all: intros; (eapply wp_member; [eassumption| | |]).
  all: try (intros _ _; split; [sub_entry|by do 2 eexists]).
  all: intros; (split; [sub_entry|done]).
Qed.

End VisitWp.

Section LoopWp.
Context `{!Parser} `{case_mapping : !CaseMapping}.
Import CreateCollectionIndexStatement.
Implicit Types (h : Py.store) (l : loc) (m fm : gmap string val).

Lemma typed_entries_step h h' (fields : list val) l fm fm' :
  typed_entries h fields ->
  h !! l = Some (ODict fm) -> h' !! l = Some (ODict fm') -> fm' ⊆ fm ->
  (forall l', l' <> l -> h' !! l' = h !! l') ->
  typed_entries h' fields.
Proof.
  intros Hall Hl Hl' Hsub Hframe. eapply Forall_impl; [exact Hall|]. cbn.
  intros v (l0 & m0 & -> & Hl0 & Hty). destruct (decide (l0 = l)) as [->|Hne].
  - exists l, fm'. split; [done|]. split; [done|].
    rewrite Hl in Hl0. injection Hl0 as <-. by eapply typed_entry_sub.
  - exists l0, m0. by rewrite Hframe.
Qed.

(** The first loop over typed entries leaves them typed and raises
  validation errors only. *)
Lemma constraints_validation (s : string) (all fields : list val) h :
  typed_entries h all -> fields ⊆ all ->
  wp (constraints_of (VStr s) fields) h
     (fun r h' =>
        typed_entries h' all
        /\ match r with
           | Raise e => validation_error e
           | Return _ => True
           end).
Proof.
  revert h. induction fields as [|fd fields IH]; intros h Hall Hsub; [done|].
  cbn [constraints_of]. apply wp_bind.
  assert (Hfd : fd ∈ all) by (apply Hsub; left).
  pose proof Hall as Htyped. unfold typed_entries in Htyped.
  rewrite Forall_forall in Htyped. destruct (Htyped _ Hfd) as (l & fm & -> & Hl & Hty).
  pose proof (visit_validation h l fm s Hl Hty) as Hv.
  assert (Hframe : forall l', l' <> l ->
            snd (constraint_of (VStr s) (VRef l) h) !! l' = h !! l').
  { intros l' Hl'. apply visit_frame. congruence. }
  unfold wp in Hv |- *.
  destruct (constraint_of (VStr s) (VRef l) h) as [[c|e] h1]; cbn in Hv, Hframe |- *.
  - destruct Hv as [(fm' & Hfm' & Hsub') _].
    assert (Hall1 : typed_entries h1 all) by (by eapply typed_entries_step).
    apply wp_bind. eapply wp_mono; [apply IH; [done|]|].
    + intros v Hv. apply Hsub. by right.
    + by intros [cs|e] h2 [? ?].
  - destruct Hv as [(fm' & Hfm' & Hsub') He]. split; [|done].
    by eapply typed_entries_step.
Qed.

(** The second loop reads only, and raises validation errors only. *)
Lemma no_inner_left_validation (fields : list val) h :
  typed_entries h fields ->
  wp (for_each fields no_inner_left) h
     (fun r h' =>
        match r with
        | Raise e => validation_error e
        | Return _ => True
        end).
Proof.
  induction 1 as [|fd fields (l & fm & -> & Hl & _) _ IH]; [done|].
  cbn [for_each]. apply wp_bind. unfold no_inner_left. apply wp_bind.
  eapply wp_eq; [by apply truthy_dict|].
  destruct (negb (bool_decide (fm = ∅))); [|by apply wp_ret].
  unfold raise_with. apply wp_bind. eapply wp_eq; [by apply fmt_dict|].
  apply wp_raise. by do 2 eexists.
Qed.

End LoopWp.

Section Checked.
Context `{!Parser} `{!Connection} `{case_mapping : !CaseMapping}.
Import CreateCollectionIndexStatement.
Implicit Types (h : Py.store) (l : loc) (m fm top : gmap string val).

Lemma pop_or_default h l m key (v : val) :
  h !! l = Some (ODict m) ->
  Py.pop (VRef l) key (Some v) h
  = (Return (default v (m !! key)), <[l := ODict (delete key m)]> h).
Proof.
  intros Ho. rewrite (pop_dict _ _ _ _ _ Ho). destruct (m !! key) eqn:Hk; [done|].
  rewrite delete_id by done. by rewrite list_insert_id.
Qed.

Lemma raise_with_dict {A} template h l m :
  h !! l = Some (ODict m) ->
  raise_with (A := A) template (VRef l) h = (Raise (ProgrammingError template [FDict m]), h).
Proof. intros Ho. unfold raise_with. by rewrite (bind_return _ _ _ _ _ (fmt_dict _ _ _ Ho)). Qed.

Lemma check_index_name_valid {S} (self : CreateCollectionIndexStatement) (s : S) :
  valid_name self -> check_index_name (_index_name self) s = (Return tt, s).
Proof.
  intros (name & parsed & pm & -> & Hexpr & Hident). unfold check_index_name.
  by rewrite Hexpr, Hident.
Qed.

(** [build_args] on a statement with a valid name, a collection and a list
  of entries that is not empty: the outcome of the check on [unique], then
  of the check on the keys left, then of the two loops. *)
Lemma build_args_checked h self top fields d t :
  describes h self top fields -> _index_desc self = VRef d ->
  valid_name self -> _target (index_statement self) = Some t -> fields <> [] ->
  scalar (unique_of top) ->
  build_args self h
  = if negb (falsy (unique_of top)) then
      (Raise (NotSupportedError ERR_UNIQUE), <[d := ODict (unconsumed top)]> h)
    else if bool_decide (unconsumed top = ∅) then
      (constraints <- constraints_of (index_type top) fields ;;
       for_each fields no_inner_left ;;
       retM {| args_name := default "" (_index_name self);
               args_collection := Target_name t;
               args_schema := Schema_name (Target_schema t);
               args_type := index_type top;
               args_unique := unique_of top;
               args_constraint := constraints |})
        (<[d := ODict (unconsumed top)]> h)
    else
      (Raise (ProgrammingError ERR_UNIDENTIFIED [FDict (unconsumed top)]),
       <[d := ODict (unconsumed top)]> h).
Proof.
  intros (d' & lf & Hd & Hdo & Hlf & Hlfo) Hd' Hname Ht Hne Hsc.
  rewrite Hd in Hd'. injection Hd' as ->.
  assert (Hlfd : lf <> d) by congruence.
  unfold build_args. rewrite Hd, Hlf.
  rewrite (bind_return _ _ _ _ _ (check_index_name_valid self h Hname)).
  rewrite (bind_return _ _ _ _ _ (truthy_list _ _ _ Hlfo)).
  rewrite bool_decide_eq_false_2 by done. cbn [negb].
  rewrite (bind_return _ _ h h tt) by done.
  rewrite (bind_return _ _ _ _ _ (is_list_list _ _ _ Hlfo)). cbn [negb].
  rewrite (bind_return _ _ h h tt) by done.
  unfold target_names. rewrite Ht.
  rewrite (bind_return _ _ h h (Target_name t, Schema_name (Target_schema t))) by done.
  rewrite (bind_return _ _ _ _ _ (contains_dict _ _ _ "type" Hdo)).
  rewrite (bind_return _ _ h (<[d := ODict (delete "type" top)]> h) (index_type top)).
  2:{ unfold index_type. destruct (top !! "type") as [v|] eqn:Hty.
      - rewrite bool_decide_eq_true_2 by done. by rewrite (pop_dict _ _ _ _ _ Hdo), Hty.
      - rewrite bool_decide_eq_false_2 by (by intros [? ?]).
        rewrite delete_id by done. by rewrite list_insert_id. }
  rewrite (bind_return _ _ _ _ _
             (pop_or_default _ _ _ "unique" _ (lookup_written _ _ _ _ Hdo))).
  rewrite list_insert_insert_eq. fold (unconsumed top).
  rewrite lookup_delete_ne by done. fold (unique_of top).
  rewrite (bind_return _ _ _ _ _ (truthy_scalar _ _ Hsc)).
  destruct (negb (falsy (unique_of top))); [done|].
  rewrite (bind_return _ _ _ (<[d := ODict (unconsumed top)]> h) tt) by done.
  rewrite (bind_return _ _ _ _ _ (truthy_dict _ _ _ (lookup_written _ _ _ _ Hdo))).
  destruct (bool_decide (unconsumed top = ∅)); cbn [negb].
  - rewrite (bind_return _ _ _ (<[d := ODict (unconsumed top)]> h) tt) by done.
    assert (Hlf2 : <[d := ODict (unconsumed top)]> h !! lf = Some (OList fields))
      by (by rewrite list_lookup_insert_ne).
    by rewrite (bind_return _ _ _ _ _ (iter_list _ _ _ Hlf2)).
  - by rewrite (bind_raise _ _ _ _ _
                  (raise_with_dict _ _ _ _ (lookup_written _ _ _ _ Hdo))).
Qed.

End Checked.

Section Accepted.
Context `{!Parser} `{case_mapping : !CaseMapping}.
Import CreateCollectionIndexStatement.
Implicit Types (h : Py.store) (l : loc) (m fm top : gmap string val).

Lemma geojson_entry_consumed fm m :
  geojson_entry fm ->
  (forall key, key ∈ ["field"; "type"; "required"; "options"; "srid"] -> m !! key = None) ->
  m ⊆ fm ->
  m = ∅.
Proof.
  intros (_ & _ & _ & Hkeys) Hgone Hsub. apply map_eq. intros key.
  rewrite lookup_empty. destruct (m !! key) as [v|] eqn:Hv; [|done].
  rewrite <- Hv. apply Hgone, Hkeys. exists v. by eapply lookup_weaken.
Qed.

(** A visit to an entry of a spatial index returns its constraint and
  leaves the entry empty. *)
Lemma visit_geojson h l fm (s : string) :
  h !! l = Some (ODict fm) -> geojson_entry fm -> PyStr.upper s = "SPATIAL" ->
  wp (constraint_of (VStr s) (VRef l)) h
     (fun r h' => r = Return (constraint_for fm) /\ h' !! l = Some (ODict ∅)).
Proof.
  intros Ho Hentry Hs.
  pose proof Hentry as ([member Hfield] & (t & Htype & Ht) & Hreq & Hkeys).
  assert (Hcoll : fm !! "collation" = None).
  { destruct (fm !! "collation") eqn:Hc; [|done].
    assert (Hin : "collation" ∈ ["field"; "type"; "required"; "options"; "srid"])
      by (apply Hkeys; by rewrite Hc).
    by repeat (apply elem_of_cons in Hin as [?|Hin]; [done|]); apply elem_of_nil in Hin. }
  unfold constraint_of. apply wp_try.
  apply wp_bind. eapply wp_pop; [exact Ho|]. intros h1 H1. rewrite Hfield.
  apply wp_bind. eapply wp_pop; [exact H1|]. intros h2 H2.
  rewrite lookup_delete_ne by done. rewrite Htype.
  apply wp_bind. eapply wp_pop; [exact H2|]. intros h3 H3.
  rewrite !lookup_delete_ne by done. rewrite Hreq.
  apply wp_bind, wp_ret. rewrite Hs.
  change (String.eqb "SPATIAL" "SPATIAL") with true. cbv beta iota.
  apply wp_bind, wp_bind, wp_ret. apply wp_ret. cbn [negb]. cbv beta iota.
  apply wp_bind, wp_ret. apply wp_bind, wp_ret. rewrite Hs.
  change (String.eqb "SPATIAL" "INDEX") with false. cbn [andb]. cbv beta iota.
  apply wp_bind, wp_ret.
  eapply wp_member_then; [exact H3| | |].
  2,3: rewrite !lookup_delete_ne by done; rewrite Hcoll; by intros [].
  intros _.
  eapply wp_member_then; [exact H3| | |]; [|intros _; by rewrite Ht|];
    rewrite !lookup_delete_ne by done; intros;
    (eapply wp_member; [eassumption| | |]); [|intros _; by rewrite Ht| | |intros _; by rewrite Ht|];
    rewrite ?lookup_delete_ne by done; intros;
    (split;
     [f_equal; unfold constraint_for, with_member;
      repeat match goal with Heq : fm !! _ = _ |- _ => rewrite Heq end; reflexivity
     |]);
    match goal with
    | Hl : ?h' !! l = Some (ODict ?m) |- ?h' !! l = Some (ODict ∅) =>
        rewrite Hl; do 2 f_equal; apply (geojson_entry_consumed fm); [done| |]
    end;
    try (repeat (etrans; [apply delete_subseteq|]); done);
    intros key Hin;
    repeat (apply elem_of_cons in Hin as [->|Hin];
            [repeat (rewrite lookup_delete_eq || rewrite lookup_delete_ne by done); done|]);
    by apply elem_of_nil in Hin.
Qed.

End Accepted.

Section Matrix.
Context `{!Parser} `{!Connection} `{case_mapping : !CaseMapping}.
Import CreateCollectionIndexStatement.
Implicit Types (h : Py.store) (l : loc) (m fm top : gmap string val).

Lemma falsy_scalar v : falsy v = true -> scalar v.
Proof. by destruct v. Qed.

Lemma entries_frame h h1 (fields : list val) fms :
  Forall2 (accepted_entry h) fields fms ->
  (forall l, VRef l ∈ fields -> h1 !! l = h !! l) ->
  Forall2 (accepted_entry h1) fields fms.
Proof.
  induction 1 as [|v fm fields fms [(l & -> & Hl) Hentry] _ IH]; intros Hframe;
    constructor.
  - split; [|done]. exists l. split; [done|]. rewrite Hframe; [done|]. left.
  - apply IH. intros l' Hl'. apply Hframe. by right.
Qed.

(** The first loop over the entries of a spatial index, none listed twice:
  their constraints in order, and every entry left empty. *)
Lemma constraints_of_accepted (s : string) (fields : list val) fms h :
  PyStr.upper s = "SPATIAL" -> NoDup fields ->
  Forall2 (accepted_entry h) fields fms ->
  exists h',
    constraints_of (VStr s) fields h = (Return (map constraint_for fms), h')
    /\ Forall (fun v => entry_at h' v ∅) fields
    /\ forall l, VRef l ∉ fields -> h' !! l = h !! l.
Proof.
  intros Hs Hnd Hall. revert h Hall Hnd.
  induction fms as [|fm fms IH] in fields |- *; intros h Hall Hnd.
  { apply Forall2_nil_inv_r in Hall as ->. by exists h. }
  apply Forall2_cons_inv_r in Hall as (v & fields' & [(l & -> & Hl) Hentry] & Hall & ->).
  apply NoDup_cons in Hnd as [Hnotin Hnd].
  pose proof (visit_geojson h l fm s Hl Hentry Hs) as Hv.
  assert (Hframe : forall l', l' <> l ->
            snd (constraint_of (VStr s) (VRef l) h) !! l' = h !! l').
  { intros l' Hl'. apply visit_frame. congruence. }
  unfold wp in Hv. destruct (constraint_of (VStr s) (VRef l) h) as [r h1] eqn:Hvisit.
  cbn in Hv, Hframe. destruct Hv as [-> Hl1].
  destruct (IH fields' h1) as (h' & Hloop & Hempty & Hframe'); [|done|].
  { eapply entries_frame; [exact Hall|]. intros l' Hl'. apply Hframe. congruence. }
  exists h'. split; [|split].
  - cbn [constraints_of map]. rewrite (bind_return _ _ _ _ _ Hvisit).
    by rewrite (bind_return _ _ _ _ _ Hloop).
  - constructor; [|done]. exists l. split; [done|]. by rewrite Hframe'.
  - intros l' Hl'. apply not_elem_of_cons in Hl' as [Hne Hl'].
    rewrite Hframe' by done. apply Hframe. congruence.
Qed.

(** The second loop finds nothing left in entries that are empty. *)
Lemma no_inner_left_empty (fields : list val) h :
  Forall (fun v => entry_at h v ∅) fields ->
  for_each fields no_inner_left h = (Return tt, h).
Proof.
  induction 1 as [|v fields (l & -> & Hl) _ IH]; [done|].
  cbn [for_each]. rewrite (bind_return _ _ h h tt); [done|].
  unfold no_inner_left. by rewrite (bind_return _ _ _ _ _ (truthy_dict _ _ _ Hl)).
Qed.

Lemma execute_build_raise self h h' log e :
  build_args self h = (Raise e, h') -> execute self (h, log) = (Raise e, (h', log)).
Proof. intros Hb. unfold execute, in_store, inherited, bindM. cbn. by rewrite Hb. Qed.

(** [build_args] returns on a statement that has a target only: it reads
  the names of the collection and of its schema. *)
Lemma build_args_target self h h' args :
  build_args self h = (Return args, h') -> has_target self.
Proof.
  unfold build_args, has_target, target_names. intros Hrun.
  destruct (_target (index_statement self)) as [t|]; [by eexists|].
  do 5 apply bind_returned in Hrun as (? & ? & _ & Hrun).
  by apply bind_returned in Hrun as (? & ? & [=] & _).
Qed.

Lemma execute_build_return self h h' log args :
  build_args self h = (Return args, h') ->
  execute self (h, log)
  = (respond log (create_index_call args), (h', log ++ [create_index_call args])).
Proof.
  intros Hb. destruct (build_args_target _ _ _ _ Hb) as [t Ht].
  unfold execute, in_store, on_connection, inherited, bindM, connection_call, _connection.
  cbn. by rewrite Hb, Ht.
Qed.

Lemma rejected_build self h h' log e :
  execute self (h, log) = (Raise e, (h', log)) -> build_args self h = (Raise e, h').
Proof.
  destruct (build_args self h) as [[args|e0] h0] eqn:Hb.
  - rewrite (execute_build_return _ _ _ _ _ Hb). intros [= _ _ Hlog].
    apply (f_equal length) in Hlog. rewrite length_app in Hlog. cbn in Hlog. lia.
  - rewrite (execute_build_raise _ _ _ _ _ Hb). by intros [= -> ->].
Qed.

Lemma check_index_name_cases {S} self :
  valid_name self
  \/ exists e, validation_error e
               /\ forall s : S, check_index_name (_index_name self) s = (Raise e, s).
Proof.
  unfold valid_name, check_index_name. destruct (_index_name self) as [name|].
  - destruct (expr name false) as [[parsed pm]|] eqn:Hexpr.
    + destruct (Expr_is_ident parsed) eqn:Hident.
      * left. by exists name, parsed, pm.
      * right. eexists. split; [by do 2 eexists|done].
    + right. eexists. split; [by do 2 eexists|done].
  - right. eexists. split; [by do 2 eexists|done].
Qed.

Lemma typed_entries_unconsumed h top (fields : list val) d :
  h !! d = Some (ODict top) -> typed_entries h fields ->
  typed_entries (<[d := ODict (unconsumed top)]> h) fields.
Proof.
  intros Hd Hty. eapply (typed_entries_step h _ fields d top (unconsumed top)); try done.
  - by eapply lookup_written.
  - unfold unconsumed. etrans; apply delete_subseteq.
  - intros l' Hl'. by rewrite list_lookup_insert_ne.
Qed.

(** With a collection, [unique] unset, a text for the type of the index
  and typed entries, the checks raise validation errors only. *)
Lemma build_args_validation self h top fields :
  describes h self top fields -> has_target self -> unique_unset top ->
  (exists s, index_type top = VStr s) -> typed_entries h fields ->
  forall e h', build_args self h = (Raise e, h') -> validation_error e.
Proof.
  intros Hdesc [t Ht] Hun [s Hs] Hty e h' Hb.
  destruct (check_index_name_cases (S := Py.store) self) as [Hvalid|(e0 & He0 & Hc)].
  2:{ unfold build_args in Hb. rewrite (bind_raise _ _ _ _ _ (Hc h)) in Hb.
      by injection Hb as <- _. }
  pose proof Hdesc as (d & lf & Hd & Hdo & Hlf & Hlfo).
  destruct (decide (fields = [])) as [->|Hne].
  { unfold build_args in Hb. rewrite Hd, Hlf in Hb.
    rewrite (bind_return _ _ _ _ _ (check_index_name_valid self h Hvalid)) in Hb.
    rewrite (bind_return _ _ _ _ _ (truthy_list _ _ _ Hlfo)) in Hb.
    rewrite bool_decide_eq_true_2 in Hb by done. cbn [negb] in Hb.
    rewrite (bind_raise _ _ _ _ _ (raise_with_dict _ _ _ _ Hdo)) in Hb.
    injection Hb as <- _. by do 2 eexists. }
  rewrite (build_args_checked h self top fields d t Hdesc Hd Hvalid Ht Hne
             (falsy_scalar _ Hun)) in Hb.
  unfold unique_unset in Hun. rewrite Hun in Hb. cbn [negb] in Hb.
  destruct (bool_decide (unconsumed top = ∅)).
  2:{ injection Hb as <- _. by do 2 eexists. }
  rewrite Hs in Hb.
  match type of Hb with
  | ?c ?h2 = _ =>
      assert (Hwp : wp c h2 (fun r _ => match r with
                                        | Raise e => validation_error e
                                        | Return _ => True
                                        end))
  end.
  { apply wp_bind. eapply wp_mono.
    - apply (constraints_validation s fields fields); [|done].
      by apply typed_entries_unconsumed.
    - intros [cs|e1] h3 [Hty3 He1]; [|done]. apply wp_bind. eapply wp_mono.
      + by apply no_inner_left_validation.
      + by intros [[]|e1] h4 He1'. }
  unfold wp in Hwp. by rewrite Hb in Hwp.
Qed.

Lemma rejected_validation self h log top fields :
  describes h self top fields -> has_target self -> unique_unset top ->
  (exists s, index_type top = VStr s) -> typed_entries h fields ->
  rejected self h log -> rejected_as validation_error self h log.
Proof.
  intros Hdesc Ht Hun Hs Hty (e & h' & He). exists e, h'. split; [done|].
  eapply build_args_validation; try done. by eapply rejected_build.
Qed.

(** The key left in the description is in the error raised for it. *)
Lemma unidentified_named self h log top fields key (v : val) :
  describes h self top fields ->
  valid_name self -> has_target self -> fields <> [] -> unique_unset top ->
  top !! key = Some v -> key <> "type" -> key <> "unique" ->
  unconsumed top !! key = Some v
  /\ exists h',
      execute self (h, log)
      = (Raise (ProgrammingError ERR_UNIDENTIFIED [FDict (unconsumed top)]), (h', log)).
Proof.
  intros Hdesc Hvalid [t Ht] Hne Hun Hkey Hty Hu.
  assert (Hleft : unconsumed top !! key = Some v)
    by (unfold unconsumed; by rewrite !lookup_delete_ne).
  split; [done|].
  pose proof Hdesc as (d & lf & Hd & _).
  eexists. apply execute_build_raise.
  rewrite (build_args_checked h self top fields d t Hdesc Hd Hvalid Ht Hne
             (falsy_scalar _ Hun)).
  unfold unique_unset in Hun. rewrite Hun. cbn [negb].
  rewrite bool_decide_eq_false_2; [done|]. intros Hempty. by rewrite Hempty in Hleft.
Qed.

(** With [unique] set, the error is the one for unique indexes, whatever
  else the description holds. *)
Lemma unique_not_supported self h log top fields :
  describes h self top fields ->
  valid_name self -> has_target self -> fields <> [] ->
  scalar (unique_of top) -> falsy (unique_of top) = false ->
  exists h', execute self (h, log) = (Raise (NotSupportedError ERR_UNIQUE), (h', log)).
Proof.
  intros Hdesc Hvalid [t Ht] Hne Hsc Hun.
  pose proof Hdesc as (d & lf & Hd & _).
  eexists. apply execute_build_raise.
  rewrite (build_args_checked h self top fields d t Hdesc Hd Hvalid Ht Hne Hsc).
  by rewrite Hun.
Qed.

(** A spatial index over entries of type GEOJSON, all required: the call
  reaches the connection with one constraint for each entry, in order. *)
Lemma execute_accepted self h log top fields fms :
  describes h self top fields ->
  valid_name self -> has_target self ->
  type_named (index_type top) "SPATIAL" -> unique_unset top -> unconsumed top = ∅ ->
  fields <> [] -> NoDup fields -> Forall2 (accepted_entry h) fields fms ->
  exists args h',
    execute self (h, log)
    = (respond log (create_index_call args), (h', log ++ [create_index_call args]))
    /\ args_constraint args = map constraint_for fms
    /\ length (args_constraint args) = length fields.
Proof.
  intros Hdesc Hvalid [t Ht] (s & Hs & Hup) Hun Hrest Hne Hnd Hall.
  pose proof Hdesc as (d & lf & Hd & Hdo & _).
  destruct (constraints_of_accepted s fields fms (<[d := ODict (unconsumed top)]> h))
    as (h' & Hloop & Hempty & _); [done|done| |].
  { eapply entries_frame; [exact Hall|]. intros l Hl.
    apply list_lookup_insert_ne. intros <-.
    apply list_elem_of_lookup in Hl as [i Hi].
    destruct (Forall2_lookup_l _ _ _ _ _ Hall Hi)
      as (fm & _ & (l' & [= <-] & Hfm) & [member Hfield] & _).
    rewrite Hdo in Hfm. injection Hfm as <-.
    assert (Hleft : unconsumed top !! "field" = Some member)
      by (unfold unconsumed; by rewrite !lookup_delete_ne).
    by rewrite Hrest in Hleft. }
  eexists _, h'. split; [|split].
  - apply execute_build_return.
    rewrite (build_args_checked h self top fields d t Hdesc Hd Hvalid Ht Hne
               (falsy_scalar _ Hun)).
    unfold unique_unset in Hun. rewrite Hun. cbn [negb].
    rewrite bool_decide_eq_true_2 by done. rewrite Hs.
    rewrite (bind_return _ _ _ _ _ Hloop).
    by rewrite (bind_return _ _ _ _ _ (no_inner_left_empty _ _ Hempty)).
  - done.
  - cbn. rewrite length_map. symmetry. by eapply Forall2_length.
Qed.

End Matrix.

Section MatrixTheorem.
Context `{!Parser} `{!Connection} `{case_mapping : !CaseMapping}.
Import CreateCollectionIndexStatement.

(** C2, as the code has it. On the description [top] and the entries
  [fields] that [execute] finds in the statement: an entry that is not
  required under an index of type SPATIAL, an entry of type GEOJSON under an
  index of type INDEX, and a [collation] on an entry whose type does not
  start with TEXT each make
  [execute] raise before any call on the connection, and so does a key of
  the description other than [type] and [unique]; with a valid name, a
  collection, entries and [unique] unset, the error for such a key is the one
  for unidentified fields and holds the key; with a collection, [unique]
  unset and texts for the types, every error raised before the call is a
  validation error; with [unique] set, the error is the one for unique
  indexes; and a spatial index over entries of type GEOJSON, all required,
  none listed twice and with no other key, reaches the connection with one
  constraint for each entry, in the order of the entries. *)
Theorem index_validation_matrix (self : CreateCollectionIndexStatement) (h : Py.store)
    (log : list call) (top : gmap string val) (fields : list val) :
  describes h self top fields ->
  (forall fm, has_entry h fields fm ->
     (type_named (index_type top) "SPATIAL" /\ not_required fm)
     \/ (type_named (index_type top) "INDEX" /\ fm !! "type" = Some (VStr "GEOJSON"))
     \/ (is_Some (fm !! "collation") /\ not_text fm) ->
     rejected self h log)
  /\ (forall key v, top !! key = Some v -> key <> "type" -> key <> "unique" ->
        rejected self h log
        /\ (valid_name self -> has_target self -> fields <> [] -> unique_unset top ->
            unconsumed top !! key = Some v
            /\ exists h',
                execute self (h, log)
                = (Raise (ProgrammingError ERR_UNIDENTIFIED [FDict (unconsumed top)]),
                   (h', log))))
  /\ (has_target self -> unique_unset top -> (exists s, index_type top = VStr s) ->
      typed_entries h fields ->
      rejected self h log -> rejected_as validation_error self h log)
  /\ (valid_name self -> has_target self -> fields <> [] ->
      scalar (unique_of top) -> falsy (unique_of top) = false ->
      exists h', execute self (h, log) = (Raise (NotSupportedError ERR_UNIQUE), (h', log)))
  /\ (forall fms,
        valid_name self -> has_target self ->
        type_named (index_type top) "SPATIAL" -> unique_unset top ->
        unconsumed top = ∅ ->
        fields <> [] -> NoDup fields -> Forall2 (accepted_entry h) fields fms ->
        exists args h',
          execute self (h, log)
          = (respond log (create_index_call args), (h', log ++ [create_index_call args]))
          /\ args_constraint args = map constraint_for fms
          /\ length (args_constraint args) = length fields).
Proof.
  intros Hdesc. repeat split.
  - intros fm Hentry [[Hty Hnr]|[[Hty Hgeo]|[Hcoll Hnt]]].
    + by eapply spatial_not_required_rejected.
    + by eapply index_geojson_rejected.
    + by eapply collation_not_text_rejected.
  - by eapply unidentified_rejected.
  - by eapply unidentified_named.
  - by eapply unidentified_named.
  - intros. by eapply rejected_validation.
  - intros. by eapply unique_not_supported.
  - intros. by eapply execute_accepted.
Qed.

End MatrixTheorem.

(** ** Further properties of the statements *)

Section IndexRejections.
Context `{!Parser} `{!Connection} `{case_mapping : !CaseMapping}.
Import CreateCollectionIndexStatement.
Implicit Types (h : Py.store) (l : loc) (m fm top : gmap string val).

Lemma visit_incomplete_raises h l fm (index_type : val) :
  h !! l = Some (ODict fm) -> incomplete_entry fm ->
  raises (constraint_of index_type (VRef l)) h.
Proof.
  intros Ho Hinc. unfold constraint_of.
  apply raises_try; [|intros e k h'; apply raises_handler].
  eapply raises_pop; [exact Ho|]. intros member h1 H1 Hfield.
  destruct Hfield as [Hfield|[_ [=]]].
  destruct Hinc as [Hinc|Hinc]; [by rewrite Hinc in Hfield|].
  eapply raises_pop; [exact H1|]. intros type h2 H2 [Htype|[_ [=]]].
  rewrite lookup_delete_ne in Htype by done. by rewrite Hinc in Htype.
Qed.

(** X1. An entry that is not required, under an index whose type reads
  SPATIAL in any case of letters, makes [execute] raise before any call on
  the connection. *)
Theorem spatial_index_requires_entries (self : CreateCollectionIndexStatement) h
    (log : list call) top (fields : list val) fm :
  describes h self top fields -> type_named (index_type top) "SPATIAL" ->
  has_entry h fields fm -> not_required fm ->
  rejected self h log.
Proof. intros. by eapply spatial_not_required_rejected. Qed.

(** X2. An entry of type GEOJSON, under an index whose type reads INDEX
  (which is the type of an index that names none), makes [execute] raise
  before any call on the connection. *)
Theorem geojson_entry_needs_spatial_index (self : CreateCollectionIndexStatement) h
    (log : list call) top (fields : list val) fm :
  describes h self top fields -> type_named (index_type top) "INDEX" ->
  has_entry h fields fm -> fm !! "type" = Some (VStr "GEOJSON") ->
  rejected self h log.
Proof. intros. by eapply index_geojson_rejected. Qed.

(** X3. An entry with a [collation] whose type does not start with TEXT,
  in any case of letters, makes [execute] raise before any call on the
  connection, whatever the type of the index. *)
Theorem collation_needs_text_entry (self : CreateCollectionIndexStatement) h
    (log : list call) top (fields : list val) fm :
  describes h self top fields ->
  has_entry h fields fm -> is_Some (fm !! "collation") -> not_text fm ->
  rejected self h log.
Proof. intros. by eapply collation_not_text_rejected. Qed.

(** X4. A key of the description other than [type] and [unique] makes
  [execute] raise before any call on the connection; when the name is valid,
  the statement has a collection, there are entries and [unique] is unset,
  the error is the one for unidentified fields, and the dictionary it holds
  has the key. *)
Theorem unidentified_key_reported (self : CreateCollectionIndexStatement) h
    (log : list call) top (fields : list val) (key : string) (v : val) :
  describes h self top fields ->
  top !! key = Some v -> key <> "type" -> key <> "unique" ->
  rejected self h log
  /\ (valid_name self -> has_target self -> fields <> [] -> unique_unset top ->
      unconsumed top !! key = Some v
      /\ exists h',
          execute self (h, log)
          = (Raise (ProgrammingError ERR_UNIDENTIFIED [FDict (unconsumed top)]),
             (h', log))).
Proof.
  intros. split; [by eapply unidentified_rejected|]. intros. by eapply unidentified_named.
Qed.

(** X5. With [unique] set, a valid name, a collection and entries,
  [execute] raises the error for unique indexes before any call on the
  connection, whatever else the description and its entries hold. *)
Theorem unique_index_not_supported (self : CreateCollectionIndexStatement) h
    (log : list call) top (fields : list val) :
  describes h self top fields ->
  valid_name self -> has_target self -> fields <> [] ->
  scalar (unique_of top) -> falsy (unique_of top) = false ->
  exists h', execute self (h, log) = (Raise (NotSupportedError ERR_UNIQUE), (h', log)).
Proof. intros. by eapply unique_not_supported. Qed.

(** X6. With a collection, [unique] unset, a text for the type of the
  index and entries whose types are texts, every exception [execute] raises
  before the call on the connection is a [ProgrammingError]. *)
Theorem rejections_are_validation_errors (self : CreateCollectionIndexStatement) h
    (log : list call) top (fields : list val) (e : exn) h' :
  describes h self top fields -> has_target self -> unique_unset top ->
  (exists s, index_type top = VStr s) -> typed_entries h fields ->
  execute self (h, log) = (Raise e, (h', log)) ->
  validation_error e.
Proof.
  intros Hdesc Ht Hun Hs Hty He. eapply build_args_validation; try done.
  by eapply rejected_build.
Qed.

(** X7. A spatial index with a valid name, a collection, [unique] unset,
  no other key, and entries of type GEOJSON that are all required, none
  listed twice: [execute] makes one call on the connection, with one
  constraint for each entry in the order of the entries, and returns the
  answer of the connection. *)
Theorem spatial_index_accepted (self : CreateCollectionIndexStatement) h
    (log : list call) top (fields : list val) (fms : list (gmap string val)) :
  describes h self top fields ->
  valid_name self -> has_target self ->
  type_named (index_type top) "SPATIAL" -> unique_unset top -> unconsumed top = ∅ ->
  fields <> [] -> NoDup fields -> Forall2 (accepted_entry h) fields fms ->
  exists args h',
    execute self (h, log)
    = (respond log (create_index_call args), (h', log ++ [create_index_call args]))
    /\ args_constraint args = map constraint_for fms
    /\ length (args_constraint args) = length fields.
Proof. intros. by eapply execute_accepted. Qed.

(** X8. A description with no entries: when the name is valid, [execute]
  raises the error for the missing [fields], which holds the description
  with [type] and [unique] still in it, and changes nothing. *)
Theorem fields_required (self : CreateCollectionIndexStatement) h (log : list call) top :
  describes h self top [] -> valid_name self ->
  execute self (h, log)
  = (Raise (ProgrammingError ERR_FIELDS_NOT_FOUND [FDict top]), (h, log)).
Proof.
  intros (d & lf & Hd & Hdo & Hlf & Hlfo) Hvalid. apply execute_build_raise.
  unfold build_args. rewrite Hd, Hlf.
  rewrite (bind_return _ _ _ _ _ (check_index_name_valid self h Hvalid)).
  rewrite (bind_return _ _ _ _ _ (truthy_list _ _ _ Hlfo)).
  rewrite bool_decide_eq_true_2 by done. cbn [negb].
  by rewrite (bind_raise _ _ _ _ _ (raise_with_dict _ _ _ _ Hdo)).
Qed.

(** X9. An index name that is missing, that the parser refuses, or that
  it does not read as an identifier: [execute] raises the error for the
  invalid name first, whatever the description holds, and changes
  nothing. *)
Theorem index_name_checked_first (self : CreateCollectionIndexStatement) h
    (log : list call) :
  ~ valid_name self ->
  execute self (h, log) = (Raise (invalid_index_name (_index_name self)), (h, log)).
Proof.
  intros Hinvalid. apply execute_build_raise. unfold build_args.
  apply bind_raise. unfold check_index_name, valid_name in *.
  destruct (_index_name self) as [name|]; [|done].
  destruct (expr name false) as [[parsed pm]|] eqn:Hexpr; [|done].
  destruct (Expr_is_ident parsed) eqn:Hident; [|done].
  destruct Hinvalid. by exists name, parsed, pm.
Qed.

(** X10. An entry that lacks [field] or [type] makes [execute] raise
  before any call on the connection, whatever the type of the index. *)
Theorem entry_members_required (self : CreateCollectionIndexStatement) h
    (log : list call) top (fields : list val) fm :
  describes h self top fields -> has_entry h fields fm -> incomplete_entry fm ->
  rejected self h log.
Proof.
  intros Hdesc Hentry Hinc.
  apply (rejected_at_entry incomplete_entry self h log top fields fm); try done.
  - by left.
  - intros h' l fm' Hl HP. by eapply visit_incomplete_raises.
Qed.

End IndexRejections.

Section Shrunk.
Context `{!Parser} `{case_mapping : !CaseMapping}.
Import CreateCollectionIndexStatement.
Implicit Types (h : Py.store) (l : loc) (m fm : gmap string val).

Lemma shrunk_refl h : shrunk h h.
Proof. intros l. destruct (h !! l) as [[m|items]|]; [by exists m|done|done]. Qed.

Lemma shrunk_list h0 h l items :
  shrunk h0 h -> h0 !! l = Some (OList items) -> h !! l = Some (OList items).
Proof. intros Hs Hl. specialize (Hs l). by rewrite Hl in Hs. Qed.

Lemma shrunk_dict h0 h l m :
  shrunk h0 h -> h0 !! l = Some (ODict m) -> exists m', h !! l = Some (ODict m') /\ m' ⊆ m.
Proof. intros Hs Hl. specialize (Hs l). by rewrite Hl in Hs. Qed.

Lemma shrunk_empty h0 h l :
  shrunk h0 h -> h0 !! l = Some (ODict ∅) -> h !! l = Some (ODict ∅).
Proof.
  intros Hs Hl. destruct (shrunk_dict _ _ _ _ Hs Hl) as (m' & Hm' & Hsub).
  rewrite Hm'. do 2 f_equal. apply map_empty. intros key.
  by eapply lookup_weaken_None; [apply lookup_empty|].
Qed.

(** [pop] returns on a dictionary only, which it leaves without the key. *)
Lemma pop_returned d key default h h' (v : val) :
  Py.pop d key default h = (Return v, h') ->
  exists l m, d = VRef l /\ h !! l = Some (ODict m)
              /\ h' = <[l := ODict (delete key m)]> h.
Proof.
  destruct d as [| | | |l]; try discriminate.
  destruct (h !! l) as [[m|items]|] eqn:Ho.
  - rewrite (pop_dict _ _ _ _ _ Ho). intros Hpop. exists l, m. split; [done|]. split; [done|].
    destruct (m !! key) as [v'|] eqn:Hk; [by injection Hpop as _ <-|].
    destruct default as [v'|]; [|discriminate]. injection Hpop as _ <-.
    rewrite delete_id by done. by rewrite list_insert_id.
  - unfold Py.pop. by rewrite (bind_return _ _ _ _ _ (load_eq _ _ _ Ho)).
  - unfold Py.pop, bindM, Py.load. by rewrite Ho.
Qed.

Lemma shrunk_delete h0 h l m key :
  shrunk h0 h -> h !! l = Some (ODict m) -> shrunk h0 (<[l := ODict (delete key m)]> h).
Proof.
  intros Hs Ho l'. specialize (Hs l'). destruct (decide (l' = l)) as [->|Hne].
  - rewrite (lookup_written _ _ _ _ Ho).
    destruct (h0 !! l) as [[m0|items]|]; [|congruence|done].
    destruct Hs as (m' & Hm' & Hsub). rewrite Ho in Hm'. injection Hm' as <-.
    eexists. split; [done|]. etrans; [apply delete_subseteq|done].
  - by rewrite list_lookup_insert_ne.
Qed.

Lemma keeps_pop_shrunk h0 (d : val) key default :
  keeps (shrunk h0) (Py.pop d key default) (fun _ => True).
Proof.
  intros h Hs. split; [|done].
  destruct (Py.pop d key default h) as [[v|e] h'] eqn:Hpop; cbn.
  - destruct (pop_returned _ _ _ _ _ _ Hpop) as (l & m & _ & Ho & ->).
    by apply shrunk_delete.
  - destruct (pop_cases d key default h) as [[e' He]|[[v [Hv _]]|(l & m & v & _ & _ & _ & Hv)]];
      [|congruence|congruence].
    rewrite He in Hpop. by injection Hpop as _ <-.
Qed.

Ltac keeps_step :=
  lazymatch goal with
  | |- keeps _ (bindM _ _) _ => apply keeps_then; [|intros ?]
  | |- keeps _ (retM _) _ => by apply keeps_ret
  | |- keeps _ (raiseM _) _ => apply keeps_raise
  | |- keeps _ (if _ then _ else _) _ => apply keeps_if
  | |- keeps _ (Py.pop _ _ _) _ => apply keeps_pop_shrunk
  | |- keeps _ (Py.truthy _) _ => apply keeps_readonly, truthy_readonly
  | |- keeps _ (Py.is_list _) _ => apply keeps_readonly, is_list_readonly
  | |- keeps _ (Py.contains _ _) _ => apply keeps_readonly, contains_readonly
  | |- keeps _ (Py.fmt _) _ => apply keeps_readonly, fmt_readonly
  | |- keeps _ (Py.upper _) _ => apply keeps_readonly, upper_readonly
  end.

Lemma constraint_of_shrunk h0 (index_type field_desc : val) :
  keeps (shrunk h0) (constraint_of index_type field_desc) (fun _ => True).
Proof.
  unfold constraint_of. apply keeps_try.
  - repeat keeps_step.
  - intros e k Hk. destruct e; try discriminate. injection Hk as <-. repeat keeps_step.
Qed.

Lemma constraints_of_shrunk h0 (index_type : val) (fields : list val) :
  keeps (shrunk h0) (constraints_of index_type fields) (fun _ => True).
Proof.
  induction fields as [|fd fields IH]; [by apply keeps_ret|].
  cbn [constraints_of]. apply keeps_then; [apply constraint_of_shrunk|]. intros c.
  apply keeps_then; [exact IH|]. intros cs. by apply keeps_ret.
Qed.

Lemma no_inner_left_shrunk h0 (fields : list val) :
  keeps (shrunk h0) (for_each fields no_inner_left) (fun _ => True).
Proof.
  apply (keeps_for_each _ _ _ (fun _ => True)); [by apply Forall_true|].
  intros fd _. unfold no_inner_left, raise_with. repeat keeps_step.
Qed.

(** A visit returns on an entry that is a dictionary only. *)
Lemma visit_returned (index_type field_desc : val) h h' c :
  constraint_of index_type field_desc h = (Return c, h') ->
  exists l fm, field_desc = VRef l /\ h !! l = Some (ODict fm).
Proof.
  unfold constraint_of, try_except.
  match goal with
  | |- context [match ?body h with _ => _ end] => destruct (body h) as [[a|e] h1] eqn:Hbody
  end.
  - intros _. apply bind_returned in Hbody as (member & h2 & Hpop & _).
    destruct (pop_returned _ _ _ _ _ _ Hpop) as (l & fm & -> & Ho & _). by exists l, fm.
  - destruct e; try discriminate. unfold bindM.
    by destruct (Py.fmt field_desc h1) as [[d|e] h2].
Qed.

(** An entry the second loop passes is empty. *)
Lemma no_inner_left_returned (field_desc : val) h h' (u : unit) fm l :
  no_inner_left field_desc h = (Return u, h') ->
  field_desc = VRef l -> h !! l = Some (ODict fm) -> fm = ∅ /\ h' = h.
Proof.
  intros Hleft -> Ho. unfold no_inner_left in Hleft.
  rewrite (bind_return _ _ _ _ _ (truthy_dict _ _ _ Ho)) in Hleft.
  destruct (decide (fm = ∅)) as [->|Hne].
  - rewrite bool_decide_eq_true_2 in Hleft by done. by injection Hleft as <-.
  - rewrite bool_decide_eq_false_2 in Hleft by done. cbn [negb] in Hleft.
    by rewrite (raise_with_dict _ _ _ _ Ho) in Hleft.
Qed.

End Shrunk.

Section Consumed.
Context `{!Parser} `{!Connection} `{case_mapping : !CaseMapping}.
Import CreateCollectionIndexStatement.
Implicit Types (h : Py.store) (l : loc) (m fm top : gmap string val).

Lemma raise_with_raises {A} template (v : val) h (r : outcome A) h1 :
  raise_with template v h = (r, h1) -> exists e, r = Raise e.
Proof.
  unfold raise_with, bindM. destruct (Py.fmt v h) as [[d|e] h2]; intros [= <- _]; by eexists.
Qed.

Lemma check_index_name_returned {S} self (s s' : S) (u : unit) :
  check_index_name (_index_name self) s = (Return u, s') -> valid_name self /\ s' = s.
Proof.
  destruct (check_index_name_cases (S := S) self) as [Hvalid|(e & _ & He)].
  - rewrite (check_index_name_valid self s Hvalid). by intros [= _ <-].
  - by rewrite He.
Qed.

Lemma is_list_returned (v : val) h h' :
  Py.is_list v h = (Return true, h') ->
  exists lf items, v = VRef lf /\ h !! lf = Some (OList items).
Proof.
  destruct v as [| | | |lf]; try discriminate. unfold Py.is_list, bindM, Py.load.
  destruct (h !! lf) as [[m|items]|] eqn:Ho; try discriminate. intros _. by exists lf, items.
Qed.

(** An [execute] that reaches the connection has emptied the description
  and the entries. *)
Lemma build_args_consumes self h h' args :
  build_args self h = (Return args, h') -> consumed self h'.
Proof.
  unfold build_args. intros Hrun.
  apply bind_returned in Hrun as (u1 & s1 & Hname & Hrun).
  apply check_index_name_returned in Hname as [Hvalid ->].
  apply bind_returned in Hrun as (has_fields & s2 & Hfields & Hrun).
  pose proof (state_readonly _ _ _ _ (truthy_readonly _ _) Hfields) as ->.
  apply bind_returned in Hrun as (u2 & s3 & Hguard & Hrun).
  apply guard_returned in Hguard as [Hhas ->]; [|intros r s; apply raise_with_raises].
  apply negb_false_iff in Hhas. subst has_fields.
  apply bind_returned in Hrun as (fields_is_list & s4 & Hlist & Hrun).
  pose proof (state_readonly _ _ _ _ (is_list_readonly _ _) Hlist) as ->.
  apply bind_returned in Hrun as (u3 & s5 & Hguard & Hrun).
  apply guard_returned in Hguard as [His ->]; [|intros r s [= <- _]; by eexists].
  apply negb_false_iff in His. subst fields_is_list.
  destruct (is_list_returned _ _ _ Hlist) as (lf & items & Hlf & Hlfo).
  rewrite Hlf in Hfields. rewrite (truthy_list _ _ _ Hlfo) in Hfields.
  injection Hfields as Hne. apply negb_true_iff, bool_decide_eq_false in Hne.
  apply bind_returned in Hrun as (names & s6 & Hnames & Hrun).
  assert (Htarget : has_target self /\ s6 = h).
  { unfold target_names in Hnames. unfold has_target.
    destruct (_target (index_statement self)) as [t|]; [|discriminate].
    injection Hnames as _ <-. by split; [eexists|]. }
  destruct Htarget as [Htarget ->].
  apply bind_returned in Hrun as (has_type & s7 & Hcontains & Hrun).
  pose proof (state_readonly _ _ _ _ (contains_readonly _ _ _) Hcontains) as ->.
  apply bind_returned in Hrun as (type & s8 & Htype & Hrun).
  assert (Hs8 : shrunk h s8).
  { assert (Hk : keeps (shrunk h)
                   (if has_type then Py.pop (_index_desc self) "type" None
                    else retM (VStr "INDEX")) (fun _ => True))
      by (apply keeps_if; [apply keeps_pop_shrunk|by apply keeps_ret]).
    pose proof (proj1 (Hk h (shrunk_refl h))) as Hs. by rewrite Htype in Hs. }
  apply bind_returned in Hrun as (unique & s9 & Hunique & Hrun).
  destruct (pop_returned _ _ _ _ _ _ Hunique) as (d & m & Hd & Hdo & ->).
  pose proof (shrunk_delete h s8 d m "unique" Hs8 Hdo) as Hs9.
  set (s9 := <[d := ODict (delete "unique" m)]> s8) in *.
  assert (Hdo9 : s9 !! d = Some (ODict (delete "unique" m)))
    by (by eapply lookup_written).
  apply bind_returned in Hrun as (is_unique & s10 & Htruthy & Hrun).
  pose proof (state_readonly _ _ _ _ (truthy_readonly _ _) Htruthy) as ->.
  apply bind_returned in Hrun as (u4 & s11 & Hguard & Hrun).
  apply guard_returned in Hguard as [_ ->]; [|intros r s [= <- _]; by eexists].
  apply bind_returned in Hrun as (unidentified & s12 & Hleft & Hrun).
  rewrite Hd in Hleft. rewrite (truthy_dict _ _ _ Hdo9) in Hleft.
  injection Hleft as <- <-.
  apply bind_returned in Hrun as (u5 & s13 & Hguard & Hrun).
  apply guard_returned in Hguard as [Hempty ->]; [|intros r s; apply raise_with_raises].
  apply negb_false_iff, bool_decide_eq_true in Hempty. rewrite Hempty in Hdo9.
  apply bind_returned in Hrun as (fields & s14 & Hiter & Hrun).
  pose proof (shrunk_list _ _ _ _ Hs9 Hlfo) as Hlfo9.
  rewrite Hlf in Hiter. rewrite (iter_list _ _ _ Hlfo9) in Hiter.
  injection Hiter as <- <-.
  apply bind_returned in Hrun as (constraints & s15 & Hloop & Hrun).
  apply bind_returned in Hrun as (u6 & s16 & Hcheck & Hrun).
  injection Hrun as _ <-.
  pose proof (proj1 (constraints_of_shrunk s9 type items s9 (shrunk_refl s9))) as Hs15.
  rewrite Hloop in Hs15. cbn [snd] in Hs15.
  pose proof (proj1 (no_inner_left_shrunk s9 items s15 Hs15)) as Hs16.
  rewrite Hcheck in Hs16. cbn [snd] in Hs16.
  pose proof (proj1 (no_inner_left_shrunk s15 items s15 (shrunk_refl s15))) as Hcheck'.
  rewrite Hcheck in Hcheck'. cbn [snd] in Hcheck'.
  destruct items as [|v rest]; [done|].
  cbn [constraints_of] in Hloop.
  apply bind_returned in Hloop as (c & s17 & Hvisit & _).
  destruct (visit_returned _ _ _ _ _ Hvisit) as (l & fm & -> & Hl).
  destruct (shrunk_dict _ _ _ _ Hs15 Hl) as (fm15 & Hl15 & _).
  cbn [for_each] in Hcheck.
  apply bind_returned in Hcheck as (u7 & s18 & Hfirst & _).
  destruct (no_inner_left_returned _ _ _ _ _ _ Hfirst eq_refl Hl15) as [-> _].
  exists l, rest. split; [|split; [by apply (shrunk_empty s15)|done]].
  exists d, lf. split; [done|]. split; [by apply (shrunk_empty s9)|].
  split; [done|]. by apply (shrunk_list s9).
Qed.

Lemma visit_empty h l (index_type : val) :
  h !! l = Some (ODict ∅) ->
  constraint_of index_type (VRef l) h
  = (Raise (ProgrammingError ERR_INNER_MEMBER [FKeyError "field"; FDict ∅]), h).
Proof.
  intros Ho. unfold constraint_of, try_except.
  rewrite (bind_raise _ _ h h (KeyError "field"))
    by (by rewrite (pop_dict _ _ _ _ _ Ho), lookup_empty).
  by rewrite (bind_return _ _ _ _ _ (fmt_dict _ _ _ Ho)).
Qed.

(** On a statement used up, [execute] stops at the first entry. *)
Lemma consumed_raises self h :
  consumed self h ->
  build_args self h
  = (Raise (ProgrammingError ERR_INNER_MEMBER [FKeyError "field"; FDict ∅]), h).
Proof.
  intros (l & rest & Hdesc & Hl & Hvalid & [t Ht]).
  pose proof Hdesc as (d & lf & Hd & Hdo & Hlf & Hlfo).
  assert (Hnone : unconsumed ∅ = (∅ : gmap string val))
    by (unfold unconsumed; by rewrite !delete_empty).
  assert (Hne : VRef l :: rest <> []) by discriminate.
  rewrite (build_args_checked h self ∅ (VRef l :: rest) d t Hdesc Hd Hvalid Ht Hne) by done.
  unfold unique_of. rewrite lookup_empty. cbn [default falsy negb].
  rewrite Hnone. rewrite bool_decide_eq_true_2 by done.
  replace (<[d := ODict ∅]> h) with h by (symmetry; by apply list_insert_id).
  apply bind_raise. cbn [constraints_of].
  by rewrite (bind_raise _ _ _ _ _ (visit_empty _ _ _ Hl)).
Qed.

(** X11. [execute] uses up the statement, whatever the index it
  describes: when a call of [execute] has reached the connection, which
  shows in the log of the connection, the next [execute] on the same
  statement raises the error for a missing [field], since the first call has
  emptied the description and its entries, and makes no call on the
  connection. The key is written in the message as the [KeyError] shows
  it. *)
Theorem execute_consumes_description (self : CreateCollectionIndexStatement) h
    (log : list call) (r : outcome Result) h' (log' : list call) :
  execute self (h, log) = (r, (h', log')) -> log' <> log ->
  (exists args, r = respond log (create_index_call args)
                /\ log' = log ++ [create_index_call args])
  /\ execute self (h', log')
     = (Raise (ProgrammingError ERR_INNER_MEMBER [FKeyError "field"; FDict ∅]),
        (h', log')).
Proof.
  intros Hrun Hlog. destruct (build_args self h) as [[args|e] h1] eqn:Hbuild.
  - rewrite (execute_build_return _ _ _ _ _ Hbuild) in Hrun.
    injection Hrun as <- <- <-. split; [by exists args|].
    apply execute_build_raise, consumed_raises. by eapply build_args_consumes.
  - rewrite (execute_build_raise _ _ _ _ _ Hbuild) in Hrun. by injection Hrun as _ _ <-.
Qed.

End Consumed.

(** The examples run the constructor on a description and [execute]
  against the example parser and connection. *)

Ltac example_description :=
  exists 3, 4; vm_compute; repeat split.

Ltac example_entry :=
  exists 5; split; [constructor|vm_compute; reflexivity].

Ltac example_name :=
  exists "idx", "idx", ∅; vm_compute; repeat split.

Lemma spatial_index_requires_entries_witness :
  @rejected toy_parser toy_connection ascii_case index_example
    (index_example_store optional_description) [].
Proof.
  apply (@spatial_index_requires_entries toy_parser toy_connection ascii_case index_example
           _ [] (<["type" := VStr "Spatial"]> ∅) [VRef 5] optional_entry).
  - example_description.
  - exists "Spatial". vm_compute. by split.
  - example_entry.
  - vm_compute. reflexivity.
Defined.

Lemma geojson_entry_needs_spatial_index_witness :
  @rejected toy_parser toy_connection ascii_case index_example
    (index_example_store geojson_index_description) [].
Proof.
  apply (@geojson_entry_needs_spatial_index toy_parser toy_connection ascii_case index_example
           _ [] ∅ [VRef 5]
           (<["field" := VStr "$.geo"]> (<["type" := VStr "GEOJSON"]> ∅))).
  - example_description.
  - exists "INDEX". vm_compute. by split.
  - example_entry.
  - vm_compute. reflexivity.
Defined.

Lemma collation_needs_text_entry_witness :
  @rejected toy_parser toy_connection ascii_case index_example
    (index_example_store collation_description) [].
Proof.
  apply (@collation_needs_text_entry toy_parser toy_connection ascii_case index_example
           _ [] (<["type" := VStr "INDEX"]> ∅) [VRef 5]
           (<["field" := VStr "$.n"]> (<["type" := VStr "INT"]>
              (<["collation" := VStr "utf8_bin"]> ∅)))).
  - example_description.
  - example_entry.
  - exists (VStr "utf8_bin"). vm_compute. reflexivity.
  - vm_compute. reflexivity.
Defined.

Lemma unidentified_key_reported_witness :
  exists h',
    @CreateCollectionIndexStatement.execute toy_parser toy_connection ascii_case index_example
      (index_example_store extra_description, [])
    = (Raise (ProgrammingError CreateCollectionIndexStatement.ERR_UNIDENTIFIED
                [FDict (unconsumed extra_top)]), (h', []))
    /\ unconsumed extra_top !! "extra" = Some (VInt 1).
Proof.
  destruct (@unidentified_key_reported toy_parser toy_connection ascii_case index_example
              (index_example_store extra_description) [] extra_top [VRef 5]
              "extra" (VInt 1)) as [_ Hnamed].
  - example_description.
  - vm_compute. reflexivity.
  - discriminate.
  - discriminate.
  - destruct Hnamed as [Hkey [h' Hh']].
    + example_name.
    + eexists. reflexivity.
    + discriminate.
    + vm_compute. reflexivity.
    + exists h'. by split.
Defined.

Lemma unique_index_not_supported_witness :
  exists h',
    @CreateCollectionIndexStatement.execute toy_parser toy_connection ascii_case index_example
      (index_example_store unique_description, [])
    = (Raise (NotSupportedError CreateCollectionIndexStatement.ERR_UNIQUE), (h', [])).
Proof.
  apply (@unique_index_not_supported toy_parser toy_connection ascii_case index_example
           _ []
           (<["type" := VStr "SPATIAL"]>
              (<["unique" := VBool true]> (<["extra" := VInt 1]> ∅))) [VRef 5]).
  - example_description.
  - example_name.
  - eexists. reflexivity.
  - discriminate.
  - vm_compute. exact I.
  - vm_compute. reflexivity.
Defined.

Lemma rejections_are_validation_errors_witness :
  exists e,
    fst (@CreateCollectionIndexStatement.execute toy_parser toy_connection ascii_case index_example
           (index_example_store optional_description, [])) = Raise e
    /\ validation_error e.
Proof.
  eexists. split; [vm_compute; reflexivity|].
  eapply (@rejections_are_validation_errors toy_parser toy_connection ascii_case index_example
            (index_example_store optional_description) []
            (<["type" := VStr "Spatial"]> ∅) [VRef 5]).
  - example_description.
  - eexists. reflexivity.
  - vm_compute. reflexivity.
  - eexists. vm_compute. reflexivity.
  - constructor; [|constructor]. exists 5, optional_entry. vm_compute. repeat split.
  - vm_compute. reflexivity.
Defined.

Lemma spatial_entry_accepted :
  Forall2 (@accepted_entry ascii_case (index_example_store spatial_description)) [VRef 5]
    [spatial_entry].
Proof.
  constructor; [|constructor]. split; [exists 5; vm_compute; by split|].
  split; [by eexists|]. split; [exists "GEOJSON"; vm_compute; by split|].
  split; [reflexivity|]. intros key [v Hv]. unfold spatial_entry in Hv.
  repeat match type of Hv with
         | <[?k := _]> _ !! key = _ =>
             destruct (decide (key = k)) as [->|Hne];
             [set_solver|rewrite lookup_insert_ne in Hv by done; clear Hne]
         end.
  by rewrite lookup_empty in Hv.
Qed.

Lemma spatial_index_accepted_witness :
  exists args h',
    @CreateCollectionIndexStatement.execute toy_parser toy_connection ascii_case index_example
      (index_example_store spatial_description, [])
    = (Return 1, (h', [@create_index_call toy_parser args]))
    /\ args_constraint args = [constraint_for spatial_entry]
    /\ length (args_constraint args) = 1.
Proof.
  apply (@spatial_index_accepted toy_parser toy_connection ascii_case index_example
           (index_example_store spatial_description) [] spatial_top [VRef 5]
           [spatial_entry]).
  - example_description.
  - example_name.
  - eexists. reflexivity.
  - exists "SPATIAL". vm_compute. by split.
  - vm_compute. reflexivity.
  - vm_compute. reflexivity.
  - discriminate.
  - apply NoDup_singleton.
  - exact spatial_entry_accepted.
Defined.

(** The spatial index of the examples, with the example parser and the
  example connection: [execute] reaches the connection with the one
  constraint of its entry. *)
Lemma index_validation_matrix_witness :
  exists args h',
    @CreateCollectionIndexStatement.execute toy_parser toy_connection ascii_case index_example
      (index_example_store spatial_description, [])
    = (Return 1, (h', [@create_index_call toy_parser args]))
    /\ args_constraint args = [constraint_for spatial_entry]
    /\ length (args_constraint args) = 1.
Proof.
  assert (Hdesc : describes (index_example_store spatial_description) index_example
                    spatial_top [VRef 5]) by example_description.
  destruct (@index_validation_matrix toy_parser toy_connection ascii_case index_example
              (index_example_store spatial_description) [] spatial_top [VRef 5] Hdesc)
    as (_ & _ & _ & _ & Haccepted).
  apply (Haccepted [spatial_entry]).
  - example_name.
  - eexists. reflexivity.
  - exists "SPATIAL". vm_compute. by split.
  - vm_compute. reflexivity.
  - vm_compute. reflexivity.
  - discriminate.
  - apply NoDup_singleton.
  - exact spatial_entry_accepted.
Defined.

(** C2 fails as stated: the description below is of type SPATIAL, has an
  entry that is not required and a key that is not known, and [execute]
  raises the error for unique indexes, which is no validation error and
  names no key. *)
Lemma index_validation_counterexample :
  let top : gmap string val :=
    <["type" := VStr "SPATIAL"]> (<["unique" := VBool true]> (<["extra" := VInt 1]> ∅)) in
  describes (index_example_store unique_description) index_example top [VRef 5]
  /\ @type_named ascii_case (index_type top) "SPATIAL"
  /\ has_entry (index_example_store unique_description) [VRef 5] optional_entry
  /\ not_required optional_entry
  /\ top !! "extra" = Some (VInt 1)
  /\ exists h',
      @CreateCollectionIndexStatement.execute toy_parser toy_connection ascii_case
        index_example (index_example_store unique_description, [])
      = (Raise (NotSupportedError CreateCollectionIndexStatement.ERR_UNIQUE), (h', []))
      /\ ~ validation_error (NotSupportedError CreateCollectionIndexStatement.ERR_UNIQUE)
      /\ ~ @rejected_as toy_parser toy_connection ascii_case validation_error
            index_example (index_example_store unique_description) [].
Proof.
  intros top. subst top.
  split; [example_description|]. split; [exists "SPATIAL"; vm_compute; by split|].
  split; [example_entry|]. split; [vm_compute; reflexivity|].
  split; [vm_compute; reflexivity|].
  eexists. split; [vm_compute; reflexivity|]. split.
  - intros (template & args & Herr). discriminate Herr.
  - intros (e & h' & Hrun & template & args & ->). vm_compute in Hrun. discriminate Hrun.
Qed.

Lemma fields_required_witness :
  let r := CreateCollectionIndexStatement.new 10 (Some a_collection) (Some "idx")
             (VRef 0) fieldless_description in
  fst r = Return fieldless_example
  /\ @CreateCollectionIndexStatement.execute toy_parser toy_connection ascii_case fieldless_example
       (snd r, [])
     = (Raise (ProgrammingError CreateCollectionIndexStatement.ERR_FIELDS_NOT_FOUND
                 [FDict (<["type" := VStr "INDEX"]> ∅)]), (snd r, [])).
Proof.
  cbv zeta. split; [vm_compute; reflexivity|].
  apply (@fields_required toy_parser toy_connection ascii_case fieldless_example).
  - exists 1, 2. vm_compute. repeat split.
  - example_name.
Defined.

Lemma index_name_checked_first_witness :
  @CreateCollectionIndexStatement.execute toy_parser toy_connection ascii_case nameless_example
    (index_example_store unique_description, [])
  = (Raise (ProgrammingError CreateCollectionIndexStatement.ERR_INVALID_INDEX_NAME
              [FVal VNone]), (index_example_store unique_description, [])).
Proof.
  apply (@index_name_checked_first toy_parser toy_connection ascii_case nameless_example).
  intros (name & parsed & placeholders & Hname & _). discriminate Hname.
Defined.

Lemma entry_members_required_witness :
  @rejected toy_parser toy_connection ascii_case index_example
    (index_example_store untyped_description) [].
Proof.
  apply (@entry_members_required toy_parser toy_connection ascii_case index_example
           _ [] ∅ [VRef 5] (<["field" := VStr "$.n"]> ∅)).
  - example_description.
  - example_entry.
  - right. vm_compute. reflexivity.
Defined.

(** An index of type INDEX over one text entry, and the spatial index of
  the examples above: the first [execute] reaches the example connection,
  the second raises. *)
Lemma execute_consumes_description_witness :
  let execute := @CreateCollectionIndexStatement.execute toy_parser toy_connection ascii_case in
  let consumed_error :=
    ProgrammingError CreateCollectionIndexStatement.ERR_INNER_MEMBER
      [FKeyError "field"; FDict ∅] in
  (exists r h' log',
      execute index_example (index_example_store caller_store, []) = (r, (h', log'))
      /\ log' <> []
      /\ execute index_example (h', log') = (Raise consumed_error, (h', log')))
  /\ (exists r h' log',
        execute index_example (index_example_store spatial_description, [])
        = (r, (h', log'))
        /\ log' <> []
        /\ execute index_example (h', log') = (Raise consumed_error, (h', log'))).
Proof.
  intros execute consumed_error. subst execute consumed_error.
  split.
  - let run := eval vm_compute in
        (@CreateCollectionIndexStatement.execute toy_parser toy_connection ascii_case
           index_example (index_example_store caller_store, [])) in
    lazymatch run with
    | (?r, (?h', ?log')) =>
        exists r, h', log';
        assert (Hrun : @CreateCollectionIndexStatement.execute toy_parser toy_connection
                         ascii_case index_example (index_example_store caller_store, [])
                       = (r, (h', log'))) by (vm_compute; reflexivity);
        assert (Hlog : log' <> []) by discriminate;
        exact (conj Hrun (conj Hlog
                 (proj2 (@execute_consumes_description toy_parser toy_connection ascii_case
                           index_example _ _ _ _ _ Hrun Hlog))))
    end.
  - let run := eval vm_compute in
        (@CreateCollectionIndexStatement.execute toy_parser toy_connection ascii_case
           index_example (index_example_store spatial_description, [])) in
    lazymatch run with
    | (?r, (?h', ?log')) =>
        exists r, h', log';
        assert (Hrun : @CreateCollectionIndexStatement.execute toy_parser toy_connection
                         ascii_case index_example
                         (index_example_store spatial_description, [])
                       = (r, (h', log'))) by (vm_compute; reflexivity);
        assert (Hlog : log' <> []) by discriminate;
        exact (conj Hrun (conj Hlog
                 (proj2 (@execute_consumes_description toy_parser toy_connection ascii_case
                           index_example _ _ _ _ _ Hrun Hlog))))
    end.
Defined.

Section BindExtras.
Context `{!Parser}.

Lemma set_has_bindings_twice (self : FilterableStatement) :
  set_has_bindings true (set_has_bindings true self) = set_has_bindings true self.
Proof. by destruct self. Qed.

Lemma set_bindings_twice (bs bs' : list binding) (self : FilterableStatement) :
  set_bindings bs' (set_bindings bs self) = set_bindings bs' self.
Proof. by destruct self. Qed.

Lemma set_has_bindings_bindings (bs : list binding) (self : FilterableStatement) :
  set_has_bindings true (set_bindings bs self) = set_bindings bs (set_has_bindings true self).
Proof. by destruct self. Qed.

Lemma bindings_set (bs : list binding) (self : FilterableStatement) :
  _bindings (set_bindings bs self) = bs.
Proof. by destruct self. Qed.

Lemma bindings_flag (self : FilterableStatement) :
  _bindings (set_has_bindings true self) = _bindings self.
Proof. by destruct self. Qed.

(** X12. Calls of [bind] with a name and a value accumulate: each call
  appends its pair after the pairs bound before, in the order of the calls,
  and a name bound again does not replace its earlier entry. *)
Theorem bind_pairs_accumulate (depth : nat) (pairs : list (pyobj * pyobj))
    (self : FilterableStatement) :
  bind_pairs (S depth) pairs self
  = (Return tt,
     match pairs with
     | [] => self
     | _ => set_bindings
              (_bindings self ++ map (fun p => bound (fst p) (snd p)) pairs)
              (set_has_bindings true self)
     end).
Proof.
  unfold bind_pairs. revert self. induction pairs as [|[name value] pairs IH]; intros self.
  { reflexivity. }
  cbn [for_each fst snd]. unfold bindM at 1. rewrite bind_two. rewrite IH.
  f_equal. destruct pairs as [|p pairs]; [reflexivity|].
  rewrite bindings_set, set_has_bindings_bindings, set_has_bindings_twice,
    set_bindings_twice.
  by rewrite <- app_assoc.
Qed.

(** X13. [bind] with three arguments or more raises the error for the
  number of arguments; the call has set [has_bindings] all the same, and
  has bound nothing. *)
Theorem bind_too_many_arguments (depth : nat) (args : list pyobj)
    (self : FilterableStatement) :
  2 < length args ->
  FilterableStatement.bind (S depth) args self
  = (Raise (ProgrammingError "Invalid number of arguments to bind" []),
     set_has_bindings true self)
  /\ _bindings (set_has_bindings true self) = _bindings self.
Proof. intros Hlen. split; [by apply bind_three_or_more|apply bindings_flag]. Qed.

(** X14. [bind] with one text that decodes to a mapping binds each key
  of the mapping to its value, in the order of the keys, after the pairs
  bound before. *)
Theorem bind_json_text (depth : nat) (s : string) (res : list (string * pyobj))
    (self : FilterableStatement) :
  json_loads s = Some (PDict res) -> NoDup (map fst res) ->
  FilterableStatement.bind (S (S depth)) [PStr s] self
  = (Return tt,
     set_bindings
       (_bindings self ++ map (fun kv => bound (PStr (fst kv)) (snd kv)) res)
       (set_has_bindings true self)).
Proof. intros. by apply bind_text_mapping. Qed.

(** X15. [bind] with a document binds what the text of the document
  decodes to: the keys of that mapping with their values. *)
Theorem bind_document_through_text (depth : nat) (d res : list (string * pyobj))
    (self : FilterableStatement) :
  json_loads (DbDoc_str d) = Some (PDict res) -> NoDup (map fst res) ->
  FilterableStatement.bind (S (S (S depth))) [PDbDoc d] self
  = (Return tt,
     set_bindings
       (_bindings self ++ map (fun kv => bound (PStr (fst kv)) (snd kv)) res)
       (set_has_bindings true self)).
Proof.
  intros Hjson Hnd. rewrite bind_document, (bind_text_mapping _ _ res) by done.
  by rewrite bindings_flag, set_has_bindings_twice.
Qed.

(** X16. [bind] with one argument that is a text which does not decode
  to a mapping, or that is neither a text nor a document, raises a
  [ProgrammingError] and binds nothing. *)
Theorem bind_invalid_payload (depth : nat) (obj : pyobj) (self : FilterableStatement) :
  match obj with
  | PStr s => forall items, json_loads s <> Some (PDict items)
  | PDbDoc _ => False
  | _ => True
  end ->
  exists message,
    FilterableStatement.bind (S (S depth)) [obj] self
    = (Raise (ProgrammingError message []), set_has_bindings true self)
    /\ message = match obj with
                 | PStr _ => "Invalid JSON string to bind"
                 | _ => "Invalid JSON string or object to bind"
                 end.
Proof.
  intros Hobj. eexists. split; [|reflexivity].
  destruct obj; try contradiction; try (by apply bind_other_object).
  by apply bind_text_not_mapping.
Qed.

End BindExtras.

Section WhereExtras.
Context `{!Parser} `{!Connection}.

(** X17. An accepted [where] replaces whatever an earlier [where] left,
  accepted or refused: the statement is the one [where] makes of the
  statement before both calls. *)
Theorem where_replaces_where (first condition : string) (self : FilterableStatement)
    (e : Expr) (positions : gmap string nat) :
  expr condition (negb (_doc_based (statement self))) = Some (e, positions) ->
  snd (FilterableStatement.where_ condition
         (snd (FilterableStatement.where_ first self)))
  = snd (FilterableStatement.where_ condition self).
Proof.
  intros Hparse. rewrite (where_accepted condition self e positions Hparse).
  destruct (expr first (negb (_doc_based (statement self)))) as [[e1 p1]|] eqn:Hfirst.
  - rewrite (where_accepted first self e1 p1 Hfirst).
    rewrite (where_accepted condition _ e positions) by (by destruct self).
    by destruct self.
  - rewrite (where_refused first self Hfirst).
    rewrite (where_accepted condition _ e positions) by (by destruct self).
    by destruct self.
Qed.

(** X19. [sort] does not turn the parser's [ValueError] into a
  [ProgrammingError] as [where] does: on clauses the parser refuses, the
  [ValueError] reaches the caller, and the call leaves [has_sort] set and the
  refused text stored. *)
Theorem sort_refused (clauses : list param) (text : string) (self : FilterableStatement) :
  join_params "," (flexible_params clauses) = Return text ->
  parse_order_spec text (negb (_doc_based (statement self))) = None ->
  FilterableStatement.sort clauses self
  = (Raise ValueError, set_sort_str text (set_has_sort true self)).
Proof.
  intros Hjoin Hparse. unfold FilterableStatement.sort, bindM, modifyM, getM, liftO.
  rewrite Hjoin. destruct self as [[target doc_based] ?]. cbn in *. by rewrite Hparse.
Qed.

(** X20. [having] on a read statement lets the parser's [ValueError]
  through as well: on a condition the parser refuses, the [ValueError]
  reaches the caller, and the call leaves [has_having] set. *)
Theorem having_refused (condition : string) (self : ReadStatement) :
  expr condition (negb (_doc_based (statement (read_filterable self)))) = None ->
  ReadStatement.having condition self
  = (Raise ValueError,
     ReadStatement.set_filterable (set_has_having true (read_filterable self)) self).
Proof.
  intros Hparse. unfold ReadStatement.having, ReadStatement.super, inherited,
    FilterableStatement._set_having, bindM, modifyM, getM.
  destruct self as [[[target doc_based] ?] ? ?]. cbn in *. by rewrite Hparse.
Qed.

End WhereExtras.

Section AddExtras.
Context `{!Parser}.

Lemma coerce_document (val d : pyobj) (self : AddStatement) :
  as_document val = Some d -> AddStatement.coerce val self = (Return d, self).
Proof.
  unfold as_document, AddStatement.coerce.
  destruct val; cbn; try (destruct (DbDoc_new _); cbn; by intros [= <-]).
  by intros [= <-].
Qed.

Lemma coerce_refused (val : pyobj) (self : AddStatement) :
  as_document val = None -> AddStatement.coerce val self = (Raise ValueError, self).
Proof.
  unfold as_document, AddStatement.coerce.
  destruct val; cbn; try (by destruct (DbDoc_new _)). done.
Qed.

Lemma with_values_nil (self : AddStatement) : with_values [] self = self.
Proof. destruct self as [[? ? ?] ?]. unfold with_values. cbn. by rewrite app_nil_r. Qed.

Lemma with_values_cons (d : pyobj) (docs : list pyobj) (self : AddStatement) :
  with_values docs (AddStatement.append_value d self) = with_values (d :: docs) self.
Proof.
  destruct self as [[? ? ?] ?]. unfold with_values, AddStatement.append_value. cbn.
  by rewrite <- app_assoc.
Qed.

Lemma add_each (items docs rest : list pyobj) (self : AddStatement) :
  Forall2 (fun val d => as_document val = Some d) items docs ->
  for_each (items ++ rest)
    (fun val => doc <- AddStatement.coerce val ;; modifyM (AddStatement.append_value doc))
    self
  = for_each rest
      (fun val => doc <- AddStatement.coerce val ;; modifyM (AddStatement.append_value doc))
      (with_values docs self).
Proof.
  intros Hall. revert self. induction Hall as [|val d items docs Hd _ IH]; intros self.
  { by rewrite with_values_nil. }
  cbn [app for_each]. unfold bindM at 1. unfold bindM at 1.
  rewrite (coerce_document val d self Hd). cbn. rewrite IH. by rewrite with_values_cons.
Qed.

(** X21. [add] appends one document for each value, in the order of the
  values and after the documents added before: a document as it is, any
  other value as the document [DbDoc] makes of it. *)
Theorem add_appends_documents (values docs : list pyobj) (self : AddStatement) :
  Forall2 (fun val d => as_document val = Some d) (documents_given values) docs ->
  AddStatement.add values self = (Return tt, with_values docs self).
Proof.
  intros Hall. unfold AddStatement.add. fold (documents_given values).
  rewrite <- (app_nil_r (documents_given values)). by rewrite (add_each _ docs).
Qed.

(** X22. [add] is not all or nothing: when [DbDoc] refuses a value, the
  [ValueError] reaches the caller, and the documents of the values before it
  stay added. *)
Theorem add_keeps_earlier_documents (values good rest docs : list pyobj) (bad : pyobj)
    (self : AddStatement) :
  documents_given values = good ++ bad :: rest ->
  Forall2 (fun val d => as_document val = Some d) good docs ->
  as_document bad = None ->
  AddStatement.add values self = (Raise ValueError, with_values docs self).
Proof.
  intros Hgiven Hall Hbad. unfold AddStatement.add. fold (documents_given values).
  rewrite Hgiven, (add_each _ docs) by done.
  cbn [for_each]. unfold bindM at 1. unfold bindM at 1.
  by rewrite (coerce_refused bad _ Hbad).
Qed.

End AddExtras.

Section ModifyExtras.
Context `{!Parser} `{!Connection}.

Lemma new_document_update (update_type : UpdateType) (source : string)
    (value : option pyobj) :
  document_update update_type ->
  UpdateSpec.new update_type source value
  = match document_field (without_dollar source) with
    | None => Raise ValueError
    | Some identifier => Return (Build_UpdateSpec update_type identifier value)
    end.
Proof. by destruct update_type. Qed.

(** X23. For an update of a document, exactly one leading [$] is taken
  off the source before the parser reads it as a document path: a source
  made of [$] and [rest] is read as [rest], whatever [rest] starts with, so
  that a second [$] stays and reaches the parser; a source that does not
  start with [$] is read as it is. The operation carries the path the
  parser answers, and the parser's [ValueError] reaches the caller. *)
Theorem update_source_dollar (update_type : UpdateType) (value : option pyobj) :
  document_update update_type ->
  (forall rest : string,
      UpdateSpec.new update_type (String "$" rest) value
      = match document_field rest with
        | None => Raise ValueError
        | Some identifier => Return (Build_UpdateSpec update_type identifier value)
        end)
  /\ (forall rest : string,
        UpdateSpec.new update_type (String "$" (String "$" rest)) value
        = match document_field (String "$" rest) with
          | None => Raise ValueError
          | Some identifier => Return (Build_UpdateSpec update_type identifier value)
          end)
  /\ (forall source : string,
        (forall rest, source <> String "$" rest) ->
        UpdateSpec.new update_type source value
        = match document_field source with
          | None => Raise ValueError
          | Some identifier => Return (Build_UpdateSpec update_type identifier value)
          end).
Proof.
  intros Hdoc. repeat split.
  - intros rest. by rewrite new_document_update.
  - intros rest. by rewrite new_document_update.
  - intros source Hsource. rewrite new_document_update by done.
    destruct source as [|c source]; [done|].
    destruct (decide (c = "$"%char)) as [->|Hc]; [by destruct (Hsource source)|].
    unfold without_dollar.
    destruct c as [[] [] [] [] [] [] [] []]; try reflexivity. by destruct Hc.
Qed.

Lemma append_op_accepted (update_type : UpdateType) (source : string)
    (value : option pyobj) (identifier : Expr) (self : ModifyStatement) :
  document_update update_type ->
  document_field (without_dollar source) = Some identifier ->
  ModifyStatement.append_op update_type source value self
  = (Return tt,
     ModifyStatement.extend_ops [Build_UpdateSpec update_type identifier value] self).
Proof.
  intros Hdoc Hfield. unfold ModifyStatement.append_op, bindM, liftO.
  by rewrite new_document_update, Hfield.
Qed.

Lemma append_op_refused (update_type : UpdateType) (source : string)
    (value : option pyobj) (self : ModifyStatement) :
  document_update update_type ->
  document_field (without_dollar source) = None ->
  ModifyStatement.append_op update_type source value self = (Raise ValueError, self).
Proof.
  intros Hdoc Hfield. unfold ModifyStatement.append_op, bindM, liftO.
  by rewrite new_document_update, Hfield.
Qed.

(** X24. [set], [change], [array_insert] and [array_append] are each all
  or nothing: on a path the parser reads, the call appends one operation of
  its type, with the parsed path and the value, after the operations added
  before, and leaves the rest of the statement as it was; on a path the
  parser refuses, it raises the parser's [ValueError] and leaves the
  statement exactly as it was. *)
Theorem modify_operation_all_or_nothing (doc_path : string) (value : pyobj)
    (self : ModifyStatement) :
  (forall identifier,
      document_field (without_dollar doc_path) = Some identifier ->
      let added update_type :=
        (Return tt,
         {| modify_filterable := modify_filterable self;
            modify_update_ops :=
              modify_update_ops self
              ++ [Build_UpdateSpec update_type identifier (Some value)] |}) in
      ModifyStatement.set doc_path value self = added ITEM_SET
      /\ ModifyStatement.change doc_path value self = added ITEM_REPLACE
      /\ ModifyStatement.array_insert doc_path value self = added ARRAY_INSERT
      /\ ModifyStatement.array_append doc_path value self = added ARRAY_APPEND)
  /\ (document_field (without_dollar doc_path) = None ->
      ModifyStatement.set doc_path value self = (Raise ValueError, self)
      /\ ModifyStatement.change doc_path value self = (Raise ValueError, self)
      /\ ModifyStatement.array_insert doc_path value self = (Raise ValueError, self)
      /\ ModifyStatement.array_append doc_path value self = (Raise ValueError, self)).
Proof.
  split.
  - intros identifier Hfield added. repeat split; by apply append_op_accepted.
  - intros Hfield. repeat split; by apply append_op_refused.
Qed.

Lemma removals_accepted (doc_paths : list string) (identifiers : list Expr) :
  Forall2 (fun path identifier => document_field (without_dollar path) = Some identifier)
    doc_paths identifiers ->
  ModifyStatement.removals doc_paths
  = Return (map (fun identifier => Build_UpdateSpec ITEM_REMOVE identifier None)
              identifiers).
Proof.
  induction 1 as [|path identifier doc_paths identifiers Hfield _ IH]; [done|].
  cbn [ModifyStatement.removals map]. rewrite new_document_update by done.
  by rewrite Hfield, IH.
Qed.

Lemma removals_refused (doc_paths : list string) (path : string) :
  path ∈ doc_paths -> document_field (without_dollar path) = None ->
  ModifyStatement.removals doc_paths = Raise ValueError.
Proof.
  intros Hin Hfield. induction doc_paths as [|p doc_paths IH];
    [by apply elem_of_nil in Hin|].
  cbn [ModifyStatement.removals]. rewrite new_document_update by done.
  destruct (document_field (without_dollar p)) as [identifier|] eqn:Hp; [|done].
  apply elem_of_cons in Hin as [->|Hin]; [congruence|]. by rewrite IH.
Qed.

(** X25. [unset] is all or nothing: when the parser reads every path, one
  removal for each path is appended, in the order of the paths; when it
  refuses one of them, [unset] raises and appends none, not even for the
  paths before the refused one. *)
Theorem unset_all_or_nothing (doc_paths : list string) (self : ModifyStatement) :
  (forall identifiers,
      Forall2 (fun path identifier =>
                 document_field (without_dollar path) = Some identifier)
        doc_paths identifiers ->
      ModifyStatement.unset doc_paths self
      = (Return tt,
         {| modify_filterable := modify_filterable self;
            modify_update_ops :=
              modify_update_ops self
              ++ map (fun identifier => Build_UpdateSpec ITEM_REMOVE identifier None)
                   identifiers |}))
  /\ (forall path,
        path ∈ doc_paths -> document_field (without_dollar path) = None ->
        ModifyStatement.unset doc_paths self = (Raise ValueError, self)).
Proof.
  split.
  - intros identifiers Hall. unfold ModifyStatement.unset, bindM, liftO.
    by rewrite (removals_accepted _ _ Hall).
  - intros path Hin Hfield. unfold ModifyStatement.unset, bindM, liftO.
    by rewrite (removals_refused _ _ Hin Hfield).
Qed.

(** X26. [patch] takes a mapping, a document or a text, and [None] as the
  empty text; it asks the parser for the empty path, so that it appends its
  operation when the parser reads the empty path and raises the parser's
  [ValueError] when it does not. Any other value is refused with a
  [ProgrammingError], and the statement is as it was. *)
Theorem patch_cases (doc : pyobj) (self : ModifyStatement) :
  ModifyStatement.patch doc self
  = match doc with
    | PBool _ | PInt _ | PList _ =>
        (Raise (ProgrammingError
                  "Invalid data for update operation on document collection table" []),
         self)
    | _ =>
        match document_field "" with
        | Some identifier =>
            (Return tt,
             ModifyStatement.extend_ops
               [Build_UpdateSpec MERGE_PATCH identifier
                  (Some match doc with
                        | PNone => PStr ""
                        | _ => doc
                        end)] self)
        | None => (Raise ValueError, self)
        end
    end.
Proof.
  unfold ModifyStatement.patch.
  destruct doc; try reflexivity;
    (destruct (document_field "") as [identifier|] eqn:Hfield;
     [by apply append_op_accepted|by apply append_op_refused]).
Qed.

(** X27. The update operations do not stand for a condition: on a modify
  statement without [where], [execute] raises the missing-condition error
  after any of them, whether the operation was added or refused. *)
Theorem operations_do_not_filter (update_type : UpdateType) (source : string)
    (value : option pyobj) (self : ModifyStatement) (log : list call) :
  has_where (modify_filterable self) = false ->
  ModifyStatement.execute
    (snd (ModifyStatement.append_op update_type source value self)) log
  = (Raise (ProgrammingError "No condition was found for modify" []), log).
Proof.
  intros Hflag. unfold ModifyStatement.execute, ModifyStatement.append_op, bindM, liftO.
  destruct (UpdateSpec.new update_type source value); cbn; by rewrite Hflag.
Qed.

(** X28. [set] on an update statement reads its field as a column of the
  table, a leading [$] included: on a field the parser reads it appends one
  operation of type [SET], and on a field it refuses it raises the parser's
  [ValueError] and leaves the statement as it was. *)
Theorem update_set_column (field : string) (value : pyobj) (self : UpdateStatement) :
  UpdateStatement.set field value self
  = match parse_table_update_field field with
    | Some column =>
        (Return tt,
         {| update_filterable := update_filterable self;
            update_update_ops :=
              update_update_ops self ++ [Build_UpdateSpec SET column (Some value)] |})
    | None => (Raise ValueError, self)
    end.
Proof.
  unfold UpdateStatement.set, UpdateSpec.new, UpdateSpec._table_set, bindM, liftO.
  by destruct (parse_table_update_field field).
Qed.

(** X29. Each call of [values] adds one row, whatever the shape of its
  arguments: the one list given as only argument is the row, and any other
  arguments, none or several, make the row themselves. After the calls, the
  rows of an insert statement are the rows it had, then one row for each
  call, in the order of the calls; the fields are as they were. *)
Theorem insert_rows_accumulate (calls : list (list pyobj)) (self : InsertStatement) :
  insert_rows calls self
  = (Return tt,
     {| insert_write :=
          {| write_statement := write_statement (insert_write self);
             _values :=
               _values (insert_write self)
               ++ map (fun args => PList match args with
                                         | [PList row] => row
                                         | _ => args
                                         end) calls;
             _upsert := _upsert (insert_write self) |};
        _fields := _fields self |}).
Proof.
  unfold insert_rows. revert self. induction calls as [|args calls IH]; intros self.
  { destruct self as [[? ? ?] ?]. cbn. by rewrite app_nil_r. }
  cbn [for_each map]. unfold bindM at 1.
  unfold InsertStatement.values at 1, modifyM. rewrite IH.
  destruct self as [[? ? ?] ?]. unfold InsertStatement.append_row. cbn.
  by rewrite <- app_assoc.
Qed.

End ModifyExtras.

Section QuotingExtras.
Import Quoting.

Lemma quote_identifier_quoted (identifier sql_mode : string) :
  exists quoted,
    quote_identifier identifier sql_mode = Return quoted
    /\ is_quoted_identifier quoted sql_mode = Return true.
Proof.
  destruct (decide (identifier = "")) as [->|Hne].
  { exists "``". split; [reflexivity|].
    unfold is_quoted_identifier. destruct (ansi_quotes sql_mode); reflexivity. }
  destruct (is_quoted_total identifier sql_mode Hne) as [[|] Hb].
  - exists identifier. split; [by apply quote_quoted|done].
  - pose proof (is_quoted_wrap sql_mode) as Hw.
    assert (Hquote : quote_identifier identifier sql_mode
                     = if ansi_quotes sql_mode then
                         Return (String dquote
                                   (PyStr.replace1 dquote (String dquote (String dquote ""))
                                      identifier +:+ String dquote ""))
                       else
                         Return (String backtick
                                   (PyStr.replace1 backtick "``" identifier
                                    +:+ String backtick ""))).
    { unfold quote_identifier. rewrite Hb. destruct identifier; [done|].
      cbn [String.length Nat.eqb]. by destruct (ansi_quotes sql_mode). }
    destruct (ansi_quotes sql_mode); eexists; (split; [exact Hquote|apply Hw]).
Qed.

(** X30. [quote_multipart_identifier] never raises, though
  [is_quoted_identifier] raises [IndexError] on the empty identifier: the
  result is the quoted parts joined with dots, each part being what
  [quote_identifier] makes of it, which is a quoted identifier. *)
Theorem quote_multipart_quotes_each (identifiers : list string) (sql_mode : string) :
  is_quoted_identifier "" sql_mode = Raise IndexError
  /\ exists quoted,
      quote_multipart_identifier identifiers sql_mode = Return (PyStr.join "." quoted)
      /\ Forall2 (fun identifier q =>
                    quote_identifier identifier sql_mode = Return q
                    /\ is_quoted_identifier q sql_mode = Return true)
           identifiers quoted.
Proof.
  split.
  { unfold is_quoted_identifier. by destruct (ansi_quotes sql_mode). }
  unfold quote_multipart_identifier.
  assert (Hall : exists quoted,
             quote_all identifiers sql_mode = Return quoted
             /\ Forall2 (fun identifier q =>
                           quote_identifier identifier sql_mode = Return q
                           /\ is_quoted_identifier q sql_mode = Return true)
                  identifiers quoted).
  { induction identifiers as [|identifier identifiers (quoted & Hq & Hall)].
    - exists []. by split.
    - destruct (quote_identifier_quoted identifier sql_mode) as (q & Hquote & Hquoted).
      exists (q :: quoted). cbn [quote_all]. rewrite Hquote, Hq.
      split; [done|]. by constructor. }
  destruct Hall as (quoted & Hq & Hall). exists quoted. by rewrite Hq.
Qed.

End QuotingExtras.

Lemma bind_too_many_arguments_witness :
  let self := @FilterableStatement.fresh toy_parser None true in
  @FilterableStatement.bind toy_parser 1 [PInt 1; PInt 2; PInt 3] self
  = (Raise (ProgrammingError "Invalid number of arguments to bind" []),
     set_has_bindings true self)
  /\ _bindings (set_has_bindings true self) = _bindings self.
Proof.
  intros self.
  apply (@bind_too_many_arguments toy_parser 0 [PInt 1; PInt 2; PInt 3] self).
  cbn. lia.
Defined.

Lemma bind_json_text_witness :
  let self := @FilterableStatement.fresh toy_parser None true in
  @FilterableStatement.bind toy_parser 2 [PStr "{a: 1, b: 2}"] self
  = (Return tt,
     set_bindings [bound (PStr "a") (PInt 1); bound (PStr "b") (PInt 2)]
       (set_has_bindings true self)).
Proof.
  intros self.
  apply (@bind_json_text toy_parser 0 "{a: 1, b: 2}" [("a", PInt 1); ("b", PInt 2)] self).
  - reflexivity.
  - apply (bool_decide_unpack _). vm_compute. exact I.
Defined.

Lemma bind_document_through_text_witness :
  let self := @FilterableStatement.fresh toy_parser None true in
  @FilterableStatement.bind toy_parser 3 [PDbDoc [("a", PInt 1); ("b", PInt 2)]] self
  = (Return tt,
     set_bindings [bound (PStr "a") (PInt 1); bound (PStr "b") (PInt 2)]
       (set_has_bindings true self)).
Proof.
  intros self.
  apply (@bind_document_through_text toy_parser 0 [("a", PInt 1); ("b", PInt 2)]
           [("a", PInt 1); ("b", PInt 2)] self).
  - reflexivity.
  - apply (bool_decide_unpack _). vm_compute. exact I.
Defined.

Lemma bind_invalid_payload_witness :
  let self := @FilterableStatement.fresh toy_parser None true in
  (exists message,
      @FilterableStatement.bind toy_parser 2 [PStr "[1]"] self
      = (Raise (ProgrammingError message []), set_has_bindings true self)
      /\ message = "Invalid JSON string to bind")
  /\ exists message,
      @FilterableStatement.bind toy_parser 2 [PInt 7] self
      = (Raise (ProgrammingError message []), set_has_bindings true self)
      /\ message = "Invalid JSON string or object to bind".
Proof.
  intros self. split.
  - apply (@bind_invalid_payload toy_parser 0 (PStr "[1]") self).
    intros items. discriminate.
  - apply (@bind_invalid_payload toy_parser 0 (PInt 7) self). exact I.
Defined.

Lemma where_replaces_where_witness :
  let self := @FilterableStatement.fresh toy_parser None true in
  snd (@FilterableStatement.where_ toy_parser "a > 1"
         (snd (@FilterableStatement.where_ toy_parser "(a" self)))
  = snd (@FilterableStatement.where_ toy_parser "a > 1" self).
Proof.
  intros self.
  apply (@where_replaces_where toy_parser "(a" "a > 1" self "a > 1" ∅).
  reflexivity.
Defined.

Lemma sort_refused_witness :
  let self := @FilterableStatement.fresh strict_parser None true in
  @FilterableStatement.sort strict_parser [] self
  = (Raise ValueError, set_sort_str "" (set_has_sort true self)).
Proof.
  intros self. apply (@sort_refused strict_parser [] "" self); reflexivity.
Defined.

Lemma having_refused_witness :
  let self := @Build_ReadStatement toy_parser (FilterableStatement.fresh None true)
                false false in
  @ReadStatement.having toy_parser "(a" self
  = (Raise ValueError,
     ReadStatement.set_filterable (set_has_having true (read_filterable self)) self).
Proof.
  intros self. apply (@having_refused toy_parser "(a" self). reflexivity.
Defined.

Lemma add_appends_documents_witness :
  let self := AddStatement.new None in
  @AddStatement.add toy_parser [PDbDoc []; PDict [("a", PInt 1)]] self
  = (Return tt, with_values [PDbDoc []; PDbDoc [("a", PInt 1)]] self).
Proof.
  intros self.
  apply (@add_appends_documents toy_parser [PDbDoc []; PDict [("a", PInt 1)]]).
  repeat constructor.
Defined.

Lemma add_keeps_earlier_documents_witness :
  let self := AddStatement.new None in
  @AddStatement.add toy_parser [PDbDoc []; PInt 3; PDbDoc []] self
  = (Raise ValueError, with_values [PDbDoc []] self).
Proof.
  intros self.
  apply (@add_keeps_earlier_documents toy_parser [PDbDoc []; PInt 3; PDbDoc []]
           [PDbDoc []] [PDbDoc []] [PDbDoc []] (PInt 3) self).
  - reflexivity.
  - repeat constructor.
  - reflexivity.
Defined.

(** With the example parser, which answers the path it is given: of two
  leading [$] one is taken off, and a path without one is read as it is. *)
Lemma update_source_dollar_witness :
  @UpdateSpec.new toy_parser ITEM_SET "$$.a" (Some (PInt 1))
  = Return (@Build_UpdateSpec toy_parser ITEM_SET "$.a" (Some (PInt 1)))
  /\ @UpdateSpec.new toy_parser ITEM_SET "$.a" (Some (PInt 1))
     = Return (@Build_UpdateSpec toy_parser ITEM_SET ".a" (Some (PInt 1)))
  /\ @UpdateSpec.new toy_parser ITEM_SET ".a" (Some (PInt 1))
     = Return (@Build_UpdateSpec toy_parser ITEM_SET ".a" (Some (PInt 1))).
Proof.
  destruct (@update_source_dollar toy_parser ITEM_SET (Some (PInt 1)) I)
    as (Hone & Htwo & Hnone).
  split; [exact (Htwo ".a")|]. split; [exact (Hone ".a")|].
  apply (Hnone ".a"). intros rest. discriminate.
Defined.

Lemma modify_operation_all_or_nothing_witness :
  let self := @Build_ModifyStatement strict_parser (FilterableStatement.fresh None true) [] in
  @ModifyStatement.set strict_parser "$.a" (PInt 1) self
  = (Return tt,
     @Build_ModifyStatement strict_parser (FilterableStatement.fresh None true)
       [@Build_UpdateSpec strict_parser ITEM_SET ".a" (Some (PInt 1))])
  /\ @ModifyStatement.set strict_parser "$" (PInt 1) self = (Raise ValueError, self).
Proof.
  intros self. split.
  - exact (proj1 (proj1 (@modify_operation_all_or_nothing strict_parser "$.a" (PInt 1) self)
                    ".a" eq_refl)).
  - exact (proj1 (proj2 (@modify_operation_all_or_nothing strict_parser "$" (PInt 1) self)
                    eq_refl)).
Defined.

Lemma unset_all_or_nothing_witness :
  let self := @Build_ModifyStatement strict_parser (FilterableStatement.fresh None true) [] in
  @ModifyStatement.unset strict_parser ["$.a"; "b"] self
  = (Return tt,
     @Build_ModifyStatement strict_parser (FilterableStatement.fresh None true)
       [@Build_UpdateSpec strict_parser ITEM_REMOVE ".a" None;
        @Build_UpdateSpec strict_parser ITEM_REMOVE "b" None])
  /\ @ModifyStatement.unset strict_parser ["$.a"; "$"] self = (Raise ValueError, self).
Proof.
  intros self. split.
  - apply (proj1 (@unset_all_or_nothing strict_parser ["$.a"; "b"] self) [".a"; "b"]).
    repeat constructor.
  - apply (proj2 (@unset_all_or_nothing strict_parser ["$.a"; "$"] self) "$").
    + right. left.
    + reflexivity.
Defined.

Lemma operations_do_not_filter_witness :
  let self := @Build_ModifyStatement toy_parser (FilterableStatement.fresh None true) [] in
  @ModifyStatement.execute toy_parser toy_connection
    (snd (@ModifyStatement.append_op toy_parser ITEM_SET "$.a" (Some (PInt 1)) self)) []
  = (Raise (ProgrammingError "No condition was found for modify" []), []).
Proof.
  intros self.
  apply (@operations_do_not_filter toy_parser toy_connection ITEM_SET "$.a"
           (Some (PInt 1)) self []).
  reflexivity.
Defined.

Section GeojsonMembers.
Context `{!Parser} `{!Connection} `{case_mapping : !CaseMapping}.
Import CreateCollectionIndexStatement.
Implicit Types (h : Py.store) (l : loc) (m fm top : gmap string val).

Lemma visit_members_raises h l fm (index_type : val) :
  h !! l = Some (ODict fm) -> has_geojson_member fm -> not_geojson fm ->
  raises (constraint_of index_type (VRef l)) h.
Proof.
  intros Ho Hmember Hng. unfold constraint_of.
  apply raises_try; [|intros e k h'; apply raises_handler].
  eapply raises_pop; [exact Ho|]. intros member h1 H1 _.
  eapply raises_pop; [exact H1|]. intros type h2 H2 Htype.
  destruct Htype as [Htype|[_ [=]]]. rewrite lookup_delete_ne in Htype by done.
  unfold not_geojson in Hng. rewrite Htype in Hng.
  eapply raises_pop; [exact H2|]. intros required h3 H3 _.
  set (m3 := delete "required" (delete "type" (delete "field" fm))) in *.
  assert (Hm3 : is_Some (m3 !! "options") \/ is_Some (m3 !! "srid")).
  { subst m3. by rewrite !lookup_delete_ne. }
  clearbody m3. clear Hmember.
  assert (Hblock : forall key (c : gmap string val) h' (r : gmap string val) h'' m'
                          (guard : string -> bool) err,
             h' !! l = Some (ODict m') ->
             (type_upper <- Py.upper type ;;
              if negb (guard type_upper) then raiseM err
              else v <- Py.pop (VRef l) key None ;; retM (<[key := v]> c)) h'
             = (Return r, h'') ->
             (exists t, type = VStr t /\ guard (PyStr.upper t) = true)
             /\ h'' !! l = Some (ODict (delete key m'))).
  { intros key c h' r h'' m' guard err Hh' Hrun. destruct type as [| | |t|]; try done.
    unfold bindM in Hrun. cbn [Py.upper retM] in Hrun.
    destruct (guard (PyStr.upper t)) eqn:Hg; cbn [negb] in Hrun; [|done].
    split; [by exists t|].
    rewrite (pop_dict _ _ _ _ _ Hh') in Hrun.
    destruct (m' !! key) as [v|] eqn:Hv; [|done]. injection Hrun as _ <-.
    by eapply lookup_written. }
  assert (Htail : forall (c : gmap string val) h' m',
             h' !! l = Some (ODict m') ->
             is_Some (m' !! "options") \/ is_Some (m' !! "srid") ->
             raises
               (has_options <- Py.contains "options" (VRef l) ;;
                constraint <-
                  (if has_options then
                     type_upper <- Py.upper type ;;
                     if negb (String.eqb type_upper "GEOJSON") then
                       raiseM (ProgrammingError ERR_OPTIONS [])
                     else
                       options <- Py.pop (VRef l) "options" None ;;
                       retM (<["options" := options]> c)
                   else retM c) ;;
                has_srid <- Py.contains "srid" (VRef l) ;;
                (if has_srid then
                   type_upper <- Py.upper type ;;
                   if negb (String.eqb type_upper "GEOJSON") then
                     raiseM (ProgrammingError ERR_SRID [])
                   else
                     srid <- Py.pop (VRef l) "srid" None ;;
                     retM (<["srid" := srid]> constraint)
                 else retM constraint)) h').
  { intros c h' m' Hh' Hm'. eapply raises_contains; [exact Hh'|].
    destruct (bool_decide (is_Some (m' !! "options"))) eqn:Hoptions.
    - apply raises_bind. intros r h'' Hrun. exfalso.
      destruct (Hblock _ _ _ _ _ _ (fun u => String.eqb u "GEOJSON") _ Hh' Hrun)
        as [(t & -> & Hg) _].
      by apply String.eqb_eq in Hg.
    - apply raises_ret. eapply raises_contains; [exact Hh'|].
      apply bool_decide_eq_false_1 in Hoptions. destruct Hm' as [?|Hsrid]; [done|].
      rewrite bool_decide_eq_true_2 by done.
      unfold raises.
      destruct ((type_upper <- Py.upper type ;;
                 if negb (String.eqb type_upper "GEOJSON") then
                   raiseM (ProgrammingError ERR_SRID [])
                 else
                   srid <- Py.pop (VRef l) "srid" None ;;
                   retM (<["srid" := srid]> c)) h') as [[r|e] h''] eqn:Hrun;
        [|by exists e].
      exfalso.
      destruct (Hblock _ _ _ _ _ _ (fun u => String.eqb u "GEOJSON") _ Hh' Hrun)
        as [(t & -> & Hg) _].
      by apply String.eqb_eq in Hg. }
  apply raises_upper. intros s _.
  apply raises_bind. intros nr h4 Hnr.
  assert (h4 = h3) as ->.
  { destruct (String.eqb (PyStr.upper s) "SPATIAL"); [|by injection Hnr as <- <-].
    unfold bindM in Hnr. destruct (truthy_cases required h3) as [[b Hb]|[e He]].
    - rewrite Hb in Hnr. by injection Hnr.
    - by rewrite He in Hnr. }
  apply raises_bind. intros [] h5 Hif.
  assert (h5 = h3) as ->. { destruct nr; [done|by injection Hif]. }
  apply raises_upper. intros s' _.
  apply raises_bind. intros [] h6 Hif'.
  assert (h6 = h3) as ->. { destruct (_ && _); [done|by injection Hif']. }
  eapply raises_contains; [exact H3|].
  destruct (bool_decide (is_Some (m3 !! "collation"))).
  - apply raises_bind. intros r h7 Hrun.
    destruct (Hblock _ _ _ _ _ _ (fun u => PyStr.startswith u "TEXT") _ H3 Hrun)
      as [_ H7].
    eapply Htail; [exact H7|]. by rewrite !lookup_delete_ne.
  - apply raises_ret. by eapply Htail.
Qed.

(** X18. An entry with [options] or [srid] whose type does not read
  GEOJSON, in any case of letters, makes [execute] raise before any call on
  the connection, whatever the type of the index. *)
Theorem geojson_members_need_geojson_entry (self : CreateCollectionIndexStatement) h
    (log : list call) top (fields : list val) fm :
  describes h self top fields ->
  has_entry h fields fm -> has_geojson_member fm -> not_geojson fm ->
  rejected self h log.
Proof.
  intros Hdesc (l & Hin & Hl) Hmember Hng.
  apply execute_rejected. eapply build_args_raises; [exact Hdesc|].
  intros _ Hrest h' Hfr Hd'.
  apply (loop_raises _ _ _ l (fun fm => has_geojson_member fm /\ not_geojson fm)).
  - intros h'' fm' Hl' [? ?]. by eapply visit_members_raises.
  - done.
  - exists fm. split; [|done]. rewrite Hfr; [done|]. intros Heq.
    destruct Hdesc as (d & lf & Hd & Hdo & _). rewrite Hd in Heq. injection Heq as <-.
    rewrite Hdo in Hl. injection Hl as <-.
    assert (exists key v, key <> "type" /\ key <> "unique" /\ top !! key = Some v)
      as (key & v & Hty & Hun & Hkey).
    { destruct Hmember as [[v Hv]|[v Hv]]; [by exists "options", v|by exists "srid", v]. }
    assert (delete "unique" (delete "type" top) !! key = Some v) as Hleft
      by (by rewrite !lookup_delete_ne).
    by rewrite Hrest in Hleft.
Qed.

End GeojsonMembers.

Lemma geojson_members_need_geojson_entry_witness :
  @rejected toy_parser toy_connection ascii_case index_example
    (index_example_store srid_description) [].
Proof.
  apply (@geojson_members_need_geojson_entry toy_parser toy_connection ascii_case index_example
           _ [] (<["type" := VStr "INDEX"]> ∅) [VRef 5]
           (<["field" := VStr "$.n"]> (<["type" := VStr "INT"]>
              (<["srid" := VInt 4326]> ∅)))).
  - example_description.
  - example_entry.
  - right. exists (VInt 4326). vm_compute. reflexivity.
  - vm_compute. discriminate.
Defined.
